(** * Power-quality analyzer: a shallow embedding of [backend/analyzer.py]
      and [backend/main.py]

    The analysis engine of the repository is embedded function by function,
    and so is the endpoint that calls it. Numbers are IEEE binary64 values
    (Python [float], numpy [float64]), so that NaN, infinities and
    comparisons behave as they do in the program. Dictionaries are finite
    maps, pandas columns are lists of cells, and what the engine raises
    travels in a [result] type. The endpoint is parametrised by the reader
    of the uploaded workbook. *)

From Stdlib Require Import ZArith Floats String Ascii List Bool Lia.
From Stdlib Require Reals Lra.
From stdpp Require Import base option strings gmap list pretty.

Set Warnings "-inexact-float".

Local Open Scope string_scope.
Local Open Scope Z_scope.
Local Open Scope list_scope.

(* ===================================================================== *)
(** * 1. Numbers *)
(* ===================================================================== *)

(** [np.nan] and [float('inf')]. *)
Definition NaN : float := PrimFloat.nan.
Definition inf : float := PrimFloat.infinity.

(** [np.isnan]: a binary64 value is NaN exactly when it differs from itself. *)
Definition isnan (x : float) : bool := negb (x =? x)%float.

(** Python's [x > y] and [x < y], [x <= y], [x != y] on floats (false, false,
    false and true on NaN). *)
Definition gt (x y : float) : bool := (y <? x)%float.
Definition lt (x y : float) : bool := (x <? y)%float.
Definition le (x y : float) : bool := (x <=? y)%float.
Definition ne (x y : float) : bool := negb (x =? y)%float.

(** [float(n)] for a count or a small integer constant. *)
Definition float_of_Z (z : Z) : float :=
  if z <? 0 then (- PrimFloat.of_uint63 (Uint63.of_Z (- z)))%float
  else PrimFloat.of_uint63 (Uint63.of_Z z).

Definition float_of_nat (n : nat) : float := float_of_Z (Z.of_nat n).

(* ===================================================================== *)
(** * 2. Python text primitives *)
(* ===================================================================== *)

(** Text is ASCII; a [string] is the Python [str] with the same characters. *)

Definition chars (s : string) : list ascii := list_ascii_of_string s.
Definition text (l : list ascii) : string := string_of_list_ascii l.

Definition code (c : ascii) : Z := Z.of_nat (nat_of_ascii c).

(** [str.isspace] on ASCII: TAB..CR, FS..US and the blank. *)
Definition is_space (c : ascii) : bool :=
  ((9 <=? code c) && (code c <=? 13)) || ((28 <=? code c) && (code c <=? 32)).

Definition is_digit (c : ascii) : bool := (48 <=? code c) && (code c <=? 57).

Definition digit_value (c : ascii) : Z := code c - 48.

(** [s.split(sep)] for a one-character separator: never empty, one more
    part than there are separators. *)
Fixpoint split_chars (sep : ascii) (s : list ascii) : list (list ascii) :=
  match s with
  | [] => [[]]
  | c :: rest =>
      if Ascii.eqb c sep then [] :: split_chars sep rest
      else match split_chars sep rest with
           | [] => [[c]]
           | p :: ps => (c :: p) :: ps
           end
  end.

Definition py_split (sep : ascii) (s : string) : list string :=
  text <$> split_chars sep (chars s).

(** [s.strip()] *)
Fixpoint lstrip (s : list ascii) : list ascii :=
  match s with
  | c :: rest => if is_space c then lstrip rest else s
  | [] => []
  end.

Definition strip (s : list ascii) : list ascii := rev (lstrip (rev (lstrip s))).

(** Decimal digits with single underscores between them (the body of an
    integer literal accepted by [int]); [seen] says that the previous
    character was a digit. *)
Fixpoint int_digits (acc : Z) (seen : bool) (s : list ascii) : option Z :=
  match s with
  | [] => if seen then Some acc else None
  | c :: rest =>
      if is_digit c then int_digits (10 * acc + digit_value c) true rest
      else if Ascii.eqb c "_" && seen then int_digits acc false rest
      else None
  end.

(** [int(s)]: [None] stands for [ValueError]. The interpreter's bound on
    the number of digits of a literal (4300 by default) is not modelled. *)
Definition py_int (s : string) : option Z :=
  match strip (chars s) with
  | [] => None
  | c :: body =>
      if Ascii.eqb c "+" then int_digits 0 false body
      else if Ascii.eqb c "-" then Z.opp <$> int_digits 0 false body
      else int_digits 0 false (c :: body)
  end.

(** [str(n)] for an integer. *)
Definition str_int (n : Z) : string := pretty n.

(** [f"{n:02d}"]: sign-aware zero padding to width two. *)
Definition fmt_02d (n : Z) : string :=
  if (0 <=? n) && (n <? 10) then "0" +:+ str_int n else str_int n.

(** [", ".join(parts)] *)
Fixpoint join (sep : string) (parts : list string) : string :=
  match parts with
  | [] => ""
  | [p] => p
  | p :: rest => p +:+ sep +:+ join sep rest
  end.

(* ===================================================================== *)
(** * 3. Calendar-year conversion *)
(* ===================================================================== *)

(** The [try] block of [thai_to_gregorian_year]: the three [int] calls on
    [parts[0]], [parts[1]], [parts[2]]. [None] stands for the [ValueError]
    or [IndexError] that the [except] clause catches. *)
Definition date_fields (date_str : string) : option (Z * Z * Z) :=
  let parts := py_split "/" date_str in
  day ← parts !! 0%nat ≫= py_int;
  month ← parts !! 1%nat ≫= py_int;
  thai_year ← parts !! 2%nat ≫= py_int;
  Some (day, month, thai_year).

(** [thai_to_gregorian_year]. Its argument is always text (the caller
    applies it after [astype(str)]), so the [pd.isna] guard never fires. *)
Definition thai_to_gregorian_year (date_str : string) : string :=
  match date_fields date_str with
  | Some (day, month, thai_year) =>
      let gregorian_year := thai_year - 543 in
      fmt_02d day +:+ "/" +:+ fmt_02d month +:+ "/" +:+ str_int gregorian_year
  | None => date_str
  end.

(* ===================================================================== *)
(** * 4. Timestamps *)
(* ===================================================================== *)

(** An instant is a number of seconds since 1970-01-01 00:00:00. *)

Definition between (lo hi c : ascii) : bool :=
  (code lo <=? code c) && (code c <=? code hi).

Definition is_char (a c : ascii) : bool := Ascii.eqb a c.

(** A directive of the format consumes a prefix of the text and yields its
    number. The alternatives of a directive are tried in the order of its
    pattern; since every numeric field is followed by a literal that is not
    a digit (or by the end of the text), the first alternative that matches
    is the only one under which the rest can match. *)
Definition directive := list ascii → option (Z * list ascii).

Definition two (ok : ascii → ascii → bool) : directive := λ s,
  match s with
  | a :: b :: rest =>
      if ok a b then Some (10 * digit_value a + digit_value b, rest) else None
  | _ => None
  end.

Definition one (ok : ascii → bool) : directive := λ s,
  match s with
  | a :: rest => if ok a then Some (digit_value a, rest) else None
  | _ => None
  end.

Definition orelse (p q : directive) : directive := λ s,
  match p s with
  | Some r => Some r
  | None => q s
  end.

Definition literal (c : ascii) (s : list ascii) : option (list ascii) :=
  match s with
  | a :: rest => if is_char c a then Some rest else None
  | [] => None
  end.

(** [%d]: 3[0-1] | [1-2]\d | 0[1-9] | [1-9] | blank [1-9] *)
Definition dir_d : directive :=
  orelse (two (λ a b, (is_char "3" a && between "0" "1" b)
                      || (between "1" "2" a && is_digit b)
                      || (is_char "0" a && between "1" "9" b)))
 (orelse (one (between "1" "9"))
         (λ s, match s with
               | a :: rest => if is_char " " a then one (between "1" "9") rest else None
               | [] => None
               end)).

(** [%m]: 1[0-2] | 0[1-9] | [1-9] *)
Definition dir_m : directive :=
  orelse (two (λ a b, (is_char "1" a && between "0" "2" b)
                      || (is_char "0" a && between "1" "9" b)))
         (one (between "1" "9")).

(** [%Y]: four digits *)
Definition dir_Y : directive := λ s,
  match s with
  | a :: b :: c :: d :: rest =>
      if is_digit a && is_digit b && is_digit c && is_digit d
      then Some (1000 * digit_value a + 100 * digit_value b
                 + 10 * digit_value c + digit_value d, rest)
      else None
  | _ => None
  end.

(** [%H]: 2[0-3] | [0-1]\d | \d *)
Definition dir_H : directive :=
  orelse (two (λ a b, (is_char "2" a && between "0" "3" b)
                      || (between "0" "1" a && is_digit b)))
         (one is_digit).

(** [%M]: [0-5]\d | \d *)
Definition dir_M : directive :=
  orelse (two (λ a b, between "0" "5" a && is_digit b)) (one is_digit).

(** [%S]: 6[0-1] | [0-5]\d | \d *)
Definition dir_S : directive :=
  orelse (two (λ a b, (is_char "6" a && between "0" "1" b)
                      || (between "0" "5" a && is_digit b)))
         (one is_digit).

(** The blank of the format stands for one or more white-space characters. *)
Definition blanks (s : list ascii) : option (list ascii) :=
  match s with
  | a :: rest => if is_space a then Some (lstrip rest) else None
  | [] => None
  end.

Record fields := Fields {
  f_day : Z; f_month : Z; f_year : Z; f_hour : Z; f_minute : Z; f_second : Z }.

(** Matching a text against ['%d/%m/%Y %H:%M:%S']; the whole text has to be
    consumed. *)
Definition strptime (s : string) : option fields :=
  '(day, s) ← dir_d (chars s);
  s ← literal "/" s;
  '(month, s) ← dir_m s;
  s ← literal "/" s;
  '(year, s) ← dir_Y s;
  s ← blanks s;
  '(hour, s) ← dir_H s;
  s ← literal ":" s;
  '(minute, s) ← dir_M s;
  s ← literal ":" s;
  '(second, s) ← dir_S s;
  match s with
  | [] => Some (Fields day month year hour minute second)
  | _ :: _ => None
  end.

Definition is_leap (y : Z) : bool :=
  ((y mod 4 =? 0) && negb (y mod 100 =? 0)) || (y mod 400 =? 0).

Definition days_in_month (y m : Z) : Z :=
  if m =? 2 then (if is_leap y then 29 else 28)
  else if (m =? 4) || (m =? 6) || (m =? 9) || (m =? 11) then 30
  else 31.

(** Days from 1970-01-01 to the civil date [y]-[m]-[d]. *)
Definition days_from_civil (y m d : Z) : Z :=
  let y := if m <=? 2 then y - 1 else y in
  let era := y / 400 in
  let yoe := y - era * 400 in
  let mp := (m + 9) mod 12 in
  let doy := (153 * mp + 2) / 5 + d - 1 in
  let doe := yoe * 365 + yoe / 4 - yoe / 100 + doy in
  era * 146097 + doe - 719468.

(** The civil date of a day number, inverse of [days_from_civil]. *)
Definition civil_from_days (z : Z) : Z * Z * Z :=
  let z := z + 719468 in
  let era := z / 146097 in
  let doe := z - era * 146097 in
  let yoe := (doe - doe / 1460 + doe / 36524 - doe / 146096) / 365 in
  let doy := doe - (365 * yoe + yoe / 4 - yoe / 100) in
  let mp := (5 * doy + 2) / 153 in
  let d := doy - (153 * mp + 2) / 5 + 1 in
  let m := if mp <? 10 then mp + 3 else mp - 9 in
  let y := yoe + era * 400 in
  (if m <=? 2 then y + 1 else y, m, d).

(** Instants are held in signed 64-bit nanoseconds. *)
Definition max_seconds : Z := 9223372036.

(** [pd.to_datetime(s, format='%d/%m/%Y %H:%M:%S', errors='coerce')] on one
    text: [None] is [NaT] (no match, no such calendar day, out of range). *)
Definition to_datetime (s : string) : option Z :=
  f ← strptime s;
  if (1 <=? f_year f) && (f_day f <=? days_in_month (f_year f) (f_month f))
  then
    let t := days_from_civil (f_year f) (f_month f) (f_day f) * 86400
             + f_hour f * 3600 + f_minute f * 60 + f_second f in
    if (- max_seconds <=? t) && (t <=? max_seconds) then Some t else None
  else None.

(** Zero padding of a non-negative number to a width. *)
Definition pad0 (width : nat) (n : Z) : string :=
  let s := str_int n in
  text (replicate (width - String.length s) "0"%char) +:+ s.

(** [strftime('%Y-%m-%d %H:%M:%S')] *)
Definition strftime (t : Z) : string :=
  let '(y, m, d) := civil_from_days (t / 86400) in
  let r := t mod 86400 in
  pad0 4 y +:+ "-" +:+ pad0 2 m +:+ "-" +:+ pad0 2 d +:+ " " +:+
  pad0 2 (r / 3600) +:+ ":" +:+ pad0 2 (r mod 3600 / 60) +:+ ":" +:+ pad0 2 (r mod 60).

(* ===================================================================== *)
(** * 5. Cells, series and tables *)
(* ===================================================================== *)

(** The engine looks at a worksheet cell in two ways only: through
    [astype(str)] (the Date and Time columns) and through
    [pd.to_numeric(errors='coerce')] (every other channel). A cell is
    therefore carried as these two readings: its text, and its number, NaN
    when it has none (missing cell, text that is not a number). *)
Record cell := Cell { cell_text : string; cell_number : float }.

(** A worksheet: column name to column, all columns of one length. *)
Abbreviation frame := (gmap string (list cell)).

(** The cleaned trend table: the instants of the index and, row for row,
    the columns. *)
Record clean_frame := CleanFrame { cf_index : list Z; cf_columns : frame }.

(** [nan_to_zero] *)
Definition nan_to_zero (value : float) : float :=
  if isnan value || isnan value then 0%float else value.

(** [pd.to_numeric(series, errors='coerce')] and [series.fillna(value)] *)
Definition to_numeric (series : list cell) : list float := cell_number <$> series.

Definition fillna (value : float) (series : list float) : list float :=
  (λ x, if isnan x then value else x) <$> series.

(** [to_numeric_safe] *)
Definition to_numeric_safe (series : list cell) : list float :=
  fillna 0 (to_numeric series).

(** [sorted] for floats without NaN. *)
Fixpoint insert_sorted (x : float) (l : list float) : list float :=
  match l with
  | [] => [x]
  | y :: rest => if le x y then x :: l else y :: insert_sorted x rest
  end.

Definition sort (l : list float) : list float := foldr insert_sorted [] l.

Definition dropna (l : list float) : list float :=
  List.filter (λ x, negb (isnan x)) l.

(** Linear interpolation between two neighbours, as numpy computes it. *)
Definition lerp (a b t : float) : float :=
  if le 0.5 t then (b - (b - a) * (1 - t))%float else (a + (b - a) * t)%float.

(** [series.quantile(percentile / 100.0)] with linear interpolation, for an
    integer [percentile]: missing values are skipped, the position
    [(n - 1) * percentile / 100] is split exactly into its integer part and
    its fraction. *)
Definition quantile (series : list float) (percentile : Z) : float :=
  let values := sort (dropna series) in
  let n := Z.of_nat (length values) in
  let position := (n - 1) * percentile in
  let lower := Z.to_nat (position / 100) in
  let upper := Nat.min (S lower) (length values - 1) in
  lerp (nth lower values NaN) (nth upper values NaN)
       (float_of_Z (position mod 100) / 100)%float.

(** [get_percentile_safe] *)
Definition get_percentile_safe (series : list float) (percentile : Z) : float :=
  if bool_decide (series = []) || forallb isnan series then 0%float
  else quantile series percentile.

Definition sum (l : list float) : float := fold_left PrimFloat.add l 0%float.

(** [series.mean()]: missing values are skipped, the mean of nothing is NaN. *)
Definition mean (series : list float) : float :=
  let values := dropna series in
  match values with
  | [] => NaN
  | _ :: _ => (sum values / float_of_nat (length values))%float
  end.

(** [series.max()]: missing values are skipped, the maximum of nothing is NaN. *)
Definition max (series : list float) : float :=
  match dropna series with
  | [] => NaN
  | x :: rest => fold_left (λ m y, if lt m y then y else m) rest x
  end.

(** [get_last_value_safe] *)
Definition get_last_value_safe (series : list float) : float :=
  match List.last (Some <$> series) None with
  | None => 0%float
  | Some x => x
  end.

(** ** The timestamp normalizer *)

(** The rows of a column selected by a mask; a row without mask entry is
    not selected. *)
Fixpoint select {A} (mask : list bool) (column : list A) : list A :=
  match mask, column with
  | keep :: mask, x :: column =>
      if keep then x :: select mask column else select mask column
  | _, _ => []
  end.

(** The [Timestamp] column: the converted date and the time, joined by a
    blank and parsed. A table without [Date] or [Time] column gets [NaT] in
    every row. *)
Definition timestamps (df_trend : frame) : list (option Z) :=
  match df_trend !! "Date", df_trend !! "Time" with
  | Some dates, Some times =>
      let date_str := (λ c, thai_to_gregorian_year (cell_text c)) <$> dates in
      let time_str := cell_text <$> times in
      zip_with (λ d t, to_datetime (d +:+ " " +:+ t)) date_str time_str
  | _, _ => []
  end.

(** [dropna(subset=['Timestamp'])] and [~index.duplicated(keep='first')]:
    a row stays when its instant parsed and no earlier row has it. *)
Fixpoint keep_rows (seen : list Z) (stamps : list (option Z)) : list bool :=
  match stamps with
  | [] => []
  | None :: rest => false :: keep_rows seen rest
  | Some t :: rest =>
      if bool_decide (t ∈ seen) then false :: keep_rows seen rest
      else true :: keep_rows (t :: seen) rest
  end.

(** Lines 229-235 of [analyze_full_data]: [clean_df]. *)
Definition clean_trend (df_trend : frame) : clean_frame :=
  let stamps := timestamps df_trend in
  let keep := keep_rows [] stamps in
  {| cf_index := omap id (select keep stamps);
     cf_columns := select keep <$> delete "Timestamp" df_trend |}.

(** [clean_df.get(col, pd.Series([]))] followed by [to_numeric_safe]. *)
Definition channel (df : clean_frame) (col : string) : list float :=
  to_numeric_safe (default [] (cf_columns df !! col)).

(* ===================================================================== *)
(** * 6. Percentile aggregation *)
(* ===================================================================== *)

(** One 10-minute bucket per tenth of an hour; the buckets are kept in
    chronological order. *)
Fixpoint bucket_insert (k : Z) (x : float) (buckets : list (Z * list float))
  : list (Z * list float) :=
  match buckets with
  | [] => [(k, [x])]
  | (k', xs) :: rest =>
      if k <? k' then (k, [x]) :: buckets
      else if k =? k' then (k', xs ++ [x]) :: rest
      else (k', xs) :: bucket_insert k x rest
  end.

(** [series.resample('10min')]: the samples of each bucket that has any. *)
Definition resample_10min (index : list Z) (series : list float) : list (list float) :=
  snd <$> fold_left (λ buckets '(t, x), bucket_insert (t / 600) x buckets)
                    (zip index series) [].

(** The body of the loop of [calculate_thd_percentiles] for one column. *)
Definition thd_column_percentiles (df : clean_frame)
    (percentile_95 percentile_99 : bool) (results : gmap string float) (col : string)
  : gmap string float :=
  match cf_columns df !! col with
  | None => results
  | Some column =>
      let series := to_numeric_safe column in
      if bool_decide (series = []) then results else
      let results :=
        if percentile_99
        then <[col +:+ "_99th_3s" := get_percentile_safe series 99]> results
        else results in
      let resampled_10min :=
        dropna ((λ x, if bool_decide (x = []) then NaN else get_percentile_safe x 95)
                  <$> resample_10min (cf_index df) series) in
      if bool_decide (resampled_10min = []) then results else
      let results :=
        if percentile_95
        then <[col +:+ "_95th_10min" := get_percentile_safe resampled_10min 95]> results
        else results in
      if percentile_99
      then <[col +:+ "_99th_10min" := get_percentile_safe resampled_10min 99]> results
      else results
  end.

(** [calculate_thd_percentiles] *)
Definition calculate_thd_percentiles (df : clean_frame) (thd_type : string)
    (percentile_95 percentile_99 : bool) : gmap string float :=
  let phases := [1; 2; 3] in
  let thd_cols := (λ p, thd_type +:+ str_int p +:+ " THD") <$> phases in
  fold_left (thd_column_percentiles df percentile_95 percentile_99) thd_cols ∅.

(** [range(2, 51)] *)
Definition harmonic_orders : list Z := Z.of_nat <$> seq 2 49.

(** [calculate_individual_harmonic_percentiles] *)
Definition calculate_individual_harmonic_percentiles (df : frame) (prefix : string)
    (percentile : Z) : gmap string float :=
  let phases := [1; 2; 3] in
  fold_left (λ results h,
    fold_left (λ results p,
      let col := prefix +:+ str_int p +:+ "h" +:+ str_int h in
      match df !! col with
      | None => results
      | Some column =>
          let series := to_numeric_safe column in
          if bool_decide (series = []) then results
          else <[col +:+ "_" +:+ str_int percentile +:+ "th" :=
                   get_percentile_safe series percentile]> results
      end) phases results) harmonic_orders ∅.

(* ===================================================================== *)
(** * 7. IEEE 519 limit tables *)
(* ===================================================================== *)

Record voltage_limits := VoltageLimits { individual : float; thd : float }.

Definition VOLTAGE_LIMITS : gmap string voltage_limits :=
  list_to_map
    [ ("V_le_1kV",        VoltageLimits 5.0 8.0);
      ("V_1kV_to_69kV",   VoltageLimits 3.0 5.0);
      ("V_69kV_to_161kV", VoltageLimits 1.5 2.5);
      ("V_gt_161kV",      VoltageLimits 1.0 1.5) ].

Record current_limits := CurrentLimits {
  h_lt_11 : float; h_11_17 : float; h_17_23 : float;
  h_23_35 : float; h_gt_35 : float; tdd : float }.

(** The table is walked in the order in which it is written. *)
Definition CURRENT_LIMITS_120V_to_69kV : list ((float * float) * current_limits) :=
  [ ((0, 20)%float,     CurrentLimits 4.0 2.0 1.5 0.6 0.3 5.0);
    ((20, 50)%float,    CurrentLimits 7.0 3.5 2.5 1.0 0.5 8.0);
    ((50, 100)%float,   CurrentLimits 10.0 4.5 4.0 1.5 0.7 12.0);
    ((100, 1000)%float, CurrentLimits 12.0 5.5 5.0 2.0 1.0 15.0);
    ((1000%float, inf), CurrentLimits 15.0 7.0 6.0 2.5 1.4 20.0) ].

(** [get_current_limit_for_harmonic] *)
Definition get_current_limit_for_harmonic (order : Z) (limit_row : option current_limits)
  : float :=
  match limit_row with
  | None => inf
  | Some limit_row =>
      if order <? 11 then h_lt_11 limit_row
      else if (11 <=? order) && (order <? 17) then h_11_17 limit_row
      else if (17 <=? order) && (order <? 23) then h_17_23 limit_row
      else if (23 <=? order) && (order <? 35) then h_23_35 limit_row
      else if 35 <=? order then h_gt_35 limit_row
      else inf
  end.

(** Lines 281-284: the voltage limit row of a nominal voltage. *)
Definition voltage_limit_table (nominal_voltage : float) : option voltage_limits :=
  if le nominal_voltage 1000 then VOLTAGE_LIMITS !! "V_le_1kV"
  else if le nominal_voltage 69000 then VOLTAGE_LIMITS !! "V_1kV_to_69kV"
  else if le nominal_voltage 161000 then VOLTAGE_LIMITS !! "V_69kV_to_161kV"
  else VOLTAGE_LIMITS !! "V_gt_161kV".

(** Line 323: [isc / il if il > 0 else 0] *)
Definition isc_il_ratio (isc il : float) : float :=
  if gt il 0 then (isc / il)%float else 0%float.

(** The loop of lines 326-329: the first row whose band holds the ratio. *)
Fixpoint find_limit_row (ratio : float) (table : list ((float * float) * current_limits))
  : option current_limits :=
  match table with
  | [] => None
  | ((min_r, max_r), limits) :: table =>
      if le min_r ratio && lt ratio max_r then Some limits
      else find_limit_row ratio table
  end.

(** Lines 323-329: [c_limit_row]. *)
Definition current_limit_row (nominal_voltage isc il : float) : option current_limits :=
  if le nominal_voltage 69000
  then find_limit_row (isc_il_ratio isc il) CURRENT_LIMITS_120V_to_69kV
  else None.

(* ===================================================================== *)
(** * 8. Derived metrics *)
(* ===================================================================== *)

(** Lines 271-277: total demand distortion. *)
Definition compute_tdd (thdi_for_tdd current_rms_avg il : float) : float :=
  if gt thdi_for_tdd 0 && gt current_rms_avg 0 && gt il 0 then
    let thdi_per_unit := (thdi_for_tdd / 100.0)%float in
    let Ih_rms :=
      (current_rms_avg / PrimFloat.sqrt (1 + thdi_per_unit * thdi_per_unit)
       * thdi_per_unit)%float in
    if gt il 0 then (Ih_rms / il * 100.0)%float else 0%float
  else 0%float.

(* ===================================================================== *)
(** * 9. Failing points and the compliance evaluator *)
(* ===================================================================== *)

Record failing_point := FailingPoint { phases : list string; harmonics : list string }.

(** category, then description, then the grouped identifiers. *)
Abbreviation failing_map := (gmap string (gmap string failing_point)).

(** The truth value of an optional text argument: [None] and [""] are false. *)
Definition truthy (s : option string) : bool :=
  match s with
  | Some s => negb (String.eqb s "")
  | None => false
  end.

Definition append_new (s : option string) (l : list string) : list string :=
  match s with
  | Some x => if truthy s && negb (bool_decide (x ∈ l)) then l ++ [x] else l
  | None => l
  end.

(** [add_failing_point], the table it updates made explicit. *)
Definition add_failing_point (category description : string)
    (phase harmonic : option string) (failing_points : failing_map) : failing_map :=
  let by_description := default ∅ (failing_points !! category) in
  let entry := default (FailingPoint [] []) (by_description !! description) in
  let entry := FailingPoint (append_new phase (phases entry))
                            (append_new harmonic (harmonics entry)) in
  <[category := <[description := entry]> by_description]> failing_points.

(** One verdict with the failing points recorded so far. *)
Record verdict := Verdict { compliance : string; failing : failing_map }.

(** A violated rule: the verdict becomes ["Fail"] and the point is added. *)
Definition violation (category description : string) (phase : option string)
    (st : verdict) : verdict :=
  {| compliance := "Fail";
     failing := add_failing_point category description phase None (failing st) |}.

(** [percentiles.get(key, 0)] *)
Definition get0 (percentiles : gmap string float) (key : string) : float :=
  default 0%float (percentiles !! key).

(** Lines 298-308, the body of the loop for one phase. *)
Definition check_voltage_thd (v_limit_table : voltage_limits)
    (voltage_thd_percentiles : gmap string float) (st : verdict) (phase : Z) : verdict :=
  let thdv_99th_3s := get0 voltage_thd_percentiles ("U" +:+ str_int phase +:+ " THD_99th_3s") in
  let thdv_95th_10min := get0 voltage_thd_percentiles ("U" +:+ str_int phase +:+ " THD_95th_10min") in
  let st :=
    if gt thdv_99th_3s (thd v_limit_table * 1.5)
    then violation "Voltage THD" "99th Percentile (3s) > 1.5x limit"
                   (Some ("U" +:+ str_int phase)) st
    else st in
  if gt thdv_95th_10min (thd v_limit_table)
  then violation "Voltage THD" "95th Percentile (10min) > limit"
                 (Some ("U" +:+ str_int phase)) st
  else st.

(** The shape shared by lines 311-319 and 354-363: for one harmonic order,
    every phase is compared with its limit; each violation sets the verdict
    and notes the phase, and the noted phases are recorded together. *)
Definition check_harmonic (prefix category : string) (limit : float)
    (percentiles : gmap string float) (st : verdict) (h : Z) : verdict :=
  let '(compliance, failed_phases) :=
    fold_left (λ '(compliance, failed_phases) phase,
      let value := get0 percentiles (prefix +:+ str_int phase +:+ "h" +:+ str_int h +:+ "_95th") in
      if gt value limit
      then ("Fail", failed_phases ++ [prefix +:+ str_int phase])
      else (compliance, failed_phases))
      [1; 2; 3] (compliance st, []) in
  {| compliance := compliance;
     failing :=
       match failed_phases with
       | [] => failing st
       | _ :: _ =>
           add_failing_point category ("Harmonic " +:+ str_int h +:+ " > limit")
                             (Some (join ", " failed_phases)) None (failing st)
       end |}.

(** Lines 297-319: the voltage rules. *)
Definition evaluate_voltage (v_limit_table : option voltage_limits)
    (voltage_thd_percentiles : gmap string float) (df_vh_harmonics : frame)
    (st : verdict) : verdict :=
  match v_limit_table with
  | None => st
  | Some v_limit_table =>
      let st := fold_left (check_voltage_thd v_limit_table voltage_thd_percentiles)
                          [1; 2; 3] st in
      let vh_individual_percentiles :=
        calculate_individual_harmonic_percentiles df_vh_harmonics "V" 95 in
      fold_left (check_harmonic "V" "Individual Voltage Harmonics"
                   (individual v_limit_table) vh_individual_percentiles)
                harmonic_orders st
  end.

(** Lines 332-334. *)
Definition check_tdd (c_limit_row : current_limits) (tdd_value : float)
    (st : verdict) : verdict :=
  if gt tdd_value (tdd c_limit_row)
  then violation "Current TDD" "Overall TDD > limit" None st
  else st.

(** Lines 336-351, the body of the loop for one phase. *)
Definition check_current_thd (c_limit_row : current_limits)
    (current_thd_percentiles : gmap string float) (st : verdict) (phase : Z) : verdict :=
  let thdi_99th_3s := get0 current_thd_percentiles ("A" +:+ str_int phase +:+ " THD_99th_3s") in
  let thdi_95th_10min := get0 current_thd_percentiles ("A" +:+ str_int phase +:+ " THD_95th_10min") in
  let thdi_99th_10min := get0 current_thd_percentiles ("A" +:+ str_int phase +:+ " THD_99th_10min") in
  let st :=
    if gt thdi_99th_3s (tdd c_limit_row * 2)
    then violation "Current THD" "99th Percentile (3s) > 1.5x TDD limit"
                   (Some ("A" +:+ str_int phase)) st
    else st in
  let st :=
    if gt thdi_95th_10min (tdd c_limit_row)
    then violation "Current THD" "95th Percentile (10min) > TDD limit"
                   (Some ("A" +:+ str_int phase)) st
    else st in
  if gt thdi_99th_10min (tdd c_limit_row * 1.5)
  then violation "Current THD" "99th Percentile (10min) > 1.5x TDD limit"
                 (Some ("A" +:+ str_int phase)) st
  else st.

(** Lines 331-363: the current rules. *)
Definition evaluate_current (c_limit_row : option current_limits) (tdd_value : float)
    (current_thd_percentiles : gmap string float) (df_ah_harmonics : frame)
    (st : verdict) : verdict :=
  match c_limit_row with
  | None => st
  | Some row =>
      let st := check_tdd row tdd_value st in
      let st := fold_left (check_current_thd row current_thd_percentiles) [1; 2; 3] st in
      let ah_individual_percentiles :=
        calculate_individual_harmonic_percentiles df_ah_harmonics "A" 95 in
      fold_left (λ st h,
                   check_harmonic "A" "Individual Current Harmonics"
                     (get_current_limit_for_harmonic h c_limit_row)
                     ah_individual_percentiles st h)
                harmonic_orders st
  end.

(* ===================================================================== *)
(** * 10. The report *)
(* ===================================================================== *)

(** [generate_recommendations], on the three entries of the summary it reads. *)
Definition generate_recommendations (voltage_compliance current_compliance : string)
    (summary_stats : gmap string float) : list string :=
  let recommendations := [] in
  let recommendations :=
    if String.eqb voltage_compliance "Fail"
    then recommendations ++ ["Investigate voltage sources for harmonic distortion. Consider passive or active harmonic filters."]
    else recommendations in
  let recommendations :=
    if String.eqb current_compliance "Fail"
    then recommendations ++ ["Identify non-linear loads causing current distortion. Consider installing harmonic filters."]
    else recommendations in
  let recommendations :=
    if lt (default 1.0%float (summary_stats !! "power_factor_avg")) 0.95
    then recommendations ++ ["Improve power factor by installing capacitor banks or using active power factor correction (PFC)."]
    else recommendations in
  match recommendations with
  | [] => ["System power quality appears to be in good condition. Continuous monitoring is recommended."]
  | _ :: _ => recommendations
  end.

(** Exceptions, and results of code that may raise. *)
Inductive exn :=
  | ValueError (message : string)
  | AttributeError.

Inductive result (A : Type) :=
  | Ok (a : A)
  | Raise (e : exn).
Arguments Ok {A} a.
Arguments Raise {A} e.

#[global] Instance result_ret : MRet result := λ A a, Ok a.
#[global] Instance result_bind : MBind result := λ A B f r,
  match r with
  | Ok a => f a
  | Raise e => Raise e
  end.

(** Evaluating the entries of a dict display one after the other. *)
Fixpoint for_each {A B} (f : A → result B) (l : list A) : result (list B) :=
  match l with
  | [] => Ok []
  | x :: l => y ← f x; ys ← for_each f l; Ok (y :: ys)
  end.

(** [series_to_json_list]: [clean_df.get(col_name)] is [None] for a column
    that the table lacks; [pd.to_numeric] turns it into a NaN scalar, which
    has no [fillna]. *)
Definition series_to_json_list (clean_df : clean_frame) (col_name : string)
  : result (list float) :=
  match cf_columns clean_df !! col_name with
  | None => Raise AttributeError
  | Some column => Ok (fillna 0 (to_numeric_safe column))
  end.

(** The groups and channels of [trend_data], in the order of lines 387-427. *)
Definition trend_groups : list (string * list string) :=
  [ ("voltage_ll", ["U1 RMS"; "U2 RMS"; "U3 RMS"]);
    ("voltage_ln", ["V1 RMS"; "V2 RMS"; "V3 RMS"]);
    ("current", ["A1 RMS"; "A2 RMS"; "A3 RMS"]);
    ("active_power", ["W Total"]);
    ("reactive_power", ["var Total"]);
    ("apparent_power", ["VA Total"]);
    ("active_energy", ["Wh Total"]);
    ("reactive_energy", ["varh Total"]);
    ("apparent_energy", ["VAh Total"]);
    ("thdv_percent", ["U1 THD"; "U2 THD"; "U3 THD"]);
    ("thdi_percent", ["A1 THD"; "A2 THD"; "A3 THD"]);
    ("power_factor", ["PF1"; "PF2"; "PF3"; "PF Mean"]);
    ("unbalance", ["Vunb"; "Aunb"]) ].

Record trend := Trend {
  timestamps_list : list string;
  trend_series : gmap string (gmap string (list float)) }.

(** Lines 379-428. *)
Definition build_trend_data (clean_df : clean_frame) : result trend :=
  groups ← for_each (λ '(group, channels),
              series ← for_each (λ col_name,
                          values ← series_to_json_list clean_df col_name;
                          Ok (col_name, values)) channels;
              Ok (group, list_to_map series)) trend_groups;
  Ok {| timestamps_list := strftime <$> cf_index clean_df;
        trend_series := list_to_map groups |}.

(** [np.mean] of a list. *)
Definition np_mean (values : list float) : float :=
  (sum values / float_of_nat (length values))%float.

Record bar_chart := BarChart {
  labels : list Z; vh_data : list float; ah_data : list float }.

(** Lines 365-377. *)
Definition build_bar_chart (df_vh_harmonics df_ah_harmonics : frame) : bar_chart :=
  let vh_individual_percentiles :=
    calculate_individual_harmonic_percentiles df_vh_harmonics "V" 95 in
  let ah_individual_percentiles :=
    calculate_individual_harmonic_percentiles df_ah_harmonics "A" 95 in
  let bar (prefix : string) (percentiles : gmap string float) (h : Z) :=
    let h_values :=
      (λ p, get0 percentiles (prefix +:+ str_int p +:+ "h" +:+ str_int h +:+ "_95th"))
        <$> [1; 2; 3] in
    match h_values with
    | [] => 0%float
    | _ :: _ => nan_to_zero (np_mean h_values)
    end in
  {| labels := harmonic_orders;
     vh_data := bar "V" vh_individual_percentiles <$> harmonic_orders;
     ah_data := bar "A" ah_individual_percentiles <$> harmonic_orders |}.

(** Lines 266-269: the average power factor. The two series are divided
    label by label; a missing column stands in as a one-row series that
    shares no label with the table, so every quotient is then missing. *)
Definition power_factor_avg (clean_df : clean_frame) : float :=
  let power_factors :=
    match cf_columns clean_df !! "W Total", cf_columns clean_df !! "VA Total" with
    | Some w, Some va =>
        let active_power := to_numeric_safe w in
        let apparent_power := to_numeric_safe va in
        zip_with (λ a v, (a / (if ne v 0 then v else NaN))%float)
                 active_power apparent_power
    | _, _ => [NaN]
    end in
  nan_to_zero (mean power_factors).

(** Lines 243-269. *)
Definition build_summary_stats (clean_df : clean_frame) (thdv_overall thdi_overall : float)
  : gmap string float :=
  let summary_stats : gmap string float :=
    list_to_map
      [ ("u1_rms_avg", nan_to_zero (mean (channel clean_df "U1 RMS")));
        ("u2_rms_avg", nan_to_zero (mean (channel clean_df "U2 RMS")));
        ("u3_rms_avg", nan_to_zero (mean (channel clean_df "U3 RMS")));
        ("v1_rms_avg", nan_to_zero (mean (channel clean_df "V1 RMS")));
        ("v2_rms_avg", nan_to_zero (mean (channel clean_df "V2 RMS")));
        ("v3_rms_avg", nan_to_zero (mean (channel clean_df "V3 RMS")));
        ("a1_rms_avg", nan_to_zero (mean (channel clean_df "A1 RMS")));
        ("a2_rms_avg", nan_to_zero (mean (channel clean_df "A2 RMS")));
        ("a3_rms_avg", nan_to_zero (mean (channel clean_df "A3 RMS")));
        ("a1_rms_max", nan_to_zero (max (channel clean_df "A1 RMS")));
        ("a2_rms_max", nan_to_zero (max (channel clean_df "A2 RMS")));
        ("a3_rms_max", nan_to_zero (max (channel clean_df "A3 RMS")));
        ("active_power_avg", nan_to_zero (mean (channel clean_df "W Total")));
        ("reactive_power_avg", nan_to_zero (mean (channel clean_df "var Total")));
        ("apparent_power_avg", nan_to_zero (mean (channel clean_df "VA Total")));
        ("active_energy_total", nan_to_zero (get_last_value_safe (channel clean_df "Wh Total")));
        ("reactive_energy_total", nan_to_zero (get_last_value_safe (channel clean_df "varh Total")));
        ("apparent_energy_total", nan_to_zero (get_last_value_safe (channel clean_df "VAh Total")));
        ("thdv_percent_avg", nan_to_zero thdv_overall);
        ("thdi_percent_avg", nan_to_zero thdi_overall) ] in
  <["power_factor_avg" := power_factor_avg clean_df]> summary_stats.

Record report := Report {
  thdv_percent : float;
  tdd_percent : float;
  summary_stats : gmap string float;
  voltage_compliance : string;
  current_compliance : string;
  failing_points : failing_map;
  bar_chart_data : bar_chart;
  trend_data : trend;
  recommendations : list string }.

(** [analyze_full_data] *)
Definition analyze_full_data (dfs : gmap string frame) (nominal_voltage isc il : float)
  : result report :=
  match dfs !! "Trend", dfs !! "Vh Harmonic %", dfs !! "Ah Harmonic %" with
  | Some df_trend, Some df_vh_harmonics, Some df_ah_harmonics =>
      let clean_df := clean_trend df_trend in
      let voltage_thd_percentiles := calculate_thd_percentiles clean_df "U" true true in
      let current_thd_percentiles := calculate_thd_percentiles clean_df "A" true true in
      let thdv_overall := get0 voltage_thd_percentiles "U1 THD_95th_10min" in
      let thdi_overall := get0 current_thd_percentiles "A1 THD_95th_10min" in
      let summary_stats := build_summary_stats clean_df thdv_overall thdi_overall in
      let thdi_for_tdd := get0 current_thd_percentiles "A1 THD_95th_10min" in
      let current_rms_avg := get0 summary_stats "a1_rms_avg" in
      let tdd := compute_tdd thdi_for_tdd current_rms_avg il in
      let st := {| compliance := "Pass"; failing := ∅ |} in
      let st := evaluate_voltage (voltage_limit_table nominal_voltage)
                  voltage_thd_percentiles df_vh_harmonics st in
      let voltage_compliance := compliance st in
      let st := {| compliance := "Pass"; failing := failing st |} in
      let st := evaluate_current (current_limit_row nominal_voltage isc il) tdd
                  current_thd_percentiles df_ah_harmonics st in
      let current_compliance := compliance st in
      let failing_points := failing st in
      let bar_chart_data := build_bar_chart df_vh_harmonics df_ah_harmonics in
      trend_data ← build_trend_data clean_df;
      Ok {| thdv_percent := nan_to_zero thdv_overall;
            tdd_percent := nan_to_zero tdd;
            summary_stats := summary_stats;
            voltage_compliance := voltage_compliance;
            current_compliance := current_compliance;
            failing_points := failing_points;
            bar_chart_data := bar_chart_data;
            trend_data := trend_data;
            recommendations :=
              generate_recommendations voltage_compliance current_compliance summary_stats |}
  | _, _, _ => Raise (ValueError "Missing required worksheets.")
  end.

(* ===================================================================== *)
(** * 11. Notions used in the statements *)
(* ===================================================================== *)

(** A ratio lies in a band when [min_r <= ratio < max_r]. *)
Definition in_band (ratio : float) (band : float * float) : bool :=
  le (fst band) ratio && lt ratio (snd band).


(** The rule evaluations of one run, in the order in which the program
    performs them: the loops of [evaluate_voltage] and [evaluate_current]
    unrolled into lists of checks. *)
Definition run (checks : list (verdict → verdict)) (st : verdict) : verdict :=
  fold_left (λ st check, check st) checks st.

Definition voltage_checks (v_limit_table : option voltage_limits)
    (voltage_thd_percentiles : gmap string float) (df_vh_harmonics : frame)
  : list (verdict → verdict) :=
  match v_limit_table with
  | None => []
  | Some v_limit_table =>
      ((λ phase st, check_voltage_thd v_limit_table voltage_thd_percentiles st phase)
         <$> [1; 2; 3])
      ++ ((λ h st, check_harmonic "V" "Individual Voltage Harmonics"
                     (individual v_limit_table)
                     (calculate_individual_harmonic_percentiles df_vh_harmonics "V" 95)
                     st h) <$> harmonic_orders)
  end.

Definition current_checks (c_limit_row : option current_limits) (tdd_value : float)
    (current_thd_percentiles : gmap string float) (df_ah_harmonics : frame)
  : list (verdict → verdict) :=
  match c_limit_row with
  | None => []
  | Some row =>
      [check_tdd row tdd_value]
      ++ ((λ phase st, check_current_thd row current_thd_percentiles st phase)
            <$> [1; 2; 3])
      ++ ((λ h st, check_harmonic "A" "Individual Current Harmonics"
                     (get_current_limit_for_harmonic h c_limit_row)
                     (calculate_individual_harmonic_percentiles df_ah_harmonics "A" 95)
                     st h) <$> harmonic_orders)
  end.

(** The run of the checks up to the [n]-th, from a verdict of ["Pass"]. *)
Definition run_upto (checks : list (verdict → verdict)) (recorded : failing_map)
    (n : nat) : verdict :=
  run (take n checks) (Verdict "Pass" recorded).

(** What C5 says of one run of [analyze_full_data] that returned [r]. *)
Definition verdict_trace (dfs : gmap string frame) (nominal_voltage isc il : float)
    (r : report) : Prop :=
  ∃ df_trend df_vh df_ah tdd_value,
    dfs !! "Trend" = Some df_trend
    ∧ dfs !! "Vh Harmonic %" = Some df_vh
    ∧ dfs !! "Ah Harmonic %" = Some df_ah
    ∧ let clean_df := clean_trend df_trend in
      let vchecks :=
        voltage_checks (voltage_limit_table nominal_voltage)
          (calculate_thd_percentiles clean_df "U" true true) df_vh in
      let cchecks :=
        current_checks (current_limit_row nominal_voltage isc il) tdd_value
          (calculate_thd_percentiles clean_df "A" true true) df_ah in
      let vrun := run_upto vchecks ∅ in
      let crun := run_upto cchecks (failing (vrun (length vchecks))) in
      (* the verdicts of the report are those of the two complete runs *)
      voltage_compliance r = compliance (vrun (length vchecks))
      ∧ current_compliance r = compliance (crun (length cchecks))
      ∧ failing_points r = failing (crun (length cchecks))
      (* each starts as Pass *)
      ∧ compliance (vrun 0%nat) = "Pass"
      ∧ compliance (crun 0%nat) = "Pass"
      (* once Fail, Fail after every later check *)
      ∧ (∀ n m, (n ≤ m)%nat → compliance (vrun n) = "Fail" → compliance (vrun m) = "Fail")
      ∧ (∀ n m, (n ≤ m)%nat → compliance (crun n) = "Fail" → compliance (crun m) = "Fail")
      (* no check looks at the verdict: what it records and whether it
         fails do not depend on the verdict reached before it *)
      ∧ (∀ check, check ∈ vchecks ++ cchecks →
           ∀ st c, failing (check {| compliance := c; failing := failing st |})
                   = failing (check st)
                   ∧ (compliance (check {| compliance := "Pass"; failing := failing st |}) = "Fail"
                      → compliance (check st) = "Fail")).

(** The THD columns of the second and third phase. *)
Definition other_phase_thd_columns : list string :=
  ["U2 THD"; "U3 THD"; "A2 THD"; "A3 THD"].

(** Two trend tables that differ in those four columns only. *)
Definition differ_in_other_phase_thd (trend1 trend2 : frame) : Prop :=
  ∀ col, col ∉ other_phase_thd_columns → trend1 !! col = trend2 !! col.


(** The recombined date of a day/month/year triple. *)
Definition recombined (day month year : Z) : string :=
  fmt_02d day +:+ "/" +:+ fmt_02d month +:+ "/" +:+ str_int year.

(* ===================================================================== *)
(** * 12. Worked inputs *)
(* ===================================================================== *)

(** A text cell (it has no number) and a number cell with its text. *)
Definition text_cell (s : string) : cell := Cell s NaN.
Definition number_cell (shown : string) (x : float) : cell := Cell shown x.

(** Every channel that [trend_data] charts. *)
Definition charted_channels : list string := mjoin (snd <$> trend_groups).

(** Three samples five minutes apart, in two 10-minute buckets; the dates
    carry the Thai year 2566. *)
Definition sample_dates : list cell :=
  text_cell <$> ["05/03/2566"; "05/03/2566"; "05/03/2566"].
Definition sample_times : list cell :=
  text_cell <$> ["10:00:00"; "10:05:00"; "10:10:00"].

Definition constant (shown : string) (x : float) : list cell :=
  replicate 3 (number_cell shown x).

(** The trend table of the end-to-end scenario as the design document words
    it: U1 RMS = 230 V and THD = 0 % for all phases, and nothing else. *)
Definition bare_trend : frame :=
  list_to_map
    [ ("Date", sample_dates); ("Time", sample_times);
      ("U1 RMS", constant "230.0" 230);
      ("U1 THD", constant "0.0" 0); ("U2 THD", constant "0.0" 0);
      ("U3 THD", constant "0.0" 0); ("A1 THD", constant "0.0" 0);
      ("A2 THD", constant "0.0" 0); ("A3 THD", constant "0.0" 0) ].

(** The same scenario on a table that carries every charted channel: zero
    everywhere but U1 RMS = 230 V and the two power channels. *)
Definition full_trend (w_total va_total : list cell) : frame :=
  <["U1 RMS" := constant "230.0" 230]>
    (<["W Total" := w_total]>
       (<["VA Total" := va_total]>
          (list_to_map
             (("Date", sample_dates) :: ("Time", sample_times)
              :: ((λ channel, (channel, constant "0.0" 0)) <$> charted_channels))))).

Definition no_harmonics : frame := ∅.

Definition workbook (trend vh ah : frame) : gmap string frame :=
  list_to_map [("Trend", trend); ("Vh Harmonic %", vh); ("Ah Harmonic %", ah)].

(** The scenario with no power flowing, and with unity power factor. *)
Definition idle_workbook : gmap string frame :=
  workbook (full_trend (constant "0.0" 0) (constant "0.0" 0)) no_harmonics no_harmonics.

Definition healthy_workbook : gmap string frame :=
  workbook (full_trend (constant "1000.0" 1000) (constant "1000.0" 1000))
           no_harmonics no_harmonics.

(** Voltage harmonics of order 3 and 5 at 10 % on phase 1: both exceed the
    5 % individual limit of the band up to 1 kV. *)
Definition distorted_workbook : gmap string frame :=
  workbook (full_trend (constant "1000.0" 1000) (constant "1000.0" 1000))
           (list_to_map [("V1h3", constant "10.0" 10); ("V1h5", constant "10.0" 10)])
           no_harmonics.

(** The recommendations. *)
Definition healthy_message : string :=
  "System power quality appears to be in good condition. Continuous monitoring is recommended.".
Definition power_factor_advice : string :=
  "Improve power factor by installing capacitor banks or using active power factor correction (PFC).".

(** Current harmonics of order 5 at 50 % on phase 1, far above every row of
    the current-limit table. *)
Definition current_distorted_workbook : gmap string frame :=
  workbook (full_trend (constant "1000.0" 1000) (constant "1000.0" 1000))
           no_harmonics
           (list_to_map [("A1h5", constant "50.0" 50)]).

(** The healthy scenario with 50 % voltage THD on the second phase. *)
Definition phase_2_distorted_trend : frame :=
  <["U2 THD" := constant "50.0" 50]>
    (full_trend (constant "1000.0" 1000) (constant "1000.0" 1000)).

(* ===================================================================== *)
(** * 13. Notions used in the proofs *)
(* ===================================================================== *)

(** The comparison of two binary64 values, as the kernel specifies it. *)
Definition fcompare (x y : float) : option comparison :=
  SFcompare (Prim2SF x) (Prim2SF y).

(** The expression of lines 271-277 read over the real numbers, and the
    formula of the design document, for comparison. *)
Module OverReals.
Import Reals Lra.

#[local] Instance Rgt_decision (x y : R) : Decision (x > y)%R := Rgt_dec x y.

Definition compute_tdd_R (thdi_for_tdd current_rms_avg il : R) : R :=
  if bool_decide (thdi_for_tdd > 0)%R && bool_decide (current_rms_avg > 0)%R
     && bool_decide (il > 0)%R
  then
    let thdi_per_unit := (thdi_for_tdd / 100)%R in
    let Ih_rms :=
      (current_rms_avg / sqrt (1 + thdi_per_unit * thdi_per_unit) * thdi_per_unit)%R in
    if bool_decide (il > 0)%R then (Ih_rms / il * 100)%R else 0%R
  else 0%R.

Definition stated_tdd_R (thdi avg_current il : R) : R :=
  let f := (thdi / 100)%R in
  (avg_current * (f / sqrt (1 + f²)) / il * 100)%R.

End OverReals.

(** A check is a rule step when it sets the verdict to ["Fail"] or leaves
    it alone, and records its failing points, both without looking at the
    verdict it receives. *)
Definition rule_step (check : verdict → verdict) : Prop :=
  ∃ (violated : bool) (record : failing_map → failing_map),
    ∀ st, check st = {| compliance := if violated then "Fail" else compliance st;
                        failing := record (failing st) |}.

(** The phases that fail the limit of one harmonic order, as the inner
    loop of [check_harmonic] collects them. *)
Definition failed_phases (prefix : string) (limit : float)
    (percentiles : gmap string float) (h : Z) : list string :=
  (λ phase, prefix +:+ str_int phase)
    <$> List.filter
          (λ phase, gt (get0 percentiles
                          (prefix +:+ str_int phase +:+ "h" +:+ str_int h +:+ "_95th"))
                       limit)
          [1; 2; 3].

#[global] Instance failing_point_eq_dec : EqDecision failing_point.
Proof. solve_decision. Defined.

(** The grouped identifiers under one (category, description) pair. *)
Definition entry (failing_points : failing_map) (category description : string)
  : option failing_point :=
  failing_points !! category ≫= λ by_description, by_description !! description.

(** The collections reached from [start] by adding failing points of the
    categories [cats], none with a harmonic identifier. *)
Inductive recorded_from (cats : list string) (start : failing_map)
  : failing_map → Prop :=
  | recorded_none : recorded_from cats start start
  | recorded_add category description phase fps :
      category ∈ cats → recorded_from cats start fps →
      recorded_from cats start (add_failing_point category description phase None fps).

Definition records_in (cats : list string) (check : verdict → verdict) : Prop :=
  ∀ st, recorded_from cats (failing st) (failing (check st)).

(** Every entry lists its phases once and has no harmonic identifier. *)
Definition grouped (failing_points : failing_map) : Prop :=
  ∀ category description e,
    entry failing_points category description = Some e →
    NoDup (phases e) ∧ harmonics e = [].

Definition voltage_categories : list string :=
  ["Voltage THD"; "Individual Voltage Harmonics"].

Definition current_categories : list string :=
  ["Current TDD"; "Current THD"; "Individual Current Harmonics"].

(** The description of an individual-harmonic failing point names its order. *)
Definition harmonic_description (h : Z) : string :=
  "Harmonic " +:+ str_int h +:+ " > limit".

(** The sign of a rounded value is the sign that was asked for. *)
Definition signed_as (sx : bool) (f : spec_float) : Prop :=
  match f with
  | S754_zero s | S754_infinity s | S754_finite s _ _ => s = sx
  | S754_nan => True
  end.


(** One field of a report that was returned, and whether one was. *)
Definition report_field {A} (f : report → A) (x : result report) : option A :=
  match x with
  | Ok r => Some (f r)
  | Raise _ => None
  end.

Definition returns (x : result report) : bool :=
  match x with
  | Ok _ => true
  | Raise _ => false
  end.



(* ===================================================================== *)
(** * 14. The HTTP endpoint ([backend/main.py]) *)
(* ===================================================================== *)

(** [s.endswith(suffix)] *)
Definition endswith (s suffix : string) : bool :=
  let l := chars s in
  let k := chars suffix in
  (length k <=? length l)%nat && bool_decide (drop (length l - length k) l = k).

(** What can be raised while a request is handled: an exception of the
    engine's kinds, the framework's [HTTPException], which is an
    [Exception] and not a [ValueError], or any other exception (say the
    reader's, for a file that is no workbook). *)
Inductive raised :=
  | Engine (e : exn)
  | HTTPException (status_code : Z) (detail : string)
  | OtherException (text : string).

(** The detail of an error answer: a text, or the text
    [f"Internal Server Error: {str(e)}"] of a caught exception [e]. *)
Inductive error_detail :=
  | Detail (text : string)
  | InternalServerError (e : raised).

(** The answer to a request: the file name with the analysis results, or
    an error status with its detail. *)
Inductive response :=
  | Answer (fileName : string) (analysis_results : report)
  | HTTPError (status_code : Z) (detail : error_detail).

(** The worksheets that are read, each with its header row, in the order
    of the dict display. *)
Definition sheet_header_map : list (string * Z) :=
  [("Trend", 6); ("Vh Harmonic %", 0); ("Ah Harmonic %", 0)].

(** [range(lo, hi)] *)
Definition range (lo hi : Z) : list Z := (λ i, lo + Z.of_nat i) <$> seq 0 (Z.to_nat (hi - lo)).

(** The [skiprows] argument: the rows between the header and row 9 for the
    trend sheet, nothing for the others. *)
Definition skipped_rows (sheet_name : string) (header_row : Z) : option (list Z) :=
  if String.eqb sheet_name "Trend" then Some (range (header_row + 1) 9) else None.

Section Endpoint.

(** The bytes of the uploaded file, and [pd.read_excel] on them for one
    worksheet name, header row and list of skipped rows: the table, or
    what it raises ([ValueError] for a worksheet that the file lacks). *)
Variable contents : Type.
Variable read_excel : contents → string → Z → option (list Z) → raised + frame.

(** The loop over [sheet_header_map]: a [ValueError] of the reader is
    turned into an [HTTPException] of status 400, anything else it raises
    passes. *)
Definition read_sheets (file_contents : contents) : raised + gmap string frame :=
  foldl (λ acc '(sheet_name, header_row),
    match acc with
    | inl e => inl e
    | inr all_sheets =>
        match read_excel file_contents sheet_name header_row
                (skipped_rows sheet_name header_row) with
        | inr df => inr (<[sheet_name := df]> all_sheets)
        | inl (Engine (ValueError _)) =>
            inl (HTTPException 400
                   ("Required worksheet '" +:+ sheet_name +:+ "' not found."))
        | inl e => inl e
        end
    end) (inr ∅) sheet_header_map.

(** [analyze_power_data]: the file-type guard, then the [try] block with
    its two handlers. The analysis runs on a worker thread and is awaited,
    so what it raises is raised here. *)
Definition analyze_power_data (filename : string) (file_contents : contents)
    (nominal_voltage isc il : float) : response :=
  if negb (endswith filename ".xlsx")
  then HTTPError 400 (Detail "Invalid file type. Please upload an .xlsx file.")
  else
    let attempt : raised + report :=
      match read_sheets file_contents with
      | inl e => inl e
      | inr all_sheets =>
          match analyze_full_data all_sheets nominal_voltage isc il with
          | Ok analysis_results => inr analysis_results
          | Raise e => inl (Engine e)
          end
      end in
    match attempt with
    | inr analysis_results => Answer filename analysis_results
    | inl (Engine (ValueError message)) => HTTPError 400 (Detail message)
    | inl e => HTTPError 500 (InternalServerError e)
    end.

End Endpoint.

(** A reader for worked inputs: the file is a workbook given as a table of
    worksheets, and a worksheet that it lacks raises [ValueError]. *)
Definition workbook_reader (dfs : gmap string frame)
  : unit → string → Z → option (list Z) → raised + frame :=
  λ _ sheet_name _ _,
    match dfs !! sheet_name with
    | Some df => inr df
    | None => inl (Engine (ValueError ("Worksheet named '" +:+ sheet_name +:+ "' not found")))
    end.

(** A workbook with a trend sheet only. *)
Definition trend_only_workbook : gmap string frame := {[ "Trend" := bare_trend ]}.

(* ===================================================================== *)
(** * 15. Further notions used in the statements *)
(* ===================================================================== *)

(** The row of the table that becomes the [k]-th selected row. *)
Fixpoint nth_kept (mask : list bool) (k : nat) : option nat :=
  match mask with
  | [] => None
  | true :: mask =>
      match k with
      | O => Some O
      | S k => S <$> nth_kept mask k
      end
  | false :: mask => S <$> nth_kept mask k
  end.

(** A verdict agrees with the failing points of the categories [cats]: it
    is ["Fail"] with a point recorded under one of them, or ["Pass"] with
    none recorded under any. *)
Definition consistent (cats : list string) (st : verdict) : Prop :=
  (compliance st = "Fail" ∧ ∃ cat, cat ∈ cats ∧ is_Some (failing st !! cat))
  ∨ (compliance st = "Pass" ∧ ∀ cat, cat ∈ cats → failing st !! cat = None).

Definition keeps_consistent (cats : list string) (check : verdict → verdict) : Prop :=
  ∀ st, consistent cats st → consistent cats (check st).

(** The two other advices of [generate_recommendations]. *)
Definition voltage_advice : string :=
  "Investigate voltage sources for harmonic distortion. Consider passive or active harmonic filters.".
Definition current_advice : string :=
  "Identify non-linear loads causing current distortion. Consider installing harmonic filters.".

(** The keys of [summary_stats]. *)
Definition summary_keys : list string :=
  [ "power_factor_avg";
    "u1_rms_avg"; "u2_rms_avg"; "u3_rms_avg"; "v1_rms_avg"; "v2_rms_avg"; "v3_rms_avg";
    "a1_rms_avg"; "a2_rms_avg"; "a3_rms_avg"; "a1_rms_max"; "a2_rms_max"; "a3_rms_max";
    "active_power_avg"; "reactive_power_avg"; "apparent_power_avg";
    "active_energy_total"; "reactive_energy_total"; "apparent_energy_total";
    "thdv_percent_avg"; "thdi_percent_avg" ].

(** The phases, in the order 1, 2, 3, whose percentile under the key of
    the phase exceeds a limit, named with the prefix. *)
Definition exceeding (prefix key_suffix : string) (limit : float)
    (percentiles : gmap string float) : list string :=
  (λ p, prefix +:+ str_int p)
    <$> List.filter (λ p, gt (get0 percentiles (prefix +:+ str_int p +:+ key_suffix)) limit)
                    [1; 2; 3].

(** The entry that lists some phases and no harmonic: none when there is
    no phase to list. *)
Definition listed (l : list string) : option failing_point :=
  match l with
  | [] => None
  | _ :: _ => Some (FailingPoint l [])
  end.

(** What recording a phase does to the entry it is recorded under. *)
Definition with_phase (x : string) (e : option failing_point) : option failing_point :=
  let old := default (FailingPoint [] []) e in
  Some (FailingPoint (append_new (Some x) (phases old)) (harmonics old)).

(** The healthy scenario with a voltage THD of 9 % on phase 1, above the
    8 % limit of the band up to 1 kV. *)
Definition thd_distorted_workbook : gmap string frame :=
  workbook (<["U1 THD" := constant "9.0" 9]>
              (full_trend (constant "1000.0" 1000) (constant "1000.0" 1000)))
           no_harmonics no_harmonics.

(** A check records category by category: what it leaves under a category
    depends on what was there under that category only. *)
Definition by_category (check : verdict → verdict) : Prop :=
  ∀ st1 st2 cat,
    failing st1 !! cat = failing st2 !! cat →
    failing (check st1) !! cat = failing (check st2) !! cat.

(* ===================================================================== *)
(** * 16. Text facts *)
(* ===================================================================== *)

Lemma chars_app s t : chars (s +:+ t) = chars s ++ chars t.
Proof. unfold chars. induction s as [|a s IH]; simpl; [reflexivity|]. f_equal. exact IH. Qed.

Lemma chars_inj s t : chars s = chars t → s = t.
Proof.
  intros H. rewrite <- (string_of_list_ascii_of_string s),
                    <- (string_of_list_ascii_of_string t).
  unfold chars in H. rewrite H. reflexivity.
Qed.



Lemma string_app_inv_tail s1 s2 t : s1 +:+ t = s2 +:+ t → s1 = s2.
Proof.
  intros H. apply chars_inj. apply (f_equal chars) in H.
  rewrite !chars_app in H. eapply app_inv_tail, H.
Qed.

(* ===================================================================== *)
(** * 17. Binary64 order facts *)
(* ===================================================================== *)

Section FloatOrder.

Lemma SFcompare_swap (x y : spec_float) :
  SFcompare y x = CompOpp <$> SFcompare x y.
Proof.
  destruct x as [sx|sx| |sx mx ex], y as [sy|sy| |sy my ey]; simpl;
    try (destruct sx); try (destruct sy); try reflexivity;
    rewrite (Z.compare_antisym ex ey); destruct (ex ?= ey); simpl;
    try reflexivity;
    change (Pcompare my mx Eq) with (my ?= mx)%positive;
    change (Pcompare mx my Eq) with (mx ?= my)%positive;
    rewrite (Pos.compare_antisym mx my); destruct (mx ?= my)%positive;
    reflexivity.
Qed.

Lemma SFcompare_Lt_trans (x y z : spec_float) :
  SFcompare x y = Some Lt → SFcompare y z = Some Lt → SFcompare x z = Some Lt.
Proof.
  destruct x as [sx|sx| |sx mx ex], y as [sy|sy| |sy my ey],
           z as [sz|sz| |sz mz ez]; simpl;
    try (destruct sx); try (destruct sy); try (destruct sz);
    try discriminate; try reflexivity;
    change (Pcompare mx my Eq) with (mx ?= my)%positive;
    change (Pcompare my mz Eq) with (my ?= mz)%positive;
    change (Pcompare mx mz Eq) with (mx ?= mz)%positive;
    destruct (Z.compare_spec ex ey), (Z.compare_spec ey ez),
             (Z.compare_spec ex ez);
    destruct (Pos.compare_spec mx my), (Pos.compare_spec my mz),
             (Pos.compare_spec mx mz);
    simpl; intros; try discriminate; try reflexivity; lia.
Qed.

Lemma SFcompare_Eq_Lt (x y z : spec_float) :
  SFcompare x y = Some Eq → SFcompare y z = Some Lt → SFcompare x z = Some Lt.
Proof.
  destruct x as [sx|sx| |sx mx ex], y as [sy|sy| |sy my ey],
           z as [sz|sz| |sz mz ez]; simpl;
    try (destruct sx); try (destruct sy); try (destruct sz);
    try discriminate; try reflexivity;
    change (Pcompare mx my Eq) with (mx ?= my)%positive;
    change (Pcompare my mz Eq) with (my ?= mz)%positive;
    change (Pcompare mx mz Eq) with (mx ?= mz)%positive;
    destruct (Z.compare_spec ex ey), (Z.compare_spec ey ez),
             (Z.compare_spec ex ez);
    destruct (Pos.compare_spec mx my), (Pos.compare_spec my mz),
             (Pos.compare_spec mx mz);
    simpl; intros; try discriminate; try reflexivity; lia.
Qed.

Lemma SFcompare_Lt_Eq (x y z : spec_float) :
  SFcompare x y = Some Lt → SFcompare y z = Some Eq → SFcompare x z = Some Lt.
Proof.
  destruct x as [sx|sx| |sx mx ex], y as [sy|sy| |sy my ey],
           z as [sz|sz| |sz mz ez]; simpl;
    try (destruct sx); try (destruct sy); try (destruct sz);
    try discriminate; try reflexivity;
    change (Pcompare mx my Eq) with (mx ?= my)%positive;
    change (Pcompare my mz Eq) with (my ?= mz)%positive;
    change (Pcompare mx mz Eq) with (mx ?= mz)%positive;
    destruct (Z.compare_spec ex ey), (Z.compare_spec ey ez),
             (Z.compare_spec ex ez);
    destruct (Pos.compare_spec mx my), (Pos.compare_spec my mz),
             (Pos.compare_spec mx mz);
    simpl; intros; try discriminate; try reflexivity; lia.
Qed.

Lemma lt_fcompare x y : lt x y = true ↔ fcompare x y = Some Lt.
Proof.
  unfold lt, fcompare. rewrite FloatAxioms.ltb_spec. unfold SFltb.
  destruct (SFcompare _ _) as [[]|]; split; congruence.
Qed.

Lemma le_fcompare x y :
  le x y = true ↔ fcompare x y = Some Lt ∨ fcompare x y = Some Eq.
Proof.
  unfold le, fcompare. rewrite FloatAxioms.leb_spec. unfold SFleb.
  destruct (SFcompare _ _) as [[]|]; split; intros; try tauto; try congruence.
  all: destruct H; congruence.
Qed.

Lemma gt_fcompare x y : gt x y = true ↔ fcompare y x = Some Lt.
Proof. apply lt_fcompare. Qed.

Lemma fcompare_swap x y : fcompare y x = CompOpp <$> fcompare x y.
Proof. apply SFcompare_swap. Qed.

Lemma isnan_fcompare x : isnan x = true ↔ Prim2SF x = S754_nan.
Proof.
  unfold isnan. rewrite FloatAxioms.eqb_spec. unfold SFeqb.
  destruct (Prim2SF x) as [s|s| |s m e]; simpl.
  - split; [discriminate | discriminate].
  - destruct s; split; discriminate.
  - tauto.
  - destruct s; rewrite Z.compare_refl;
      change (Pcompare m m Eq) with (m ?= m)%positive;
      rewrite Pos.compare_refl; split; discriminate.
Qed.

Lemma fcompare_total x y :
  isnan x = false → isnan y = false → is_Some (fcompare x y).
Proof.
  intros Hx Hy. unfold fcompare.
  destruct (Prim2SF x) as [sx|sx| |sx mx ex] eqn:Ex.
  3: { apply isnan_fcompare in Ex. congruence. }
  all: destruct (Prim2SF y) as [sy|sy| |sy my ey] eqn:Ey;
    try (apply isnan_fcompare in Ey; congruence); simpl; eauto.
Qed.

(** [x <= y] excludes [y < x]. *)
Lemma le_not_gt x y : le x y = true → gt x y = false.
Proof.
  intros H. apply le_fcompare in H.
  destruct (gt x y) eqn:E; [|done].
  apply gt_fcompare in E. rewrite fcompare_swap in E.
  destruct H as [H|H]; rewrite H in E; discriminate.
Qed.

(** [y < x] excludes [x <= y]. *)
Lemma gt_not_le x y : gt x y = true → le x y = false.
Proof.
  intros H. destruct (le x y) eqn:E; [|done].
  apply le_not_gt in E. congruence.
Qed.


(** [x < a] and [a <= b] give [x < b]. *)
Lemma lt_le_trans x a b : lt x a = true → le a b = true → lt x b = true.
Proof.
  rewrite !lt_fcompare, le_fcompare. unfold fcompare.
  intros H [H'|H']; eauto using SFcompare_Lt_trans, SFcompare_Lt_Eq.
Qed.

Lemma le_lt_trans x a b : le x a = true → lt a b = true → lt x b = true.
Proof.
  rewrite !lt_fcompare, le_fcompare. unfold fcompare.
  intros [H|H] H'; eauto using SFcompare_Lt_trans, SFcompare_Eq_Lt.
Qed.

End FloatOrder.

(* ===================================================================== *)
(** * 18. Total demand distortion *)
(* ===================================================================== *)

Section RealNumberReading.
Import Reals Lra OverReals.

Lemma compute_tdd_R_zero (thdi avg il : R) :
  (thdi <= 0 ∨ avg <= 0 ∨ il <= 0)%R → compute_tdd_R thdi avg il = 0%R.
Proof.
  intros H. unfold compute_tdd_R.
  repeat case_bool_decide; simpl; try reflexivity; lra.
Qed.

Lemma compute_tdd_R_stated (thdi avg il : R) :
  (0 < thdi)%R → (0 < avg)%R → (0 < il)%R →
  compute_tdd_R thdi avg il = stated_tdd_R thdi avg il.
Proof.
  intros H1 H2 H3. unfold compute_tdd_R, stated_tdd_R.
  repeat case_bool_decide; simpl; try lra.
  unfold Rsqr.
  assert (0 < sqrt (1 + thdi / 100 * (thdi / 100)))%R.
  { apply sqrt_lt_R0. nra. }
  field. split; lra.
Qed.

End RealNumberReading.

Section TotalDemandDistortion.

Variables thdi avg il : float.



End TotalDemandDistortion.



(* ===================================================================== *)
(** * 19. The limit table resolver *)
(* ===================================================================== *)

Lemma find_limit_row_Some ratio table row :
  find_limit_row ratio table = Some row →
  ∃ band, (band, row) ∈ table ∧ in_band ratio band = true.
Proof.
  induction table as [|[[min_r max_r] limits] table IH]; simpl; [discriminate|].
  destruct (le min_r ratio && lt ratio max_r) eqn:E.
  - intros [= <-]. exists (min_r, max_r). split; [left | exact E].
  - intros H. destruct (IH H) as (band & Hin & Hb).
    exists band. split; [right|]; assumption.
Qed.

(** Two bounds [a <= b] leave no ratio with [b <= ratio < a]. *)
Lemma bands_apart a b ratio :
  le a b = true → le b ratio = true → lt ratio a = true → False.
Proof.
  intros Hab Hb Ha.
  pose proof (lt_le_trans _ _ _ Ha Hab) as H.
  apply le_not_gt in Hb. unfold gt in Hb. unfold lt in H. congruence.
Qed.

Ltac band_cases H :=
  repeat (apply elem_of_cons in H as [H|H]; [injection H as -> ->|]);
  [..|apply elem_of_nil in H; destruct H].





(* ===================================================================== *)
(** * 20. The compliance evaluator *)
(* ===================================================================== *)

Lemma rule_step_id : rule_step (λ st, st).
Proof. exists false, (λ fps, fps). intros []. reflexivity. Qed.

Lemma rule_step_violation category description phase :
  rule_step (violation category description phase).
Proof.
  exists true, (add_failing_point category description phase None).
  intros st. reflexivity.
Qed.

Lemma rule_step_compose f g :
  rule_step f → rule_step g → rule_step (λ st, g (f st)).
Proof.
  intros (v1 & r1 & H1) (v2 & r2 & H2).
  exists (v1 || v2), (λ fps, r2 (r1 fps)). intros st.
  rewrite H1, H2. simpl. destruct v1, v2; reflexivity.
Qed.

Lemma rule_step_if (b : bool) f g :
  rule_step f → rule_step g → rule_step (λ st, if b then f st else g st).
Proof. destruct b; auto. Qed.

Lemma rule_step_check_voltage_thd limits percentiles phase :
  rule_step (λ st, check_voltage_thd limits percentiles st phase).
Proof.
  unfold check_voltage_thd.
  apply (rule_step_compose
           (λ st, if gt _ _ then violation _ _ _ st else st)
           (λ st, if gt _ _ then violation _ _ _ st else st));
    apply rule_step_if; auto using rule_step_id, rule_step_violation.
Qed.

Lemma rule_step_check_tdd row tdd_value : rule_step (check_tdd row tdd_value).
Proof.
  unfold check_tdd. apply rule_step_if; auto using rule_step_id, rule_step_violation.
Qed.

Lemma rule_step_check_current_thd row percentiles phase :
  rule_step (λ st, check_current_thd row percentiles st phase).
Proof.
  unfold check_current_thd.
  apply (rule_step_compose
           (λ st, let st := if gt _ _ then violation _ _ _ st else st in
                  if gt _ _ then violation _ _ _ st else st)
           (λ st, if gt _ _ then violation _ _ _ st else st)).
  - apply (rule_step_compose
             (λ st, if gt _ _ then violation _ _ _ st else st)
             (λ st, if gt _ _ then violation _ _ _ st else st));
      apply rule_step_if; auto using rule_step_id, rule_step_violation.
  - apply rule_step_if; auto using rule_step_id, rule_step_violation.
Qed.

Lemma check_harmonic_spec prefix category limit percentiles st h :
  check_harmonic prefix category limit percentiles st h =
    let failed := failed_phases prefix limit percentiles h in
    match failed with
    | [] => st
    | _ :: _ =>
        {| compliance := "Fail";
           failing := add_failing_point category
                        ("Harmonic " +:+ str_int h +:+ " > limit")
                        (Some (join ", " failed)) None (failing st) |}
    end.
Proof.
  unfold check_harmonic, failed_phases. cbn [fold_left List.filter].
  repeat match goal with
         | |- context [gt ?a ?b] => destruct (gt a b)
         end; try reflexivity.
  destruct st; reflexivity.
Qed.

Lemma rule_step_check_harmonic prefix category limit percentiles h :
  rule_step (λ st, check_harmonic prefix category limit percentiles st h).
Proof.
  destruct (failed_phases prefix limit percentiles h) as [|x l] eqn:E.
  - exists false, (λ fps, fps). intros st.
    rewrite check_harmonic_spec, E. destruct st; reflexivity.
  - exists true, (add_failing_point category ("Harmonic " +:+ str_int h +:+ " > limit")
                    (Some (join ", " (x :: l))) None).
    intros st. rewrite check_harmonic_spec, E. reflexivity.
Qed.

Lemma rule_step_run checks :
  Forall rule_step checks → rule_step (run checks).
Proof.
  unfold run. induction 1 as [|check checks H _ IH]; simpl.
  - apply rule_step_id.
  - apply (rule_step_compose check _ H IH).
Qed.

Lemma run_app checks1 checks2 st :
  run (checks1 ++ checks2) st = run checks2 (run checks1 st).
Proof. unfold run. apply fold_left_app. Qed.

Lemma run_fmap {A} (f : verdict → A → verdict) (l : list A) st :
  run ((λ x st, f st x) <$> l) st = fold_left f l st.
Proof. unfold run. revert st. induction l; simpl; auto. Qed.

Lemma evaluate_voltage_run table percentiles df st :
  evaluate_voltage table percentiles df st = run (voltage_checks table percentiles df) st.
Proof.
  unfold evaluate_voltage, voltage_checks. destruct table; [|reflexivity].
  rewrite run_app, !run_fmap. reflexivity.
Qed.

Lemma evaluate_current_run row tdd_value percentiles df st :
  evaluate_current row tdd_value percentiles df st
  = run (current_checks row tdd_value percentiles df) st.
Proof.
  unfold evaluate_current, current_checks. destruct row; [|reflexivity].
  rewrite !run_app, !run_fmap. reflexivity.
Qed.

Lemma voltage_checks_rule_steps table percentiles df :
  Forall rule_step (voltage_checks table percentiles df).
Proof.
  unfold voltage_checks. destruct table; [|constructor].
  apply Forall_app. split; apply Forall_fmap, Forall_forall; intros x _; simpl.
  - apply rule_step_check_voltage_thd.
  - apply rule_step_check_harmonic.
Qed.

Lemma current_checks_rule_steps row tdd_value percentiles df :
  Forall rule_step (current_checks row tdd_value percentiles df).
Proof.
  unfold current_checks. destruct row; [|constructor].
  apply Forall_app. split; [|apply Forall_app; split].
  - repeat constructor. apply rule_step_check_tdd.
  - apply Forall_fmap, Forall_forall; intros x _; simpl.
    apply rule_step_check_current_thd.
  - apply Forall_fmap, Forall_forall; intros x _; simpl.
    apply rule_step_check_harmonic.
Qed.

Lemma rule_step_keeps_fail check st :
  rule_step check → compliance st = "Fail" → compliance (check st) = "Fail".
Proof.
  intros (v & r & H) Hst. rewrite H. simpl. destruct v; auto.
Qed.

Lemma rule_step_blind check st c :
  rule_step check →
  failing (check {| compliance := c; failing := failing st |}) = failing (check st)
  ∧ (compliance (check {| compliance := "Pass"; failing := failing st |}) = "Fail"
     → compliance (check st) = "Fail").
Proof.
  intros (v & r & H). rewrite !H. simpl. split; [reflexivity|].
  destruct v; [reflexivity|discriminate].
Qed.

(** Along a list of rule steps a verdict of ["Fail"] stays. *)
Lemma run_upto_monotone checks recorded n m :
  Forall rule_step checks → (n ≤ m)%nat →
  compliance (run_upto checks recorded n) = "Fail" →
  compliance (run_upto checks recorded m) = "Fail".
Proof.
  intros Hall Hnm. unfold run_upto.
  assert (take m checks = take n checks ++ take (m - n) (drop n checks)) as ->.
  { rewrite take_take_drop. f_equal. lia. }
  rewrite run_app. apply rule_step_keeps_fail, rule_step_run.
  apply Forall_take, Forall_drop, Hall.
Qed.

Lemma run_upto_all checks recorded :
  run_upto checks recorded (length checks) = run checks (Verdict "Pass" recorded).
Proof. unfold run_upto. rewrite firstn_all. reflexivity. Qed.

(** Reading a successful run of [analyze_full_data] back. *)
Ltac analyze_inversion H :=
  unfold analyze_full_data in H;
  destruct (_ !! "Trend") as [df_trend|] eqn:Htrend; [|discriminate H];
  destruct (_ !! "Vh Harmonic %") as [df_vh|] eqn:Hvh; [|discriminate H];
  destruct (_ !! "Ah Harmonic %") as [df_ah|] eqn:Hah; [|discriminate H];
  destruct (build_trend_data (clean_trend df_trend)) as [chart|] eqn:Hchart;
  [|discriminate H];
  simpl in H; injection H as <-.

(** C5. Within one run of [analyze_full_data] each of the two verdicts
    starts as "Pass" and, once a check has set it to "Fail", stays "Fail"
    after every later check; every check is evaluated whatever the verdict
    reached before it (what it records and whether it fails do not depend
    on that verdict). *)
Theorem verdicts_never_revert (dfs : gmap string frame)
    (nominal_voltage isc il : float) (r : report) :
  analyze_full_data dfs nominal_voltage isc il = Ok r →
  verdict_trace dfs nominal_voltage isc il r.
Proof.
  intros H. analyze_inversion H.
  exists df_trend, df_vh, df_ah. eexists.
  split; [exact Htrend|]. split; [exact Hvh|]. split; [exact Hah|].
  simpl. rewrite !run_upto_all, <- !evaluate_voltage_run, <- !evaluate_current_run.
  split; [reflexivity|]. split; [reflexivity|]. split; [reflexivity|].
  split; [reflexivity|]. split; [reflexivity|].
  split; [|split].
  - intros n m. apply run_upto_monotone, voltage_checks_rule_steps.
  - intros n m. apply run_upto_monotone, current_checks_rule_steps.
  - intros check Hin st c. apply rule_step_blind.
    apply elem_of_app in Hin as [Hin|Hin];
      [pose proof (voltage_checks_rule_steps
                     (voltage_limit_table nominal_voltage)
                     (calculate_thd_percentiles (clean_trend df_trend) "U" true true)
                     df_vh) as Hall
      |match type of Hin with
       | _ ∈ current_checks ?a ?b ?c ?d =>
           pose proof (current_checks_rule_steps a b c d) as Hall
       end];
      rewrite Forall_forall in Hall; auto.
Qed.

(* ===================================================================== *)
(** * 21. The failing-points collection *)
(* ===================================================================== *)

Lemma entry_add_eq c d p h fps :
  entry (add_failing_point c d p h fps) c d =
    Some (FailingPoint
            (append_new p (phases (default (FailingPoint [] []) (entry fps c d))))
            (append_new h (harmonics (default (FailingPoint [] []) (entry fps c d))))).
Proof.
  unfold entry, add_failing_point. rewrite lookup_insert_eq. simpl.
  rewrite lookup_insert_eq. destruct (fps !! c); reflexivity.
Qed.

Lemma entry_add_ne c d p h fps c' d' :
  (c, d) ≠ (c', d') →
  entry (add_failing_point c d p h fps) c' d' = entry fps c' d'.
Proof.
  intros Hne. unfold entry, add_failing_point.
  destruct (decide (c = c')) as [->|Hc].
  - rewrite lookup_insert_eq. simpl. rewrite lookup_insert_ne by congruence.
    destruct (fps !! c'); reflexivity.
  - rewrite lookup_insert_ne by assumption. reflexivity.
Qed.

Lemma lookup_add_ne c d p h fps c' :
  c ≠ c' → add_failing_point c d p h fps !! c' = fps !! c'.
Proof. intros Hc. unfold add_failing_point. apply lookup_insert_ne, Hc. Qed.

Lemma append_new_NoDup s l : NoDup l → NoDup (append_new s l).
Proof.
  intros Hl. unfold append_new. destruct s as [x|]; [|assumption].
  destruct (truthy (Some x) && negb (bool_decide (x ∈ l))) eqn:E; [|assumption].
  apply andb_prop in E as [_ E]. apply negb_true_iff, bool_decide_eq_false in E.
  apply NoDup_app. split; [assumption|]. split.
  - intros y Hy ->%list_elem_of_singleton. contradiction.
  - apply NoDup_singleton.
Qed.

Lemma grouped_empty : grouped ∅.
Proof. intros c d e. unfold entry. rewrite lookup_empty. discriminate. Qed.

Lemma grouped_add c d p fps :
  grouped fps → grouped (add_failing_point c d p None fps).
Proof.
  intros Hfps c' d' e. destruct (decide ((c, d) = (c', d'))) as [[= <- <-]|Hne].
  - rewrite entry_add_eq. intros [= <-]. simpl.
    destruct (entry fps c d) as [e0|] eqn:E; simpl.
    + destruct (Hfps _ _ _ E). split; [apply append_new_NoDup|]; assumption.
    + split; [apply append_new_NoDup, NoDup_nil_2 | reflexivity].
  - rewrite entry_add_ne by assumption. apply Hfps.
Qed.

Lemma recorded_from_grouped cats start fps :
  recorded_from cats start fps → grouped start → grouped fps.
Proof. induction 1; auto using grouped_add. Qed.

Lemma recorded_from_other cats start fps category :
  recorded_from cats start fps → category ∉ cats →
  fps !! category = start !! category.
Proof.
  induction 1 as [|c d p fps Hc _ IH]; intros Hcat; [reflexivity|].
  rewrite lookup_add_ne; [auto|]. intros ->. contradiction.
Qed.

Lemma recorded_from_trans cats a b c :
  recorded_from cats a b → recorded_from cats b c → recorded_from cats a c.
Proof. intros Hab Hbc. induction Hbc; [assumption|]. constructor; assumption. Qed.

Lemma records_in_id cats : records_in cats (λ st, st).
Proof. intros st. constructor. Qed.

Lemma records_in_violation cats category description phase :
  category ∈ cats → records_in cats (violation category description phase).
Proof. intros Hc st. simpl. constructor; [assumption|constructor]. Qed.

Lemma records_in_compose cats f g :
  records_in cats f → records_in cats g → records_in cats (λ st, g (f st)).
Proof. intros Hf Hg st. eapply recorded_from_trans; [apply Hf|apply Hg]. Qed.

Lemma records_in_if cats (b : bool) f g :
  records_in cats f → records_in cats g →
  records_in cats (λ st, if b then f st else g st).
Proof. destruct b; auto. Qed.

Lemma records_in_check_voltage_thd cats limits percentiles phase :
  "Voltage THD" ∈ cats →
  records_in cats (λ st, check_voltage_thd limits percentiles st phase).
Proof.
  intros Hc. unfold check_voltage_thd.
  apply (records_in_compose cats
           (λ st, if gt _ _ then violation _ _ _ st else st)
           (λ st, if gt _ _ then violation _ _ _ st else st));
    apply records_in_if; auto using records_in_id, records_in_violation.
Qed.

Lemma records_in_check_tdd cats row tdd_value :
  "Current TDD" ∈ cats → records_in cats (check_tdd row tdd_value).
Proof.
  intros Hc. unfold check_tdd.
  apply records_in_if; auto using records_in_id, records_in_violation.
Qed.

Lemma records_in_check_current_thd cats row percentiles phase :
  "Current THD" ∈ cats →
  records_in cats (λ st, check_current_thd row percentiles st phase).
Proof.
  intros Hc. unfold check_current_thd.
  apply (records_in_compose cats
           (λ st, let st := if gt _ _ then violation _ _ _ st else st in
                  if gt _ _ then violation _ _ _ st else st)
           (λ st, if gt _ _ then violation _ _ _ st else st)).
  - apply (records_in_compose cats
             (λ st, if gt _ _ then violation _ _ _ st else st)
             (λ st, if gt _ _ then violation _ _ _ st else st));
      apply records_in_if; auto using records_in_id, records_in_violation.
  - apply records_in_if; auto using records_in_id, records_in_violation.
Qed.

Lemma records_in_check_harmonic cats prefix category limit percentiles h :
  category ∈ cats →
  records_in cats (λ st, check_harmonic prefix category limit percentiles st h).
Proof.
  intros Hc st. rewrite check_harmonic_spec. simpl.
  destruct (failed_phases _ _ _ _); simpl; constructor; [assumption|constructor].
Qed.

Lemma records_in_run cats checks :
  Forall (records_in cats) checks → records_in cats (run checks).
Proof.
  unfold run. induction 1 as [|check checks H _ IH]; simpl.
  - apply records_in_id.
  - apply (records_in_compose cats check _ H IH).
Qed.

Lemma records_in_evaluate_voltage table percentiles df :
  records_in voltage_categories (evaluate_voltage table percentiles df).
Proof.
  intros st. rewrite evaluate_voltage_run. revert st. apply records_in_run.
  unfold voltage_checks. destruct table; [|constructor].
  apply Forall_app. split; apply Forall_fmap, Forall_forall; intros x _; simpl.
  - apply records_in_check_voltage_thd. left.
  - apply records_in_check_harmonic. right. left.
Qed.

Lemma records_in_evaluate_current row tdd_value percentiles df :
  records_in current_categories (evaluate_current row tdd_value percentiles df).
Proof.
  intros st. rewrite evaluate_current_run. revert st. apply records_in_run.
  unfold current_checks. destruct row; [|constructor].
  apply Forall_app. split; [|apply Forall_app; split].
  - repeat constructor. apply records_in_check_tdd. left.
  - apply Forall_fmap, Forall_forall; intros x _; simpl.
    apply records_in_check_current_thd. right. left.
  - apply Forall_fmap, Forall_forall; intros x _; simpl.
    apply records_in_check_harmonic. do 2 right. left.
Qed.

(** C8. For every input whose nominal voltage exceeds 69 kV no
    current-limit row is selected and every current check is skipped: a
    report that is returned has current_compliance "Pass" and no failing
    point in a current category, whatever the current distortion data. *)
Theorem no_current_check_above_69kV (dfs : gmap string frame)
    (nominal_voltage isc il : float) (r : report) :
  gt nominal_voltage 69000 = true →
  analyze_full_data dfs nominal_voltage isc il = Ok r →
  current_limit_row nominal_voltage isc il = None
  ∧ current_compliance r = "Pass"
  ∧ ∀ category, category ∈ current_categories →
                failing_points r !! category = None.
Proof.
  intros Hv H.
  assert (Hrow : current_limit_row nominal_voltage isc il = None).
  { unfold current_limit_row. rewrite (gt_not_le _ _ Hv). reflexivity. }
  split; [exact Hrow|].
  analyze_inversion H. simpl. rewrite Hrow. simpl.
  split; [reflexivity|].
  intros category Hcat.
  rewrite (recorded_from_other voltage_categories ∅ _ category).
  - apply lookup_empty.
  - apply (records_in_evaluate_voltage _ _ _ {| compliance := "Pass"; failing := ∅ |}).
  - unfold current_categories, voltage_categories in *.
    repeat (apply elem_of_cons in Hcat as [->|Hcat]); [..|by apply elem_of_nil in Hcat];
      intros Hin;
      repeat (apply elem_of_cons in Hin as [Hin|Hin]; [discriminate|]);
      by apply elem_of_nil in Hin.
Qed.

Lemma harmonic_description_inj h1 h2 :
  harmonic_description h1 = harmonic_description h2 → h1 = h2.
Proof.
  unfold harmonic_description, str_int. intros H.
  apply String.app_inj, string_app_inv_tail in H.
  apply (inj pretty) in H. exact H.
Qed.

Lemma join_nonempty sep x xs : x ≠ "" → join sep (x :: xs) ≠ "".
Proof.
  intros Hx. destruct x as [|a x]; [contradiction|].
  destruct xs; simpl; discriminate.
Qed.

Lemma failed_phases_nonempty prefix limit percentiles h x :
  prefix ≠ "" → x ∈ failed_phases prefix limit percentiles h → x ≠ "".
Proof.
  intros Hp Hx. unfold failed_phases in Hx.
  apply list_elem_of_fmap in Hx as (p & -> & _).
  destruct prefix; [contradiction|discriminate].
Qed.

Lemma harmonic_orders_NoDup : NoDup harmonic_orders.
Proof.
  unfold harmonic_orders. apply NoDup_fmap; [apply _|]. apply NoDup_seq.
Qed.

Section HarmonicOrders.

Variables (prefix category : string) (limit_of : Z → float)
          (percentiles : gmap string float).

Hypothesis prefix_nonempty : prefix ≠ "".

Let step (st : verdict) (h : Z) : verdict :=
  check_harmonic prefix category (limit_of h) percentiles st h.

Lemma harmonic_step_other st h h' :
  h ≠ h' →
  entry (failing (step st h')) category (harmonic_description h)
  = entry (failing st) category (harmonic_description h).
Proof.
  intros Hne. unfold step. rewrite check_harmonic_spec. simpl.
  destruct (failed_phases _ _ _ _); [reflexivity|]. simpl.
  apply entry_add_ne. intros H. apply (f_equal snd) in H. apply Hne. symmetry.
  apply harmonic_description_inj. exact H.
Qed.

Lemma harmonic_fold_other l st h :
  h ∉ l →
  entry (failing (fold_left step l st)) category (harmonic_description h)
  = entry (failing st) category (harmonic_description h).
Proof.
  revert st. induction l as [|h' l IH]; intros st Hh; simpl; [reflexivity|].
  apply not_elem_of_cons in Hh as [Hne Hh].
  rewrite IH by assumption. apply harmonic_step_other. assumption.
Qed.

Lemma harmonic_step_same st h x xs :
  entry (failing st) category (harmonic_description h) = None →
  failed_phases prefix (limit_of h) percentiles h = x :: xs →
  entry (failing (step st h)) category (harmonic_description h)
  = Some (FailingPoint [join ", " (x :: xs)] []).
Proof.
  intros Hnone Hfailed.
  assert (Hj : join ", " (x :: xs) ≠ "").
  { apply join_nonempty.
    apply (failed_phases_nonempty prefix (limit_of h) percentiles h); [assumption|].
    rewrite Hfailed. left. }
  unfold step. rewrite check_harmonic_spec, Hfailed.
  cbv beta iota zeta. cbn [failing].
  unfold harmonic_description in *. rewrite entry_add_eq, Hnone.
  unfold append_new, truthy.
  destruct (String.eqb_spec (join ", " (x :: xs)) ""); [contradiction|].
  reflexivity.
Qed.

Lemma harmonic_fold_entry l st h x xs :
  NoDup l → h ∈ l →
  entry (failing st) category (harmonic_description h) = None →
  failed_phases prefix (limit_of h) percentiles h = x :: xs →
  entry (failing (fold_left step l st)) category (harmonic_description h)
  = Some (FailingPoint [join ", " (x :: xs)] []).
Proof.
  intros Hnd. revert st. induction Hnd as [|h' l Hnotin Hnd IH];
    intros st Hin Hnone Hfailed.
  - by apply elem_of_nil in Hin.
  - simpl. apply elem_of_cons in Hin as [->|Hin].
    + rewrite harmonic_fold_other by assumption.
      apply harmonic_step_same; assumption.
    + apply IH; [assumption| |assumption].
      rewrite harmonic_step_other; [assumption|].
      intros ->. contradiction.
Qed.

End HarmonicOrders.

Lemma entry_recorded_other cats start fps category description :
  recorded_from cats start fps → category ∉ cats →
  entry fps category description = entry start category description.
Proof.
  intros H Hc. unfold entry. rewrite (recorded_from_other _ _ _ _ H Hc). reflexivity.
Qed.

(** C3, as the program has it. Within every (category, description) entry
    of a returned report the phase identifiers are listed once and there
    is no harmonic identifier. A harmonic order that violates its
    individual limit on some phase is recorded under the category of its
    rule with a description of its own, "Harmonic h > limit", whose one
    phase identifier is the comma-joined list of the violating phases; so
    two distinct orders give two descriptions under one category. *)
Theorem harmonic_failures_by_description (dfs : gmap string frame)
    (nominal_voltage isc il : float) (r : report) :
  analyze_full_data dfs nominal_voltage isc il = Ok r →
  (∀ category description e,
     entry (failing_points r) category description = Some e →
     NoDup (phases e) ∧ NoDup (harmonics e) ∧ harmonics e = [])
  ∧ (∀ df_vh limits h x xs,
       dfs !! "Vh Harmonic %" = Some df_vh →
       voltage_limit_table nominal_voltage = Some limits →
       h ∈ harmonic_orders →
       failed_phases "V" (individual limits)
         (calculate_individual_harmonic_percentiles df_vh "V" 95) h = x :: xs →
       entry (failing_points r) "Individual Voltage Harmonics" (harmonic_description h)
       = Some (FailingPoint [join ", " (x :: xs)] []))
  ∧ (∀ df_ah row h x xs,
       dfs !! "Ah Harmonic %" = Some df_ah →
       current_limit_row nominal_voltage isc il = Some row →
       h ∈ harmonic_orders →
       failed_phases "A" (get_current_limit_for_harmonic h (Some row))
         (calculate_individual_harmonic_percentiles df_ah "A" 95) h = x :: xs →
       entry (failing_points r) "Individual Current Harmonics" (harmonic_description h)
       = Some (FailingPoint [join ", " (x :: xs)] []))
  ∧ (∀ h1 h2, h1 ≠ h2 → harmonic_description h1 ≠ harmonic_description h2).
Proof.
  intros H. analyze_inversion H. simpl.
  set (vp := calculate_thd_percentiles (clean_trend df_trend) "U" true true).
  set (cp := calculate_thd_percentiles (clean_trend df_trend) "A" true true).
  set (tdd_value := compute_tdd _ _ _).
  set (st0 := {| compliance := "Pass"; failing := ∅ |}).
  set (stv := evaluate_voltage (voltage_limit_table nominal_voltage) vp df_vh st0).
  set (st1 := {| compliance := "Pass"; failing := failing stv |}).
  pose proof (records_in_evaluate_voltage (voltage_limit_table nominal_voltage)
                vp df_vh st0) as Rv. fold stv in Rv.
  pose proof (records_in_evaluate_current (current_limit_row nominal_voltage isc il)
                tdd_value cp df_ah st1) as Rc.
  split; [|split; [|split]].
  - intros category description e He.
    assert (G : grouped (failing (evaluate_current
                  (current_limit_row nominal_voltage isc il) tdd_value cp df_ah st1))).
    { eapply recorded_from_grouped; [exact Rc|]. simpl.
      eapply recorded_from_grouped; [exact Rv|]. apply grouped_empty. }
    destruct (G _ _ _ He) as [G1 G2]. rewrite G2.
    split; [assumption|]. split; [apply NoDup_nil_2|reflexivity].
  - intros df_vh' limits h x xs [= <-] Htable Hh Hfailed.
    rewrite (entry_recorded_other _ _ _ _ _ Rc).
    2: { unfold current_categories. intros Hin.
         repeat (apply elem_of_cons in Hin as [Hin|Hin]; [discriminate|]).
         by apply elem_of_nil in Hin. }
    simpl. unfold stv, evaluate_voltage. rewrite Htable.
    apply (harmonic_fold_entry "V" "Individual Voltage Harmonics"
             (λ _, individual limits) _ ltac:(discriminate) _ _ _ _ _
             harmonic_orders_NoDup Hh); [|exact Hfailed].
    rewrite <- (run_fmap (check_voltage_thd limits vp)).
    rewrite (entry_recorded_other ["Voltage THD"] (failing st0)).
    + reflexivity.
    + apply records_in_run, Forall_fmap, Forall_forall. intros p _. simpl.
      apply records_in_check_voltage_thd. left.
    + intros Hin. apply elem_of_cons in Hin as [Hin|Hin]; [discriminate|].
      by apply elem_of_nil in Hin.
  - intros df_ah' row h x xs [= <-] Hrow Hh Hfailed.
    unfold evaluate_current. rewrite Hrow.
    apply (harmonic_fold_entry "A" "Individual Current Harmonics"
             (λ h, get_current_limit_for_harmonic h (Some row)) _
             ltac:(discriminate) _ _ _ _ _ harmonic_orders_NoDup Hh);
      [|exact Hfailed].
    rewrite <- (run_fmap (check_current_thd row cp)).
    rewrite (entry_recorded_other ["Current TDD"; "Current THD"] (failing stv)).
    + unfold stv. rewrite (entry_recorded_other _ _ _ _ _ Rv); [reflexivity|].
      unfold voltage_categories. intros Hin.
      repeat (apply elem_of_cons in Hin as [Hin|Hin]; [discriminate|]).
      by apply elem_of_nil in Hin.
    + refine (records_in_compose ["Current TDD"; "Current THD"]
                (check_tdd row tdd_value)
                (run ((λ x st, check_current_thd row cp st x) <$> [1; 2; 3]))
                _ _ st1).
      * apply records_in_check_tdd. left.
      * apply records_in_run, Forall_fmap, Forall_forall. intros p _. simpl.
        apply records_in_check_current_thd. right. left.
    + intros Hin.
      repeat (apply elem_of_cons in Hin as [Hin|Hin]; [discriminate|]).
      by apply elem_of_nil in Hin.
  - intros h1 h2 Hne Heq. apply Hne, harmonic_description_inj, Heq.
Qed.

(* ===================================================================== *)
(** * 22. What the overall distortion figures depend on *)
(* ===================================================================== *)

(** One column of the loop of [calculate_thd_percentiles] writes three
    keys, all made of the name of the column. *)
Lemma thd_column_percentiles_other df p95 p99 results col key :
  key ≠ col +:+ "_99th_3s" → key ≠ col +:+ "_95th_10min" →
  key ≠ col +:+ "_99th_10min" →
  thd_column_percentiles df p95 p99 results col !! key = results !! key.
Proof.
  intros H1 H2 H3. unfold thd_column_percentiles.
  destruct (cf_columns df !! col); [|reflexivity].
  repeat (case_bool_decide || destruct p95 || destruct p99);
    rewrite ?lookup_insert_ne by congruence; reflexivity.
Qed.

(** It reads the index and its own column only. *)
Lemma thd_column_percentiles_ext df1 df2 p95 p99 results col :
  cf_index df1 = cf_index df2 →
  cf_columns df1 !! col = cf_columns df2 !! col →
  thd_column_percentiles df1 p95 p99 results col
  = thd_column_percentiles df2 p95 p99 results col.
Proof. intros Hi Hc. unfold thd_column_percentiles. rewrite Hi, Hc. reflexivity. Qed.

Lemma phase_1_percentile df thd_type key :
  (thd_type = "U" ∨ thd_type = "A") →
  key ∈ [thd_type +:+ "1 THD_99th_3s"; thd_type +:+ "1 THD_95th_10min";
         thd_type +:+ "1 THD_99th_10min"] →
  calculate_thd_percentiles df thd_type true true !! key
  = thd_column_percentiles df true true ∅ (thd_type +:+ "1 THD") !! key.
Proof.
  intros Ht Hkey. unfold calculate_thd_percentiles. cbn [fmap list_fmap fold_left].
  destruct Ht as [-> | ->];
    repeat (apply elem_of_cons in Hkey as [->|Hkey]);
    try (by apply elem_of_nil in Hkey);
    rewrite !thd_column_percentiles_other by discriminate; reflexivity.
Qed.

Lemma clean_trend_index_ext trend1 trend2 :
  trend1 !! "Date" = trend2 !! "Date" → trend1 !! "Time" = trend2 !! "Time" →
  cf_index (clean_trend trend1) = cf_index (clean_trend trend2)
  ∧ ∀ col, trend1 !! col = trend2 !! col →
           cf_columns (clean_trend trend1) !! col = cf_columns (clean_trend trend2) !! col.
Proof.
  intros Hd Ht.
  assert (Hs : timestamps trend1 = timestamps trend2).
  { unfold timestamps. rewrite Hd, Ht. reflexivity. }
  unfold clean_trend. simpl. rewrite Hs. split; [reflexivity|].
  intros col Hcol. rewrite !lookup_fmap.
  destruct (decide (col = "Timestamp")) as [->|Hne].
  - rewrite !lookup_delete_eq. reflexivity.
  - rewrite !lookup_delete_ne by congruence. rewrite Hcol. reflexivity.
Qed.

Lemma summary_stats_lookup clean_df thdv thdi key value :
  (key, value) ∈
    [ ("a1_rms_avg", nan_to_zero (mean (channel clean_df "A1 RMS")));
      ("thdv_percent_avg", nan_to_zero thdv);
      ("thdi_percent_avg", nan_to_zero thdi) ] →
  build_summary_stats clean_df thdv thdi !! key = Some value.
Proof.
  intros Hin. unfold build_summary_stats.
  repeat (apply elem_of_cons in Hin as [[= -> ->]|Hin]);
    try (by apply elem_of_nil in Hin);
    (rewrite lookup_insert_ne by discriminate);
    cbn [list_to_map foldr curry fst snd uncurry];
    rewrite ?lookup_insert_ne by discriminate;
    apply lookup_insert_eq.
Qed.

(** C10. The overall distortion figures of the report depend on phase 1
    only: two inputs whose trend tables differ in nothing but the columns
    'U2 THD', 'U3 THD', 'A2 THD' and 'A3 THD' give the same thdv_percent,
    thdi_percent_avg and TDD. *)
Theorem overall_figures_read_phase_1 (dfs1 dfs2 : gmap string frame)
    (trend1 trend2 : frame) (nominal_voltage isc il : float) (r1 r2 : report) :
  dfs1 !! "Trend" = Some trend1 →
  dfs2 !! "Trend" = Some trend2 →
  differ_in_other_phase_thd trend1 trend2 →
  analyze_full_data dfs1 nominal_voltage isc il = Ok r1 →
  analyze_full_data dfs2 nominal_voltage isc il = Ok r2 →
  thdv_percent r1 = thdv_percent r2
  ∧ summary_stats r1 !! "thdi_percent_avg" = summary_stats r2 !! "thdi_percent_avg"
  ∧ tdd_percent r1 = tdd_percent r2.
Proof.
  intros T1 T2 Hdiff H1 H2.
  assert (Hcol : ∀ col, col ∈ ["Date"; "Time"; "U1 THD"; "A1 THD"; "A1 RMS"] →
                        trend1 !! col = trend2 !! col).
  { intros col Hin. apply Hdiff. unfold other_phase_thd_columns. intros Hin'.
    repeat (apply elem_of_cons in Hin as [->|Hin]);
      try (by apply elem_of_nil in Hin);
      repeat (apply elem_of_cons in Hin' as [Hin'|Hin']; [discriminate|]);
      by apply elem_of_nil in Hin'. }
  destruct (clean_trend_index_ext trend1 trend2) as [Hi Hc].
  { apply Hcol. left. } { apply Hcol. right. left. }
  analyze_inversion H1. injection T1 as ->.
  rename df_vh into vh1, df_ah into ah1, chart into chart1.
  clear Htrend Hvh Hah Hchart.
  analyze_inversion H2. injection T2 as ->.
  cbn [thdv_percent tdd_percent summary_stats].
  unfold get0.
  rewrite !(summary_stats_lookup _ _ _ "thdi_percent_avg" _
              ltac:(right; right; left)).
  rewrite !(summary_stats_lookup _ _ _ "a1_rms_avg" _ ltac:(left)).
  rewrite !(phase_1_percentile _ "U" "U1 THD_95th_10min")
    by (auto || (right; left)).
  rewrite !(phase_1_percentile _ "A" "A1 THD_95th_10min")
    by (auto || (right; left)).
  rewrite (thd_column_percentiles_ext (clean_trend trend1) (clean_trend trend2)
             true true ∅ ("U" +:+ "1 THD") Hi)
    by (apply Hc, Hcol; do 2 right; left).
  rewrite (thd_column_percentiles_ext (clean_trend trend1) (clean_trend trend2)
             true true ∅ ("A" +:+ "1 THD") Hi)
    by (apply Hc, Hcol; do 3 right; left).
  unfold channel.
  rewrite (Hc "A1 RMS") by (apply Hcol; do 4 right; left).
  auto.
Qed.

(* ===================================================================== *)
(** * 23. The numeric coercion layer *)
(* ===================================================================== *)

Lemma binary_round_aux_sign sx mx ex lx :
  signed_as sx (binary_round_aux prec emax sx mx ex lx).
Proof.
  unfold binary_round_aux.
  destruct (shr_fexp prec emax mx ex lx) as [mrs' e'].
  destruct (shr_fexp prec emax _ e' loc_Exact) as [mrs'' e''].
  destruct (shr_m mrs''); simpl; [reflexivity| |exact I].
  destruct (e'' <=? emax - prec); reflexivity.
Qed.

Lemma of_uint63_sign i : signed_as false (Prim2SF (PrimFloat.of_uint63 i)).
Proof.
  rewrite FloatAxioms.of_uint63_spec. unfold binary_normalize.
  pose proof (Uint63.to_Z_bounded i) as Hi.
  destruct (Uint63.to_Z i) as [|m|m]; [reflexivity| |lia].
  unfold binary_round. destruct (shl_align _ _ _) as [mz ez].
  apply binary_round_aux_sign.
Qed.

Lemma float_of_nat_sign n : signed_as false (Prim2SF (float_of_nat n)).
Proof.
  unfold float_of_nat, float_of_Z.
  destruct (Z.ltb_spec (Z.of_nat n) 0); [lia|]. apply of_uint63_sign.
Qed.

(** Zero divided by a count is zero, or NaN when the count is zero: its
    reading with [nan_to_zero] is 0.0. *)
Lemma nan_to_zero_zero_div y :
  signed_as false (Prim2SF y) → nan_to_zero (0 / y)%float = 0%float.
Proof.
  intros Hy. unfold nan_to_zero. rewrite orb_diag.
  destruct (isnan (0 / y)%float) eqn:E; [reflexivity|].
  apply Prim2SF_inj. rewrite FloatAxioms.div_spec.
  assert (En : Prim2SF (0 / y)%float ≠ S754_nan).
  { intros H. apply isnan_fcompare in H. congruence. }
  rewrite FloatAxioms.div_spec in En.
  change (Prim2SF 0) with (S754_zero false) in *.
  destruct (Prim2SF y) as [s|s| |s m e]; simpl in *; subst;
    try reflexivity; contradiction.
Qed.

Lemma sum_zeros n : sum (replicate n 0%float) = 0%float.
Proof.
  unfold sum. induction n as [|n IH]; simpl; [reflexivity|].
  change (0 + 0)%float with 0%float. exact IH.
Qed.

Lemma dropna_zeros n : dropna (replicate n 0%float) = replicate n 0%float.
Proof. induction n as [|n IH]; simpl; [reflexivity|]. f_equal. exact IH. Qed.

Lemma to_numeric_safe_missing cells :
  Forall (λ c, isnan (cell_number c) = true) cells →
  to_numeric_safe cells = replicate (length cells) 0%float.
Proof.
  unfold to_numeric_safe, to_numeric, fillna.
  induction 1 as [|c cells Hc _ IH]; simpl; [reflexivity|].
  rewrite Hc. f_equal. exact IH.
Qed.

Lemma mean_zeros n : nan_to_zero (mean (replicate n 0%float)) = 0%float.
Proof.
  unfold mean. rewrite dropna_zeros. destruct n as [|n]; [reflexivity|].
  change (replicate (S n) 0%float) with (0%float :: replicate n 0%float) at 1.
  cbv beta iota. rewrite sum_zeros, length_replicate.
  apply nan_to_zero_zero_div, float_of_nat_sign.
Qed.

Lemma dropna_all_missing series :
  forallb isnan series = true → dropna series = [].
Proof.
  induction series as [|x series IH]; simpl; [reflexivity|].
  intros [Hx Hs]%andb_prop. rewrite Hx. simpl. auto.
Qed.

Lemma to_numeric_safe_lookup cells i c :
  cells !! i = Some c →
  to_numeric_safe cells !! i
  = Some (if isnan (cell_number c) then 0%float else cell_number c).
Proof.
  intros H. unfold to_numeric_safe, fillna, to_numeric.
  rewrite !list_lookup_fmap, H. reflexivity.
Qed.

(** C9. The percentile helper returns exactly 0.0 for the empty series and
    for a series of missing values only; the mean of a coerced column
    followed by [nan_to_zero] is exactly 0.0 when the column is empty or
    all missing, and so is the mean of a series of missing values; coercing
    a column keeps its length and puts zero where a cell has no number.
    None of these functions can raise: they are total. *)
Theorem empty_and_missing_series_read_zero :
  (∀ percentile, get_percentile_safe [] percentile = 0%float)
  ∧ (∀ series percentile,
       forallb isnan series = true → get_percentile_safe series percentile = 0%float)
  ∧ (∀ cells,
       Forall (λ c, isnan (cell_number c) = true) cells →
       nan_to_zero (mean (to_numeric_safe cells)) = 0%float)
  ∧ (∀ series, forallb isnan series = true → nan_to_zero (mean series) = 0%float)
  ∧ (∀ cells,
       length (to_numeric_safe cells) = length cells
       ∧ ∀ i c, cells !! i = Some c →
           to_numeric_safe cells !! i
           = Some (if isnan (cell_number c) then 0%float else cell_number c)).
Proof.
  split; [|split; [|split; [|split]]].
  - reflexivity.
  - intros series percentile H. unfold get_percentile_safe.
    rewrite H, orb_true_r. reflexivity.
  - intros cells H. rewrite (to_numeric_safe_missing cells H). apply mean_zeros.
  - intros series H. unfold mean. rewrite (dropna_all_missing series H). reflexivity.
  - intros cells. split.
    + unfold to_numeric_safe, fillna, to_numeric. rewrite !length_fmap. reflexivity.
    + apply to_numeric_safe_lookup.
Qed.

(* ===================================================================== *)
(** * 24. Whole runs *)
(* ===================================================================== *)

Lemma for_each_Ok {A B} (f : A → result B) (l : list A) :
  (∀ x, x ∈ l → ∃ y, f x = Ok y) → ∃ ys, for_each f l = Ok ys.
Proof.
  induction l as [|x l IH]; intros H; simpl; [eauto|].
  destruct (H x) as [y Hy]; [left|]. rewrite Hy. simpl.
  destruct IH as [ys Hys]; [intros; apply H; right; assumption|].
  rewrite Hys. simpl. eauto.
Qed.

Lemma for_each_Raise {A B} (f : A → result B) (l : list A) x e :
  x ∈ l → (∀ y, y ∈ l → f y = Raise e ∨ ∃ v, f y = Ok v) → f x = Raise e →
  for_each f l = Raise e.
Proof.
  induction l as [|y l IH]; intros Hin Hall Hx; [by apply elem_of_nil in Hin|].
  simpl. destruct (Hall y) as [Hy|[v Hy]]; [left| |]; rewrite Hy; simpl;
    [reflexivity|].
  apply elem_of_cons in Hin as [->|Hin]; [congruence|].
  rewrite IH; [reflexivity|assumption| |assumption].
  intros; apply Hall; right; assumption.
Qed.

Lemma series_to_json_list_cases clean_df col_name :
  (cf_columns clean_df !! col_name = None
   ∧ series_to_json_list clean_df col_name = Raise AttributeError)
  ∨ (is_Some (cf_columns clean_df !! col_name)
     ∧ ∃ values, series_to_json_list clean_df col_name = Ok values).
Proof.
  unfold series_to_json_list. destruct (cf_columns clean_df !! col_name); eauto.
Qed.

(** The chart data are built exactly when the table has every charted
    channel; one missing channel raises [AttributeError]. *)
Lemma build_trend_data_cases clean_df :
  (∃ chart, build_trend_data clean_df = Ok chart
            ∧ ∀ channel, channel ∈ charted_channels →
                         is_Some (cf_columns clean_df !! channel))
  ∨ (build_trend_data clean_df = Raise AttributeError
     ∧ ∃ channel, channel ∈ charted_channels
                  ∧ cf_columns clean_df !! channel = None).
Proof.
  destruct (decide (Forall (λ channel, is_Some (cf_columns clean_df !! channel))
                           charted_channels)) as [Hall|Hnot].
  - left. rewrite Forall_forall in Hall.
    unfold build_trend_data.
    destruct (for_each_Ok
      (λ '(group, channels),
         series ← for_each (λ col_name,
                     values ← series_to_json_list clean_df col_name;
                     Ok (col_name, values)) channels;
         Ok (group, (list_to_map series : gmap string (list float))))
      trend_groups) as [groups Hg].
    { intros [group channels] Hin.
      destruct (for_each_Ok
        (λ col_name, values ← series_to_json_list clean_df col_name;
                     Ok (col_name, values)) channels) as [series Hs].
      { intros col Hcol.
        destruct (series_to_json_list_cases clean_df col) as [[Hn _]|[_ [v Hv]]].
        - assert (is_Some (cf_columns clean_df !! col)) as [? ?]; [|congruence].
          apply Hall. unfold charted_channels. apply list_elem_of_join.
          exists channels. split; [assumption|].
          apply list_elem_of_fmap. exists (group, channels). auto.
        - rewrite Hv. simpl. eauto. }
      rewrite Hs. simpl. eauto. }
    rewrite Hg. simpl. eexists. split; [reflexivity|assumption].
  - right. apply not_Forall_Exists in Hnot; [|apply _].
    apply Exists_exists in Hnot as (channel & Hin & Hnone).
    assert (Hc : cf_columns clean_df !! channel = None).
    { destruct (cf_columns clean_df !! channel) eqn:E; [|reflexivity].
      exfalso. apply Hnone. eauto. }
    split; [|eauto].
    unfold charted_channels in Hin. apply list_elem_of_join in Hin as (channels & Hin & Hg).
    apply list_elem_of_fmap in Hg as ([group channels'] & -> & Hg). simpl in Hin.
    unfold build_trend_data.
    rewrite (for_each_Raise _ trend_groups (group, channels') AttributeError Hg);
      [reflexivity| |].
    + intros [g cs] _.
      destruct (decide (Forall (λ c, is_Some (cf_columns clean_df !! c)) cs))
        as [Hcs|Hcs].
      * right. rewrite Forall_forall in Hcs.
        destruct (for_each_Ok
          (λ col_name, values ← series_to_json_list clean_df col_name;
                       Ok (col_name, values)) cs) as [series Hs].
        { intros col Hcol. destruct (Hcs col Hcol) as [v Hv].
          unfold series_to_json_list. rewrite Hv. simpl. eauto. }
        rewrite Hs. simpl. eauto.
      * left. apply not_Forall_Exists in Hcs; [|apply _].
        apply Exists_exists in Hcs as (c & Hc1 & Hc2).
        rewrite (for_each_Raise _ cs c AttributeError Hc1); [reflexivity| |].
        -- intros y _. unfold series_to_json_list.
           destruct (cf_columns clean_df !! y); simpl; eauto.
        -- unfold series_to_json_list.
           destruct (cf_columns clean_df !! c) eqn:E; [|reflexivity].
           exfalso. apply Hc2. eauto.
    + rewrite (for_each_Raise _ channels' channel AttributeError Hin); [reflexivity| |].
      * intros y _. unfold series_to_json_list.
        destruct (cf_columns clean_df !! y); simpl; eauto.
      * unfold series_to_json_list. rewrite Hc. reflexivity.
Qed.

Lemma clean_trend_column df_trend channel :
  channel ≠ "Timestamp" →
  (cf_columns (clean_trend df_trend) !! channel = None ↔ df_trend !! channel = None).
Proof.
  intros Hne. unfold clean_trend. simpl.
  rewrite lookup_fmap, lookup_delete_ne by congruence.
  destruct (df_trend !! channel); simpl; split; congruence.
Qed.

Lemma charted_channels_not_index channel :
  channel ∈ charted_channels → channel ≠ "Timestamp".
Proof.
  intros Hin ->. revert Hin.
  apply (bool_decide_eq_false_1 ("Timestamp" ∈ charted_channels)).
  vm_compute. reflexivity.
Qed.

(** What a run of [analyze_full_data] comes to: the stated error without
    one of the three worksheets, a report when the trend table has every
    charted channel, and [AttributeError] when it lacks one. *)
Lemma analyze_full_data_outcome dfs nominal_voltage isc il :
  match analyze_full_data dfs nominal_voltage isc il with
  | Raise (ValueError message) =>
      message = "Missing required worksheets."
      ∧ (dfs !! "Trend" = None ∨ dfs !! "Vh Harmonic %" = None
         ∨ dfs !! "Ah Harmonic %" = None)
  | Raise AttributeError =>
      ∃ df_trend channel,
        dfs !! "Trend" = Some df_trend ∧ is_Some (dfs !! "Vh Harmonic %")
        ∧ is_Some (dfs !! "Ah Harmonic %")
        ∧ channel ∈ charted_channels ∧ df_trend !! channel = None
  | Ok _ =>
      ∃ df_trend,
        dfs !! "Trend" = Some df_trend ∧ is_Some (dfs !! "Vh Harmonic %")
        ∧ is_Some (dfs !! "Ah Harmonic %")
        ∧ ∀ channel, channel ∈ charted_channels → is_Some (df_trend !! channel)
  end.
Proof.
  unfold analyze_full_data.
  destruct (dfs !! "Trend") as [df_trend|]; [|tauto].
  destruct (dfs !! "Vh Harmonic %") as [df_vh|]; [|tauto].
  destruct (dfs !! "Ah Harmonic %") as [df_ah|]; [|tauto].
  destruct (build_trend_data_cases (clean_trend df_trend))
    as [(chart & -> & Hall)|(-> & channel & Hin & Hnone)]; simpl.
  - exists df_trend.
    split; [reflexivity|]. split; [eauto|]. split; [eauto|]. intros channel Hin.
    destruct (df_trend !! channel) eqn:E; [eauto|].
    apply clean_trend_column in E; [|apply charted_channels_not_index, Hin].
    destruct (Hall channel Hin). congruence.
  - exists df_trend, channel.
    split; [reflexivity|]. split; [eauto|]. split; [eauto|]. split; [exact Hin|].
    apply clean_trend_column; [|exact Hnone].
    apply charted_channels_not_index, Hin.
Qed.

(** A missing worksheet is the one error the engine raises on purpose. *)
Lemma analyze_full_data_missing_sheet dfs nominal_voltage isc il :
  (dfs !! "Trend" = None ∨ dfs !! "Vh Harmonic %" = None
   ∨ dfs !! "Ah Harmonic %" = None) ↔
  analyze_full_data dfs nominal_voltage isc il
  = Raise (ValueError "Missing required worksheets.").
Proof.
  split.
  - unfold analyze_full_data.
    destruct (dfs !! "Trend"), (dfs !! "Vh Harmonic %"), (dfs !! "Ah Harmonic %");
      try reflexivity; intros [H|[H|H]]; discriminate.
  - intros H. pose proof (analyze_full_data_outcome dfs nominal_voltage isc il) as O.
    rewrite H in O. tauto.
Qed.

Lemma returns_Ok x : returns x = true → ∃ r, x = Ok r.
Proof. destruct x; [eauto|discriminate]. Qed.


Lemma report_field_decide (P : report → Prop) `{∀ r, Decision (P r)} x r :
  x = Ok r → report_field (λ r, bool_decide (P r)) x = Some true → P r.
Proof. intros -> [= H']. apply bool_decide_eq_true in H'. exact H'. Qed.


(** C1, where the program departs from it. All three worksheets are
    present and the trend table is the one of the end-to-end scenario of
    the design document; it has no 'U2 RMS' column (nor most other charted
    channels), and the run ends in [AttributeError] instead of a report. *)
Theorem missing_channel_raises :
  is_Some (workbook bare_trend no_harmonics no_harmonics !! "Trend")
  ∧ is_Some (workbook bare_trend no_harmonics no_harmonics !! "Vh Harmonic %")
  ∧ is_Some (workbook bare_trend no_harmonics no_harmonics !! "Ah Harmonic %")
  ∧ analyze_full_data (workbook bare_trend no_harmonics no_harmonics) 400 1000 50
    = Raise AttributeError.
Proof.
  split; [|split; [|split]];
    try (apply (bool_decide_unpack _); vm_compute; exact I).
  vm_compute. reflexivity.
Qed.



(** C3, where the program departs from it. Orders 3 and 5 both violate the
    individual voltage limit on phase 1: the collection holds two
    descriptions under the one category, each with the phase and with no
    harmonic identifier. *)
Lemma two_orders_two_descriptions :
  ∃ r, analyze_full_data distorted_workbook 400 1000 50 = Ok r
       ∧ failing_points r
         = {[ "Individual Voltage Harmonics" :=
                {[ "Harmonic 3 > limit" := FailingPoint ["V1"] [];
                   "Harmonic 5 > limit" := FailingPoint ["V1"] [] ]} ]}.
Proof.
  destruct (returns_Ok (analyze_full_data distorted_workbook 400 1000 50)) as [r E];
    [vm_compute; reflexivity|].
  exists r. split; [exact E|].
  apply (report_field_decide
           (λ r, failing_points r
                 = {[ "Individual Voltage Harmonics" :=
                        {[ "Harmonic 3 > limit" := FailingPoint ["V1"] [];
                           "Harmonic 5 > limit" := FailingPoint ["V1"] [] ]} ]})
           _ r E).
  vm_compute. reflexivity.
Qed.

Lemma harmonic_failures_by_description_witness :
  ∃ r, analyze_full_data distorted_workbook 400 1000 50 = Ok r
       ∧ entry (failing_points r) "Individual Voltage Harmonics"
               (harmonic_description 5)
         = Some (FailingPoint ["V1"] []).
Proof.
  destruct (returns_Ok (analyze_full_data distorted_workbook 400 1000 50)) as [r E];
    [vm_compute; reflexivity|].
  exists r. split; [exact E|].
  destruct (harmonic_failures_by_description _ _ _ _ _ E) as (_ & Hv & _).
  apply (Hv (list_to_map [("V1h3", constant "10.0" 10); ("V1h5", constant "10.0" 10)])
            (VoltageLimits 5.0 8.0) 5 "V1" []);
    [reflexivity|vm_compute; reflexivity| |vm_compute; reflexivity].
  do 3 right. left.
Defined.

Lemma verdicts_never_revert_witness :
  ∃ r, analyze_full_data distorted_workbook 400 1000 50 = Ok r
       ∧ verdict_trace distorted_workbook 400 1000 50 r.
Proof.
  destruct (returns_Ok (analyze_full_data distorted_workbook 400 1000 50)) as [r E];
    [vm_compute; reflexivity|].
  exists r. split; [exact E|]. exact (verdicts_never_revert _ _ _ _ _ E).
Defined.

Lemma no_current_check_above_69kV_witness :
  ∃ r, analyze_full_data current_distorted_workbook 132000 1000 50 = Ok r
       ∧ current_compliance r = "Pass"
       ∧ failing_points r !! "Individual Current Harmonics" = None.
Proof.
  destruct (returns_Ok (analyze_full_data current_distorted_workbook 132000 1000 50))
    as [r E]; [vm_compute; reflexivity|].
  exists r. split; [exact E|].
  destruct (no_current_check_above_69kV current_distorted_workbook
              132000 1000 50 r eq_refl E) as (_ & Hc & Hf).
  split; [exact Hc|]. apply Hf. do 2 right. left.
Defined.

Lemma overall_figures_read_phase_1_witness :
  ∃ r1 r2,
    analyze_full_data healthy_workbook 400 1000 50 = Ok r1
    ∧ analyze_full_data
        (workbook phase_2_distorted_trend no_harmonics no_harmonics) 400 1000 50
      = Ok r2
    ∧ thdv_percent r1 = thdv_percent r2
    ∧ tdd_percent r1 = tdd_percent r2.
Proof.
  destruct (returns_Ok (analyze_full_data healthy_workbook 400 1000 50)) as [r1 E1];
    [vm_compute; reflexivity|].
  destruct (returns_Ok (analyze_full_data
              (workbook phase_2_distorted_trend no_harmonics no_harmonics)
              400 1000 50)) as [r2 E2]; [vm_compute; reflexivity|].
  exists r1, r2. split; [exact E1|]. split; [exact E2|].
  destruct (overall_figures_read_phase_1
              healthy_workbook
              (workbook phase_2_distorted_trend no_harmonics no_harmonics)
              (full_trend (constant "1000.0" 1000) (constant "1000.0" 1000))
              phase_2_distorted_trend 400 1000 50 r1 r2)
    as (H1 & _ & H3); auto; try reflexivity.
  intros col Hcol. unfold phase_2_distorted_trend.
  rewrite lookup_insert_ne; [reflexivity|].
  intros <-. apply Hcol. left.
Defined.

(* ===================================================================== *)
(** * 25. The timestamp format and the calendar-year conversion *)
(* ===================================================================== *)

(** ** Character classes *)






Lemma between_digit lo hi c :
  is_digit lo = true → is_digit hi = true → between lo hi c = true →
  is_digit c = true.
Proof.
  intros Hlo Hhi H. unfold between, is_digit in *.
  apply andb_prop in Hlo as [L1 L2]. apply andb_prop in Hhi as [H1 H2].
  apply andb_prop in H as [B1 B2].
  apply Z.leb_le in L1, L2, H1, H2, B1, B2.
  apply andb_true_intro. split; apply Z.leb_le; lia.
Qed.




(** ** What a directive consumes *)



Lemma orelse_cases (p q : directive) s r :
  orelse p q s = Some r → p s = Some r ∨ q s = Some r.
Proof. unfold orelse. destruct (p s); [left|right]; assumption. Qed.










(** ** The shape of a text that matches the format *)


(** ** Cutting a text at a blank *)





(** ** Fields *)

Lemma split_chars_nonempty sep s : split_chars sep s ≠ [].
Proof.
  destruct s as [|c s]; simpl; [discriminate|].
  destruct (Ascii.eqb c sep); [discriminate|].
  destruct (split_chars sep s); discriminate.
Qed.



(** ** Integers *)





(** ** Integers written out and read back *)

Lemma pretty_N_char_digit k :
  (k < 10)%N →
  is_digit (pretty_N_char k) = true ∧ digit_value (pretty_N_char k) = Z.of_N k.
Proof.
  intros Hk.
  assert (k = 0 ∨ k = 1 ∨ k = 2 ∨ k = 3 ∨ k = 4 ∨ k = 5 ∨ k = 6 ∨ k = 7
          ∨ k = 8 ∨ k = 9)%N as H by lia.
  repeat (destruct H as [->|H]; [split; reflexivity|]). subst. split; reflexivity.
Qed.









(** ** Well-formed and malformed dates *)





(** An empty date is returned unchanged; when the time cell holds a whole
    timestamp with a one-digit day, the joining blank reads as the blank
    that may precede such a day, and the row is kept. *)
Lemma empty_date_row_is_kept :
  thai_to_gregorian_year "" = ""
  ∧ to_datetime (thai_to_gregorian_year "" +:+ " " +:+ "5/03/2023 10:00:00")
    = Some 1678010400.
Proof. split; vm_compute; reflexivity. Qed.


(* ===================================================================== *)
(** * 26. The HTTP endpoint *)
(* ===================================================================== *)

Section EndpointFacts.

Variable contents : Type.
Variable read_excel : contents → string → Z → option (list Z) → raised + frame.

Local Abbreviation read c sheet_name header_row :=
  (read_excel c sheet_name header_row (skipped_rows sheet_name header_row)).

(** The three worksheets are read in turn; the first that cannot be read
    decides what is raised. *)
Lemma read_sheets_cases c :
  match read_sheets contents read_excel c with
  | inr all_sheets =>
      ∃ trend vh ah,
        read c "Trend" 6 = inr trend ∧ read c "Vh Harmonic %" 0 = inr vh
        ∧ read c "Ah Harmonic %" 0 = inr ah
        ∧ all_sheets = <["Ah Harmonic %" := ah]>
                         (<["Vh Harmonic %" := vh]> (<["Trend" := trend]> ∅))
  | inl e =>
      ∃ before sheet_name header_row after,
        sheet_header_map = before ++ (sheet_name, header_row) :: after
        ∧ Forall (λ '(s, h), ∃ df, read c s h = inr df) before
        ∧ ∃ e', read c sheet_name header_row = inl e'
                ∧ e = match e' with
                      | Engine (ValueError _) =>
                          HTTPException 400
                            ("Required worksheet '" +:+ sheet_name +:+ "' not found.")
                      | _ => e'
                      end
  end.
Proof.
  unfold read_sheets, sheet_header_map. cbn [foldl].
  destruct (read c "Trend" 6) as [e1|trend] eqn:E1.
  { destruct e1 as [[?|]| |]; cbn;
      (exists [], "Trend", 6, [("Vh Harmonic %", 0); ("Ah Harmonic %", 0)];
       split; [reflexivity|]; split; [constructor|];
       eexists; split; [exact E1|reflexivity]). }
  destruct (read c "Vh Harmonic %" 0) as [e2|vh] eqn:E2.
  { destruct e2 as [[?|]| |]; cbn;
      (exists [("Trend", 6)], "Vh Harmonic %", 0, [("Ah Harmonic %", 0)];
       split; [reflexivity|]; split; [repeat constructor; eauto|];
       eexists; split; [exact E2|reflexivity]). }
  destruct (read c "Ah Harmonic %" 0) as [e3|ah] eqn:E3.
  { destruct e3 as [[?|]| |]; cbn;
      (exists [("Trend", 6); ("Vh Harmonic %", 0)], "Ah Harmonic %", 0, [];
       split; [reflexivity|]; split; [repeat constructor; eauto|];
       eexists; split; [exact E3|reflexivity]). }
  exists trend, vh, ah. repeat split.
Qed.

Lemma read_sheets_not_ValueError c message :
  read_sheets contents read_excel c ≠ inl (Engine (ValueError message)).
Proof.
  intros H. pose proof (read_sheets_cases c) as Hc. rewrite H in Hc.
  destruct Hc as (before & sheet_name & header_row & after & _ & _ & e' & _ & He).
  destruct e' as [[?|]| |]; discriminate He.
Qed.

Lemma read_sheets_complete c all_sheets :
  read_sheets contents read_excel c = inr all_sheets →
  is_Some (all_sheets !! "Trend") ∧ is_Some (all_sheets !! "Vh Harmonic %")
  ∧ is_Some (all_sheets !! "Ah Harmonic %").
Proof.
  intros H. pose proof (read_sheets_cases c) as Hc. rewrite H in Hc.
  destruct Hc as (trend & vh & ah & _ & _ & _ & ->).
  repeat split; eexists; reflexivity.
Qed.

(** X1. The endpoint answers with the results under the uploaded file's
    name, or with status 400, or with status 500, and with 400 exactly for
    a file name that does not end in [.xlsx] (before anything is read):
    every failure of reading or analysing, a missing worksheet included,
    is answered with 500, because the inner [HTTPException] and the
    engine's exceptions are caught by the [except Exception] handler, and
    the engine never gets a workbook that lacks a worksheet. *)
Theorem bad_request_only_for_file_type (filename : string) (c : contents)
    (nominal_voltage isc il : float) :
  match analyze_power_data contents read_excel filename c nominal_voltage isc il with
  | Answer name r =>
      name = filename ∧ endswith filename ".xlsx" = true
      ∧ ∃ all_sheets, read_sheets contents read_excel c = inr all_sheets
                      ∧ analyze_full_data all_sheets nominal_voltage isc il = Ok r
  | HTTPError status detail =>
      (status = 400 ∧ endswith filename ".xlsx" = false
       ∧ detail = Detail "Invalid file type. Please upload an .xlsx file.")
      ∨ (status = 500 ∧ endswith filename ".xlsx" = true
         ∧ ∃ e, detail = InternalServerError e
                ∧ ∀ message, e ≠ Engine (ValueError message))
  end.
Proof.
  unfold analyze_power_data.
  destruct (endswith filename ".xlsx") eqn:Hx; cbn [negb]; [|left; auto].
  destruct (read_sheets contents read_excel c) as [e|all_sheets] eqn:Hr.
  - destruct e as [[message|]|status detail|text].
    + exfalso. exact (read_sheets_not_ValueError c message Hr).
    + right. repeat split. eexists. split; [reflexivity|discriminate].
    + right. repeat split. eexists. split; [reflexivity|discriminate].
    + right. repeat split. eexists. split; [reflexivity|discriminate].
  - destruct (analyze_full_data all_sheets nominal_voltage isc il) as [r|e] eqn:Ha.
    + repeat split. exists all_sheets. auto.
    + destruct e as [message|].
      * exfalso. pose proof (analyze_full_data_outcome all_sheets nominal_voltage isc il) as Ho.
        rewrite Ha in Ho. destruct Ho as [_ Ho].
        destruct (read_sheets_complete c all_sheets Hr) as ([? H1] & [? H2] & [? H3]).
        destruct Ho as [Ho|[Ho|Ho]]; congruence.
      * right. repeat split. eexists. split; [reflexivity|discriminate].
Qed.

(** X2. When a worksheet cannot be found (the reader raises [ValueError]
    for it, having read the worksheets before it), a file named [.xlsx] is
    answered with status 500 whose detail wraps the [HTTPException] of
    status 400 that names the worksheet: the 400 never reaches the client. *)
Theorem missing_worksheet_answers_500 (filename : string) (c : contents)
    (nominal_voltage isc il : float) before sheet_name header_row after message :
  endswith filename ".xlsx" = true →
  sheet_header_map = before ++ (sheet_name, header_row) :: after →
  Forall (λ '(s, h), ∃ df, read c s h = inr df) before →
  read c sheet_name header_row = inl (Engine (ValueError message)) →
  analyze_power_data contents read_excel filename c nominal_voltage isc il
  = HTTPError 500
      (InternalServerError
         (HTTPException 400 ("Required worksheet '" +:+ sheet_name +:+ "' not found."))).
Proof.
  intros Hx Hmap Hbefore Hread.
  assert (Hr : read_sheets contents read_excel c
               = inl (HTTPException 400
                        ("Required worksheet '" +:+ sheet_name +:+ "' not found."))).
  { unfold read_sheets. rewrite Hmap. rewrite foldl_app.
    assert (Hb : ∃ sheets,
      foldl (λ (acc : raised + gmap string frame) '(sheet_name, header_row),
         match acc with
         | inl e => inl e
         | inr all_sheets =>
             match read c sheet_name header_row with
             | inr df => inr (<[sheet_name := df]> all_sheets)
             | inl (Engine (ValueError _)) =>
                 inl (HTTPException 400
                        ("Required worksheet '" +:+ sheet_name +:+ "' not found."))
             | inl e => inl e
             end
         end) (inr ∅) before = inr sheets).
    { generalize (∅ : gmap string frame). clear Hmap.
      induction Hbefore as [|[s h] before [df Hdf] _ IH]; intros start.
      - exists start. reflexivity.
      - cbn [foldl]. rewrite Hdf. apply IH. }
    destruct Hb as [sheets ->]. cbn [foldl]. rewrite Hread.
    clear. induction after as [|[s h] after IH]; [reflexivity|exact IH]. }
  unfold analyze_power_data. rewrite Hx, Hr. reflexivity.
Qed.

(** X3. A file named [.xlsx] is answered with results exactly when its
    three worksheets can be read and the trend sheet carries every charted
    channel; when they can be read and a charted channel is missing, the
    answer is status 500 wrapping the [AttributeError]. *)
Theorem answer_needs_every_channel (filename : string) (c : contents)
    (nominal_voltage isc il : float) :
  endswith filename ".xlsx" = true →
  ((∃ r, analyze_power_data contents read_excel filename c nominal_voltage isc il
         = Answer filename r)
   ↔ ∃ trend vh ah,
       read c "Trend" 6 = inr trend ∧ read c "Vh Harmonic %" 0 = inr vh
       ∧ read c "Ah Harmonic %" 0 = inr ah
       ∧ ∀ channel, channel ∈ charted_channels → is_Some (trend !! channel))
  ∧ (∀ trend vh ah channel,
       read c "Trend" 6 = inr trend → read c "Vh Harmonic %" 0 = inr vh →
       read c "Ah Harmonic %" 0 = inr ah →
       channel ∈ charted_channels → trend !! channel = None →
       analyze_power_data contents read_excel filename c nominal_voltage isc il
       = HTTPError 500 (InternalServerError (Engine AttributeError))).
Proof.
  intros Hx.
  assert (Hsheets : ∀ trend vh ah,
    read c "Trend" 6 = inr trend → read c "Vh Harmonic %" 0 = inr vh →
    read c "Ah Harmonic %" 0 = inr ah →
    read_sheets contents read_excel c
    = inr (<["Ah Harmonic %" := ah]>
             (<["Vh Harmonic %" := vh]> (<["Trend" := trend]> ∅)))).
  { intros trend vh ah H1 H2 H3. unfold read_sheets, sheet_header_map.
    cbn [foldl]. rewrite H1, H2, H3. reflexivity. }
  split; [split|].
  - intros [r Hr]. unfold analyze_power_data in Hr. rewrite Hx in Hr. cbn [negb] in Hr.
    destruct (read_sheets contents read_excel c) as [e|all_sheets] eqn:Hs.
    { destruct e as [[?|]| |]; discriminate Hr. }
    destruct (analyze_full_data all_sheets nominal_voltage isc il) as [r'|e] eqn:Ha.
    2: { destruct e; discriminate Hr. }
    pose proof (read_sheets_cases c) as Hc. rewrite Hs in Hc.
    destruct Hc as (trend & vh & ah & H1 & H2 & H3 & ->).
    exists trend, vh, ah. repeat split; try assumption.
    match type of Ha with
    | analyze_full_data ?m _ _ _ = _ =>
        pose proof (analyze_full_data_outcome m nominal_voltage isc il) as Ho
    end.
    rewrite Ha in Ho. destruct Ho as (df_trend & Ht & _ & _ & Hall).
    assert (df_trend = trend) as -> by (vm_compute in Ht; congruence).
    exact Hall.
  - intros (trend & vh & ah & H1 & H2 & H3 & Hall).
    unfold analyze_power_data. rewrite Hx, (Hsheets _ _ _ H1 H2 H3). cbn [negb].
    pose proof (analyze_full_data_outcome
                  (<["Ah Harmonic %" := ah]>
                     (<["Vh Harmonic %" := vh]> (<["Trend" := trend]> ∅)))
                  nominal_voltage isc il) as Ho.
    destruct (analyze_full_data _ nominal_voltage isc il) as [r|[message|]].
    + exists r. reflexivity.
    + destruct Ho as [_ [Ho|[Ho|Ho]]]; vm_compute in Ho; discriminate.
    + destruct Ho as (df_trend & channel & Ht & _ & _ & Hin & Hnone).
      assert (df_trend = trend) as -> by (vm_compute in Ht; congruence).
      destruct (Hall channel Hin) as [x Hsome]. congruence.
  - intros trend vh ah channel H1 H2 H3 Hin Hnone.
    unfold analyze_power_data. rewrite Hx, (Hsheets _ _ _ H1 H2 H3). cbn [negb].
    pose proof (analyze_full_data_outcome
                  (<["Ah Harmonic %" := ah]>
                     (<["Vh Harmonic %" := vh]> (<["Trend" := trend]> ∅)))
                  nominal_voltage isc il) as Ho.
    destruct (analyze_full_data _ nominal_voltage isc il) as [r|[message|]].
    + destruct Ho as (df_trend & Ht & _ & _ & Hall).
      assert (df_trend = trend) as -> by (vm_compute in Ht; congruence).
      destruct (Hall channel Hin) as [x Hsome]. congruence.
    + destruct Ho as [_ [Ho|[Ho|Ho]]]; vm_compute in Ho; discriminate.
    + reflexivity.
Qed.

End EndpointFacts.

Lemma missing_worksheet_answers_500_witness :
  analyze_power_data unit (workbook_reader trend_only_workbook) "site.xlsx" tt 400 1000 50
  = HTTPError 500
      (InternalServerError
         (HTTPException 400 "Required worksheet 'Vh Harmonic %' not found.")).
Proof.
  apply (missing_worksheet_answers_500 unit (workbook_reader trend_only_workbook)
           "site.xlsx" tt 400 1000 50 [("Trend", 6)] "Vh Harmonic %" 0
           [("Ah Harmonic %", 0)] "Worksheet named 'Vh Harmonic %' not found").
  - reflexivity.
  - reflexivity.
  - constructor; [|constructor]. exists bare_trend. reflexivity.
  - reflexivity.
Defined.

Lemma answer_needs_every_channel_witness :
  (∃ r, analyze_power_data unit (workbook_reader healthy_workbook) "site.xlsx" tt
          400 1000 50 = Answer "site.xlsx" r)
  ∧ analyze_power_data unit (workbook_reader (workbook bare_trend no_harmonics no_harmonics))
      "site.xlsx" tt 400 1000 50
    = HTTPError 500 (InternalServerError (Engine AttributeError)).
Proof.
  split.
  - apply (answer_needs_every_channel unit (workbook_reader healthy_workbook)
             "site.xlsx" tt 400 1000 50 eq_refl).
    exists (full_trend (constant "1000.0" 1000) (constant "1000.0" 1000)),
           no_harmonics, no_harmonics.
    split; [reflexivity|]. split; [reflexivity|]. split; [reflexivity|].
    apply Forall_forall. unfold charted_channels. cbn.
    repeat (constructor; [eexists; vm_compute; reflexivity|]). constructor.
  - apply (proj2 (answer_needs_every_channel unit
             (workbook_reader (workbook bare_trend no_harmonics no_harmonics))
             "site.xlsx" tt 400 1000 50 eq_refl)
             bare_trend no_harmonics no_harmonics "U2 RMS").
    + reflexivity.
    + reflexivity.
    + reflexivity.
    + unfold charted_channels. cbn. right. left.
    + reflexivity.
Defined.

(* ===================================================================== *)
(** * 27. The timestamp normalizer *)
(* ===================================================================== *)

Lemma keep_rows_length seen stamps : length (keep_rows seen stamps) = length stamps.
Proof.
  revert seen. induction stamps as [|[t|] stamps IH]; intros seen; simpl.
  - reflexivity.
  - destruct (bool_decide _); simpl; rewrite IH; reflexivity.
  - rewrite IH. reflexivity.
Qed.

(** A row is kept exactly when its instant parsed, is not among those seen
    before the table, and appears in no earlier row. *)
Lemma keep_rows_true seen stamps i :
  keep_rows seen stamps !! i = Some true ↔
  ∃ t, stamps !! i = Some (Some t) ∧ (t ∉ seen)
       ∧ ∀ j, (j < i)%nat → stamps !! j ≠ Some (Some t).
Proof.
  revert seen i. induction stamps as [|stamp stamps IH]; intros seen i.
  - simpl. rewrite lookup_nil. split; [discriminate|].
    intros (t & H & _). rewrite lookup_nil in H. discriminate.
  - destruct stamp as [t0|]; simpl.
    + destruct (bool_decide (t0 ∈ seen)) eqn:Hseen.
      * apply bool_decide_eq_true_1 in Hseen. destruct i as [|i]; simpl.
        -- split; [discriminate|]. intros (t & H & Hn & _).
           injection H as ->. contradiction.
        -- rewrite IH. split.
           ++ intros (t & H & Hn & Hj). exists t. repeat split; try assumption.
              intros [|j] Hlt; simpl.
              ** intros [= ->]. contradiction.
              ** apply Hj. lia.
           ++ intros (t & H & Hn & Hj). exists t. repeat split; try assumption.
              intros j Hlt. apply (Hj (S j)). lia.
      * apply bool_decide_eq_false_1 in Hseen. destruct i as [|i]; simpl.
        -- split; [|reflexivity]. intros _. exists t0.
           repeat split; [assumption|]. intros j Hj. lia.
        -- rewrite IH. split.
           ++ intros (t & H & Hn & Hj). exists t.
              apply not_elem_of_cons in Hn as [Hne Hn].
              repeat split; try assumption.
              intros [|j] Hlt; simpl.
              ** intros [= ->]. contradiction.
              ** apply Hj. lia.
           ++ intros (t & H & Hn & Hj). exists t. repeat split; try assumption.
              ** apply not_elem_of_cons. split; [|assumption].
                 intros ->. apply (Hj 0%nat); [lia|reflexivity].
              ** intros j Hlt. apply (Hj (S j)). lia.
    + destruct i as [|i]; simpl.
      * split; [discriminate|]. intros (t & H & _). discriminate.
      * rewrite IH. split.
        -- intros (t & H & Hn & Hj). exists t. repeat split; try assumption.
           intros [|j] Hlt; simpl; [discriminate|]. apply Hj. lia.
        -- intros (t & H & Hn & Hj). exists t. repeat split; try assumption.
           intros j Hlt. apply (Hj (S j)). lia.
Qed.

(** The selected rows, by position. *)
Lemma select_lookup {A} (mask : list bool) (column : list A) k i :
  nth_kept mask k = Some i → select mask column !! k = column !! i.
Proof.
  revert column k i. induction mask as [|keep mask IH]; intros column k i H.
  - discriminate.
  - destruct column as [|x column].
    + destruct keep; simpl; rewrite !lookup_nil; reflexivity.
    + destruct keep; simpl in *.
      * destruct k as [|k].
        -- injection H as <-. reflexivity.
        -- destruct (nth_kept mask k) as [i'|] eqn:E; [|discriminate].
           injection H as <-. simpl. apply IH, E.
      * destruct (nth_kept mask k) as [i'|] eqn:E; [|discriminate].
        injection H as <-. simpl. apply IH, E.
Qed.

Lemma nth_kept_true mask k i : nth_kept mask k = Some i → mask !! i = Some true.
Proof.
  revert k i. induction mask as [|keep mask IH]; intros k i H; [discriminate|].
  destruct keep; simpl in H.
  - destruct k as [|k].
    + injection H as <-. reflexivity.
    + destruct (nth_kept mask k) as [i'|] eqn:E; [|discriminate].
      injection H as <-. simpl. eapply IH, E.
  - destruct (nth_kept mask k) as [i'|] eqn:E; [|discriminate].
    injection H as <-. simpl. eapply IH, E.
Qed.

Lemma nth_kept_select {A} (mask : list bool) (column : list A) k :
  (length mask ≤ length column)%nat →
  is_Some (select mask column !! k) → is_Some (nth_kept mask k).
Proof.
  revert column k. induction mask as [|keep mask IH]; intros column k Hlen H.
  - destruct H as [x H]. destruct column; simpl in H; rewrite lookup_nil in H; discriminate.
  - destruct column as [|x column]; [simpl in Hlen; lia|]. simpl in Hlen.
    destruct keep; simpl in *.
    + destruct k as [|k]; [eexists; reflexivity|]. simpl in H.
      destruct (IH column k) as [i Hi]; [lia|assumption|]. rewrite Hi. eexists; reflexivity.
    + destruct (IH column k) as [i Hi]; [lia|assumption|]. rewrite Hi. eexists; reflexivity.
Qed.

(** The instants of the selected rows: all of them parsed. *)
Lemma kept_instants seen stamps :
  (Some <$> omap id (select (keep_rows seen stamps) stamps))
  = select (keep_rows seen stamps) stamps.
Proof.
  revert seen. induction stamps as [|[t|] stamps IH]; intros seen; simpl.
  - reflexivity.
  - destruct (bool_decide _); simpl; [apply IH|]. rewrite IH. reflexivity.
  - apply IH.
Qed.

Lemma select_length {A B} (mask : list bool) (l1 : list A) (l2 : list B) :
  length l1 = length l2 → length (select mask l1) = length (select mask l2).
Proof.
  revert l1 l2. induction mask as [|keep mask IH]; intros l1 l2 H.
  - destruct l1, l2; reflexivity.
  - destruct l1, l2; try discriminate; [destruct keep; reflexivity|].
    injection H as H. destruct keep; simpl; [f_equal|]; apply IH, H.
Qed.

Lemma keep_rows_NoDup seen stamps :
  NoDup (omap id (select (keep_rows seen stamps) stamps))
  ∧ ∀ t, t ∈ omap id (select (keep_rows seen stamps) stamps) → t ∉ seen.
Proof.
  revert seen. induction stamps as [|[t0|] stamps IH]; intros seen; simpl.
  - split; [constructor|]. intros t H. apply elem_of_nil in H. contradiction.
  - destruct (bool_decide (t0 ∈ seen)) eqn:Hseen; [apply IH|].
    apply bool_decide_eq_false_1 in Hseen. simpl.
    destruct (IH (t0 :: seen)) as [Hnd Hnot]. split.
    + constructor; [|assumption]. intros Hin. apply Hnot in Hin.
      apply Hin. left.
    + intros t Hin. apply elem_of_cons in Hin as [->|Hin]; [assumption|].
      apply Hnot in Hin. intros Hs. apply Hin. right. assumption.
  - apply IH.
Qed.

Lemma kept_instants_complete seen stamps t :
  Some t ∈ stamps → t ∈ seen ∨ t ∈ omap id (select (keep_rows seen stamps) stamps).
Proof.
  revert seen. induction stamps as [|[t0|] stamps IH]; intros seen Hin.
  - apply elem_of_nil in Hin. contradiction.
  - simpl. apply elem_of_cons in Hin as [[= ->]|Hin].
    + destruct (bool_decide (t0 ∈ seen)) eqn:Hseen.
      * left. apply bool_decide_eq_true_1 in Hseen. exact Hseen.
      * right. simpl. left.
    + destruct (bool_decide (t0 ∈ seen)) eqn:Hseen.
      * apply IH, Hin.
      * destruct (IH (t0 :: seen) Hin) as [Hs|Hs].
        -- apply elem_of_cons in Hs as [->|Hs]; [right; simpl; left|left; assumption].
        -- right. simpl. right. assumption.
  - simpl. apply elem_of_cons in Hin as [Hin|Hin]; [discriminate|]. apply IH, Hin.
Qed.

Lemma kept_instants_sound mask (stamps : list (option Z)) t :
  t ∈ omap id (select mask stamps) → Some t ∈ stamps.
Proof.
  revert stamps. induction mask as [|keep mask IH]; intros stamps Hin.
  - destruct stamps; simpl in Hin; apply elem_of_nil in Hin; contradiction.
  - destruct stamps as [|stamp stamps]; [destruct keep; simpl in Hin; apply elem_of_nil in Hin; contradiction|].
    destruct keep; simpl in Hin.
    + destruct stamp as [t0|]; simpl in Hin.
      * apply elem_of_cons in Hin as [->|Hin]; [left|right; apply IH, Hin].
      * right. apply IH, Hin.
    + right. apply IH, Hin.
Qed.

(** X4. The cleaned trend table. Its index lists every instant that some
    row parsed to, each once; the [k]-th row of the cleaned table is the
    first row of the worksheet that carries the [k]-th instant, in every
    column (of the worksheet's length); and each column has as many rows
    as the index. *)
Theorem cleaning_keeps_first_rows (df_trend : frame) :
  let clean_df := clean_trend df_trend in
  let stamps := timestamps df_trend in
  NoDup (cf_index clean_df)
  ∧ (∀ t, t ∈ cf_index clean_df ↔ Some t ∈ stamps)
  ∧ (∀ k t, cf_index clean_df !! k = Some t →
       ∃ i, nth_kept (keep_rows [] stamps) k = Some i
            ∧ stamps !! i = Some (Some t)
            ∧ (∀ j, (j < i)%nat → stamps !! j ≠ Some (Some t))
            ∧ ∀ col column, col ≠ "Timestamp" → df_trend !! col = Some column →
                ∃ cleaned, cf_columns clean_df !! col = Some cleaned
                           ∧ cleaned !! k = column !! i)
  ∧ (∀ col column cleaned,
       df_trend !! col = Some column → length column = length stamps →
       cf_columns clean_df !! col = Some cleaned →
       length cleaned = length (cf_index clean_df)).
Proof.
  intros clean_df stamps. unfold clean_df, clean_trend. cbn [cf_index cf_columns].
  fold stamps. split; [|split; [|split]].
  - apply keep_rows_NoDup.
  - intros t. split.
    + apply kept_instants_sound.
    + intros Hin. destruct (kept_instants_complete [] stamps t Hin) as [H|H]; [|exact H].
      apply elem_of_nil in H. contradiction.
  - intros k t Hk.
    assert (Hsel : select (keep_rows [] stamps) stamps !! k = Some (Some t)).
    { rewrite <- kept_instants, list_lookup_fmap, Hk. reflexivity. }
    destruct (nth_kept_select (keep_rows [] stamps) stamps k) as [i Hi].
    { rewrite keep_rows_length. lia. }
    { eexists; exact Hsel. }
    exists i. split; [exact Hi|].
    rewrite (select_lookup _ _ _ _ Hi) in Hsel.
    pose proof (nth_kept_true _ _ _ Hi) as Htrue.
    apply keep_rows_true in Htrue as (t' & Ht' & _ & Hfirst).
    assert (t' = t) as -> by congruence.
    split; [exact Hsel|]. split; [exact Hfirst|].
    intros col column Hcol Hdf. exists (select (keep_rows [] stamps) column).
    split; [|apply select_lookup, Hi].
    rewrite lookup_fmap, lookup_delete_ne by congruence. rewrite Hdf. reflexivity.
  - intros col column cleaned Hdf Hlen Hclean.
    destruct (decide (col = "Timestamp")) as [->|Hne].
    { rewrite lookup_fmap, lookup_delete_eq in Hclean. discriminate. }
    rewrite lookup_fmap, lookup_delete_ne, Hdf in Hclean by congruence.
    injection Hclean as <-.
    rewrite (select_length _ column stamps Hlen).
    rewrite <- (kept_instants [] stamps) at 1. rewrite length_fmap. reflexivity.
Qed.

(* ===================================================================== *)
(** * 28. The trend series of the report *)
(* ===================================================================== *)

Lemma for_each_Forall2 {A B} (f : A → result B) (l : list A) ys :
  for_each f l = Ok ys → Forall2 (λ x y, f x = Ok y) l ys.
Proof.
  revert ys. induction l as [|x l IH]; intros ys H; simpl in H.
  - injection H as <-. constructor.
  - destruct (f x) as [y|] eqn:E; [|discriminate H]. simpl in H.
    destruct (for_each f l) as [ys'|] eqn:E'; [|discriminate H]. simpl in H.
    injection H as <-. constructor; [exact E|]. apply IH. reflexivity.
Qed.

Lemma fillna_no_nan (l : list float) : Forall (λ x, isnan x = false) (fillna 0 l).
Proof.
  unfold fillna. apply Forall_fmap, Forall_forall. intros x _. simpl.
  destruct (isnan x) eqn:E; [reflexivity|exact E].
Qed.

Lemma fillna_id (l : list float) :
  Forall (λ x, isnan x = false) l → fillna 0 l = l.
Proof.
  unfold fillna. induction 1 as [|x l Hx _ IH]; [reflexivity|].
  cbn [fmap list_fmap]. rewrite Hx. f_equal. exact IH.
Qed.

(** The trailing [fillna(0)] of [series_to_json_list] changes nothing. *)
Lemma series_to_json_list_Ok clean_df col_name values :
  series_to_json_list clean_df col_name = Ok values ↔
  ∃ column, cf_columns clean_df !! col_name = Some column
            ∧ values = to_numeric_safe column.
Proof.
  unfold series_to_json_list.
  destruct (cf_columns clean_df !! col_name) as [column|].
  - rewrite (fillna_id (to_numeric_safe column)) by apply fillna_no_nan.
    split.
    + intros [= <-]. eauto.
    + intros (column' & [= <-] & ->). reflexivity.
  - split; [discriminate|]. intros (column & H & _). discriminate.
Qed.

Lemma Forall2_keys {A B} (R : (string * A) → (string * B) → Prop)
    (l : list (string * A)) (k : list (string * B)) :
  (∀ x y, R x y → y.1 = x.1) → Forall2 R l k → k.*1 = l.*1.
Proof.
  intros HR. induction 1 as [|x y l k Hxy _ IH]; [reflexivity|].
  cbn [fmap list_fmap]. rewrite (HR _ _ Hxy). f_equal. exact IH.
Qed.

Lemma trend_groups_NoDup :
  NoDup (trend_groups.*1) ∧ Forall (λ gc, NoDup gc.2) trend_groups.
Proof.
  split.
  - apply (bool_decide_unpack _). vm_compute. reflexivity.
  - unfold trend_groups.
    repeat (constructor; [apply (bool_decide_unpack _); vm_compute; reflexivity|]).
    constructor.
Qed.

(** The chart that [build_trend_data] returns: the instants of the index
    as texts and, for every charted channel and no other, the numeric
    reading of its cleaned column. *)
Lemma build_trend_data_Ok clean_df chart :
  build_trend_data clean_df = Ok chart →
  timestamps_list chart = strftime <$> cf_index clean_df
  ∧ (∀ group channels channel,
       (group, channels) ∈ trend_groups → channel ∈ channels →
       ∃ g column, trend_series chart !! group = Some g
                   ∧ cf_columns clean_df !! channel = Some column
                   ∧ g !! channel = Some (to_numeric_safe column))
  ∧ (∀ group g channel values,
       trend_series chart !! group = Some g → g !! channel = Some values →
       ∃ channels column,
         (group, channels) ∈ trend_groups ∧ channel ∈ channels
         ∧ cf_columns clean_df !! channel = Some column
         ∧ values = to_numeric_safe column).
Proof.
  unfold build_trend_data. intros H.
  match type of H with
  | context [for_each ?F trend_groups] =>
      set (per_group := F) in *;
      destruct (for_each per_group trend_groups) as [groups|] eqn:E;
      [|discriminate H]
  end.
  simpl in H. injection H as <-. cbn [timestamps_list trend_series].
  apply for_each_Forall2 in E.
  assert (Hgroup : ∀ group channels y,
    per_group (group, channels) = Ok y →
    ∃ series, y = (group, list_to_map series)
              ∧ Forall2 (λ col cv, cv.1 = col
                                   ∧ series_to_json_list clean_df col = Ok cv.2)
                        channels series).
  { intros group channels y Hy. unfold per_group in Hy.
    match type of Hy with
    | context [for_each ?G channels] =>
        destruct (for_each G channels) as [series|] eqn:Es; [|discriminate Hy];
        apply for_each_Forall2 in Es
    end.
    simpl in Hy. injection Hy as <-. exists series. split; [reflexivity|].
    eapply Forall2_impl; [exact Es|]. intros col [c v] Hcv. simpl in Hcv.
    destruct (series_to_json_list clean_df col) as [values|]; [|discriminate Hcv].
    simpl in Hcv. injection Hcv as <- <-. split; reflexivity. }
  assert (Hkeys : groups.*1 = trend_groups.*1).
  { eapply Forall2_keys; [|exact E]. intros [group channels] y Hy.
    apply Hgroup in Hy as (series & -> & _). reflexivity. }
  destruct trend_groups_NoDup as [Hnd Hnds].
  split; [reflexivity|]. split.
  - intros group channels channel Hin Hch.
    apply list_elem_of_lookup_1 in Hin as [i Hi].
    destruct (Forall2_lookup_l _ _ _ _ _ E Hi) as (y & Hy & Hper).
    apply Hgroup in Hper as (series & -> & Hseries).
    apply list_elem_of_lookup_1 in Hch as [j Hj].
    destruct (Forall2_lookup_l _ _ _ _ _ Hseries Hj) as ([c values] & Hcv & Hc & Hv).
    simpl in Hc, Hv. subst c.
    apply series_to_json_list_Ok in Hv as (column & Hcol & ->).
    exists (list_to_map series), column. split; [|split; [exact Hcol|]].
    + apply elem_of_list_to_map_1; [rewrite Hkeys; exact Hnd|].
      eapply list_elem_of_lookup_2, Hy.
    + apply elem_of_list_to_map_1.
      * assert (series.*1 = channels) as ->.
        { clear -Hseries. induction Hseries as [|col cv channels series [Hc _] _ IH];
            [reflexivity|]. cbn [fmap list_fmap]. rewrite Hc. f_equal. exact IH. }
        rewrite Forall_forall in Hnds.
        apply (Hnds (group, channels)). eapply list_elem_of_lookup_2, Hi.
      * eapply list_elem_of_lookup_2, Hcv.
  - intros group g channel values Hg Hv.
    apply elem_of_list_to_map_2 in Hg.
    apply list_elem_of_lookup_1 in Hg as [i Hi].
    destruct (Forall2_lookup_r _ _ _ _ _ E Hi) as ([grp channels] & Hx & Hper).
    apply Hgroup in Hper as (series & [= <- ->] & Hseries).
    apply elem_of_list_to_map_2 in Hv.
    apply list_elem_of_lookup_1 in Hv as [j Hj].
    destruct (Forall2_lookup_r _ _ _ _ _ Hseries Hj) as (col & Hcol & Hc & Hvals).
    simpl in Hc, Hvals. subst col.
    apply series_to_json_list_Ok in Hvals as (column & Hcolumn & ->).
    exists channels, column. repeat split.
    + eapply list_elem_of_lookup_2, Hx.
    + eapply list_elem_of_lookup_2, Hcol.
    + exact Hcolumn.
Qed.

Lemma to_numeric_safe_length cells : length (to_numeric_safe cells) = length cells.
Proof. unfold to_numeric_safe, fillna, to_numeric. rewrite !length_fmap. reflexivity. Qed.

Lemma timestamps_length df_trend n :
  (∀ col column, df_trend !! col = Some column → length column = n) →
  timestamps df_trend = [] ∨ length (timestamps df_trend) = n.
Proof.
  intros Hn. unfold timestamps.
  destruct (df_trend !! "Date") as [dates|] eqn:Hd; [|left; reflexivity].
  destruct (df_trend !! "Time") as [times|] eqn:Ht; [|left; reflexivity].
  right. rewrite length_zip_with, !length_fmap, (Hn _ _ Hd), (Hn _ _ Ht). lia.
Qed.

Lemma select_nil {A} (column : list A) : select [] column = [].
Proof. destruct column; reflexivity. Qed.

Lemma clean_column_length df_trend n col cleaned :
  (∀ col column, df_trend !! col = Some column → length column = n) →
  cf_columns (clean_trend df_trend) !! col = Some cleaned →
  length cleaned = length (cf_index (clean_trend df_trend)).
Proof.
  intros Hn Hc. unfold clean_trend in *. cbn [cf_index cf_columns] in *.
  destruct (decide (col = "Timestamp")) as [->|Hne].
  { rewrite lookup_fmap, lookup_delete_eq in Hc. discriminate. }
  rewrite lookup_fmap, lookup_delete_ne in Hc by congruence.
  destruct (df_trend !! col) as [column|] eqn:Hcol; [|discriminate].
  injection Hc as <-.
  destruct (timestamps_length df_trend n Hn) as [Hs|Hs].
  - rewrite Hs. cbn [keep_rows]. rewrite !select_nil. reflexivity.
  - rewrite (select_length _ column (timestamps df_trend)).
    + rewrite <- (kept_instants [] (timestamps df_trend)) at 1.
      rewrite length_fmap. reflexivity.
    + rewrite (Hn _ _ Hcol), Hs. reflexivity.
Qed.

(** X5. In a report, [trend_data] holds the instants of the cleaned table
    as texts and, for every charted channel and for nothing else, the
    cleaned column read as numbers with 0 for what is no number; no series
    holds a NaN (the second [fillna] finds none to replace). *)
Theorem trend_series_are_channel_readings (dfs : gmap string frame)
    (nominal_voltage isc il : float) (r : report) :
  analyze_full_data dfs nominal_voltage isc il = Ok r →
  ∃ df_trend,
    dfs !! "Trend" = Some df_trend
    ∧ timestamps_list (trend_data r) = strftime <$> cf_index (clean_trend df_trend)
    ∧ (∀ group channels channel,
         (group, channels) ∈ trend_groups → channel ∈ channels →
         ∃ g column,
           trend_series (trend_data r) !! group = Some g
           ∧ cf_columns (clean_trend df_trend) !! channel = Some column
           ∧ g !! channel = Some (to_numeric_safe column))
    ∧ (∀ group g channel values,
         trend_series (trend_data r) !! group = Some g →
         g !! channel = Some values →
         (∃ channels column,
            (group, channels) ∈ trend_groups ∧ channel ∈ channels
            ∧ cf_columns (clean_trend df_trend) !! channel = Some column
            ∧ values = to_numeric_safe column)
         ∧ Forall (λ x, isnan x = false) values).
Proof.
  intros H. analyze_inversion H. cbn [trend_data].
  exists df_trend. split; [reflexivity|].
  destruct (build_trend_data_Ok _ _ Hchart) as (Hts & Hall & Honly).
  split; [exact Hts|]. split; [exact Hall|].
  intros group g channel values Hg Hv.
  destruct (Honly group g channel values Hg Hv) as (channels & column & H1 & H2 & H3 & ->).
  split; [eauto 10|]. apply fillna_no_nan.
Qed.

(** X6. When the columns of the trend sheet have one length, every series
    of [trend_data] has as many values as there are timestamps. *)
Theorem trend_series_align_with_timestamps (dfs : gmap string frame)
    (nominal_voltage isc il : float) (r : report) (trend : frame) (n : nat) :
  analyze_full_data dfs nominal_voltage isc il = Ok r →
  dfs !! "Trend" = Some trend →
  (∀ col column, trend !! col = Some column → length column = n) →
  ∀ group g channel values,
    trend_series (trend_data r) !! group = Some g →
    g !! channel = Some values →
    length values = length (timestamps_list (trend_data r)).
Proof.
  intros H Ht Hn group g channel values Hg Hv.
  analyze_inversion H. cbn [trend_data] in *.
  assert (df_trend = trend) as -> by congruence.
  destruct (build_trend_data_Ok _ _ Hchart) as (Hts & _ & Honly).
  destruct (Honly group g channel values Hg Hv) as (channels & column & _ & _ & Hc & ->).
  rewrite Hts, length_fmap, to_numeric_safe_length.
  eapply clean_column_length; eassumption.
Qed.

Lemma trend_series_are_channel_readings_witness :
  ∃ r df_trend,
    analyze_full_data healthy_workbook 400 1000 50 = Ok r
    ∧ healthy_workbook !! "Trend" = Some df_trend
    ∧ timestamps_list (trend_data r) = strftime <$> cf_index (clean_trend df_trend).
Proof.
  destruct (returns_Ok (analyze_full_data healthy_workbook 400 1000 50)) as [r E];
    [vm_compute; reflexivity|].
  destruct (trend_series_are_channel_readings healthy_workbook 400 1000 50 r E)
    as (df_trend & H1 & H2 & _).
  exists r, df_trend. split; [exact E|]. split; [exact H1|exact H2].
Defined.

Lemma trend_series_align_with_timestamps_witness :
  ∃ r, analyze_full_data healthy_workbook 400 1000 50 = Ok r
       ∧ ∀ group g channel values,
           trend_series (trend_data r) !! group = Some g →
           g !! channel = Some values →
           length values = length (timestamps_list (trend_data r)).
Proof.
  destruct (returns_Ok (analyze_full_data healthy_workbook 400 1000 50)) as [r E];
    [vm_compute; reflexivity|].
  exists r. split; [exact E|].
  apply (trend_series_align_with_timestamps healthy_workbook 400 1000 50 r
           (full_trend (constant "1000.0" 1000) (constant "1000.0" 1000)) 3 E).
  - reflexivity.
  - assert (Hall : map_Forall (λ (_ : string) (column : list cell),
                                 List.length column = 3%nat)
                     (full_trend (constant "1000.0" 1000) (constant "1000.0" 1000))).
    { apply (bool_decide_unpack _). vm_compute. reflexivity. }
    exact Hall.
Defined.

(* ===================================================================== *)
(** * 29. Verdicts and failing points *)
(* ===================================================================== *)

Lemma add_failing_point_present c d p h fps :
  is_Some (add_failing_point c d p h fps !! c).
Proof. unfold add_failing_point. rewrite lookup_insert_eq. eexists; reflexivity. Qed.

Lemma add_failing_point_keeps c d p h fps c' :
  is_Some (fps !! c') → is_Some (add_failing_point c d p h fps !! c').
Proof.
  intros H. destruct (decide (c = c')) as [<-|Hne].
  - apply add_failing_point_present.
  - rewrite lookup_add_ne by assumption. exact H.
Qed.

Lemma keeps_consistent_id cats : keeps_consistent cats (λ st, st).
Proof. intros st H. exact H. Qed.

Lemma keeps_consistent_violation cats category description phase :
  category ∈ cats → keeps_consistent cats (violation category description phase).
Proof.
  intros Hin st _. left. split; [reflexivity|].
  exists category. split; [exact Hin|]. apply add_failing_point_present.
Qed.

Lemma keeps_consistent_compose cats f g :
  keeps_consistent cats f → keeps_consistent cats g →
  keeps_consistent cats (λ st, g (f st)).
Proof. intros Hf Hg st H. apply Hg, Hf, H. Qed.

Lemma keeps_consistent_if cats (b : bool) f g :
  keeps_consistent cats f → keeps_consistent cats g →
  keeps_consistent cats (λ st, if b then f st else g st).
Proof. intros Hf Hg st H. destruct b; [apply Hf|apply Hg]; exact H. Qed.

Lemma keeps_consistent_check_voltage_thd cats limits percentiles phase :
  "Voltage THD" ∈ cats →
  keeps_consistent cats (λ st, check_voltage_thd limits percentiles st phase).
Proof.
  intros Hin. unfold check_voltage_thd.
  apply (keeps_consistent_compose cats
           (λ st, if gt _ _ then violation _ _ _ st else st)
           (λ st, if gt _ _ then violation _ _ _ st else st));
    apply keeps_consistent_if;
    auto using keeps_consistent_id, keeps_consistent_violation.
Qed.

Lemma keeps_consistent_check_tdd cats row tdd_value :
  "Current TDD" ∈ cats → keeps_consistent cats (check_tdd row tdd_value).
Proof.
  intros Hin. unfold check_tdd.
  apply (keeps_consistent_if cats _ (violation _ _ _) (λ st, st));
    auto using keeps_consistent_id, keeps_consistent_violation.
Qed.

Lemma keeps_consistent_check_current_thd cats row percentiles phase :
  "Current THD" ∈ cats →
  keeps_consistent cats (λ st, check_current_thd row percentiles st phase).
Proof.
  intros Hin. unfold check_current_thd.
  apply (keeps_consistent_compose cats
           (λ st, (λ st, if gt _ _ then violation _ _ _ st else st)
                    ((λ st, if gt _ _ then violation _ _ _ st else st) st))
           (λ st, if gt _ _ then violation _ _ _ st else st)).
  - apply (keeps_consistent_compose cats
             (λ st, if gt _ _ then violation _ _ _ st else st)
             (λ st, if gt _ _ then violation _ _ _ st else st));
      apply keeps_consistent_if;
      auto using keeps_consistent_id, keeps_consistent_violation.
  - apply keeps_consistent_if;
      auto using keeps_consistent_id, keeps_consistent_violation.
Qed.

Lemma keeps_consistent_check_harmonic cats prefix category limit percentiles h :
  category ∈ cats →
  keeps_consistent cats (λ st, check_harmonic prefix category limit percentiles st h).
Proof.
  intros Hin st H. rewrite check_harmonic_spec. cbv zeta.
  destruct (failed_phases prefix limit percentiles h); [exact H|].
  left. split; [reflexivity|]. exists category. split; [exact Hin|].
  apply add_failing_point_present.
Qed.

Lemma keeps_consistent_run cats checks :
  Forall (keeps_consistent cats) checks → keeps_consistent cats (run checks).
Proof.
  unfold run. induction 1 as [|check checks Hc _ IH]; intros st H; simpl.
  - exact H.
  - apply IH, Hc, H.
Qed.

Lemma keeps_consistent_evaluate_voltage table percentiles df :
  keeps_consistent voltage_categories (evaluate_voltage table percentiles df).
Proof.
  intros st H. rewrite evaluate_voltage_run. revert st H.
  apply keeps_consistent_run. unfold voltage_checks.
  destruct table as [limits|]; [|constructor].
  apply Forall_app. split; apply Forall_fmap, Forall_forall; intros x _.
  - apply keeps_consistent_check_voltage_thd. left.
  - apply (keeps_consistent_check_harmonic voltage_categories "V"). right. left.
Qed.

Lemma keeps_consistent_evaluate_current row tdd_value percentiles df :
  keeps_consistent current_categories (evaluate_current row tdd_value percentiles df).
Proof.
  intros st H. rewrite evaluate_current_run. revert st H.
  apply keeps_consistent_run. unfold current_checks.
  destruct row as [row|]; [|constructor].
  apply Forall_app. split; [|apply Forall_app; split].
  - constructor; [|constructor]. apply keeps_consistent_check_tdd. left.
  - apply Forall_fmap, Forall_forall; intros x _.
    apply keeps_consistent_check_current_thd. right. left.
  - apply Forall_fmap, Forall_forall; intros x _.
    apply (keeps_consistent_check_harmonic current_categories "A"). right. right. left.
Qed.

Lemma recorded_from_keys cats start fps category :
  recorded_from cats start fps → is_Some (fps !! category) →
  category ∈ cats ∨ is_Some (start !! category).
Proof.
  induction 1 as [|c d p fps Hin _ IH]; intros H; [right; exact H|].
  destruct (decide (c = category)) as [<-|Hne]; [left; exact Hin|].
  rewrite lookup_add_ne in H by assumption. apply IH, H.
Qed.

Lemma consistent_iff cats st :
  consistent cats st →
  (compliance st = "Pass" ∨ compliance st = "Fail")
  ∧ (compliance st = "Fail" ↔ ∃ cat, cat ∈ cats ∧ is_Some (failing st !! cat)).
Proof.
  intros [[Hf Hex]|[Hp Hnone]].
  - split; [right; exact Hf|]. split; [intros _; exact Hex|intros _; exact Hf].
  - split; [left; exact Hp|]. split.
    + rewrite Hp. discriminate.
    + intros (cat & Hin & [x Hx]). rewrite (Hnone cat Hin) in Hx. discriminate.
Qed.

(** X7. In a report each verdict is "Pass" or "Fail", and it is "Fail"
    exactly when a failing point is recorded under one of its categories;
    failing points are recorded under no other category than these five. *)
Theorem verdicts_match_failing_points (dfs : gmap string frame)
    (nominal_voltage isc il : float) (r : report) :
  analyze_full_data dfs nominal_voltage isc il = Ok r →
  (voltage_compliance r = "Pass" ∨ voltage_compliance r = "Fail")
  ∧ (voltage_compliance r = "Fail" ↔
     ∃ cat, cat ∈ voltage_categories ∧ is_Some (failing_points r !! cat))
  ∧ (current_compliance r = "Pass" ∨ current_compliance r = "Fail")
  ∧ (current_compliance r = "Fail" ↔
     ∃ cat, cat ∈ current_categories ∧ is_Some (failing_points r !! cat))
  ∧ (∀ cat, is_Some (failing_points r !! cat) →
            cat ∈ voltage_categories ∨ cat ∈ current_categories).
Proof.
  intros H. analyze_inversion H.
  cbn [voltage_compliance current_compliance failing_points].
  set (vst := evaluate_voltage _ _ _ _).
  set (cst := evaluate_current _ _ _ _ _).
  assert (Hv : consistent voltage_categories vst).
  { apply keeps_consistent_evaluate_voltage. right. split; [reflexivity|].
    intros cat _. apply lookup_empty. }
  assert (Hrv : recorded_from voltage_categories ∅ (failing vst)).
  { apply (records_in_evaluate_voltage _ _ _ {| compliance := "Pass"; failing := ∅ |}). }
  assert (Hrc : recorded_from current_categories (failing vst) (failing cst)).
  { apply (records_in_evaluate_current _ _ _ _
             {| compliance := "Pass"; failing := failing vst |}). }
  assert (Hc : consistent current_categories cst).
  { apply keeps_consistent_evaluate_current. right. split; [reflexivity|].
    intros cat Hin. cbn [failing].
    rewrite (recorded_from_other _ _ _ cat Hrv); [apply lookup_empty|].
    intros Hv'. revert Hin Hv'. unfold current_categories, voltage_categories.
    rewrite !elem_of_cons, !elem_of_nil.
    intros [->|[->|[->|[]]]] [?|[?|[]]]; discriminate. }
  assert (Hsame : ∀ cat, cat ∈ voltage_categories →
                         failing cst !! cat = failing vst !! cat).
  { intros cat Hin. apply (recorded_from_other _ _ _ cat Hrc).
    intros Hc'. revert Hin Hc'. unfold current_categories, voltage_categories.
    rewrite !elem_of_cons, !elem_of_nil.
    intros [->|[->|[]]] [?|[?|[?|[]]]]; discriminate. }
  apply consistent_iff in Hv as [Hv1 Hv2]. apply consistent_iff in Hc as [Hc1 Hc2].
  split; [exact Hv1|]. split; [|split; [exact Hc1|split; [exact Hc2|]]].
  - rewrite Hv2. split; intros (cat & Hin & Hs); exists cat; (split; [exact Hin|]).
    + rewrite Hsame by exact Hin. exact Hs.
    + rewrite <- Hsame by exact Hin. exact Hs.
  - intros cat Hs.
    destruct (recorded_from_keys _ _ _ cat Hrc Hs) as [Hin|Hs']; [right; exact Hin|].
    destruct (recorded_from_keys _ _ _ cat Hrv Hs') as [Hin|[x Hx]]; [left; exact Hin|].
    rewrite lookup_empty in Hx. discriminate.
Qed.

Lemma verdicts_match_failing_points_witness :
  ∃ r, analyze_full_data distorted_workbook 400 1000 50 = Ok r
       ∧ (voltage_compliance r = "Fail" ↔
          ∃ cat, cat ∈ voltage_categories ∧ is_Some (failing_points r !! cat)).
Proof.
  destruct (returns_Ok (analyze_full_data distorted_workbook 400 1000 50)) as [r E];
    [vm_compute; reflexivity|].
  exists r. split; [exact E|].
  exact (proj1 (proj2 (verdicts_match_failing_points _ _ _ _ _ E))).
Defined.

(** ** The failing-points collection as an algebra *)

Lemma append_new_idem s l : append_new s (append_new s l) = append_new s l.
Proof.
  destruct s as [x|]; [|reflexivity]. unfold append_new.
  destruct (truthy (Some x) && negb (bool_decide (x ∈ l))) eqn:E.
  - assert (bool_decide (x ∈ l ++ [x]) = true) as ->.
    { apply bool_decide_eq_true_2, elem_of_app. right. left. }
    rewrite andb_false_r. reflexivity.
  - rewrite E. reflexivity.
Qed.

(** X8. Recording a failing point twice is recording it once; recording
    under different (category, description) pairs can be done in either
    order; an empty identifier is no identifier; and a recorded entry
    holds what it held before, then the new identifiers. *)
Theorem add_failing_point_algebra :
  (∀ c d p h fps,
     add_failing_point c d p h (add_failing_point c d p h fps)
     = add_failing_point c d p h fps)
  ∧ (∀ c d p h c' d' p' h' fps,
       (c, d) ≠ (c', d') →
       add_failing_point c d p h (add_failing_point c' d' p' h' fps)
       = add_failing_point c' d' p' h' (add_failing_point c d p h fps))
  ∧ (∀ c d h fps,
       add_failing_point c d (Some "") h fps = add_failing_point c d None h fps)
  ∧ (∀ c d p h fps e,
       entry (add_failing_point c d p h fps) c d = Some e →
       let old := default (FailingPoint [] []) (entry fps c d) in
       phases old `prefix_of` phases e
       ∧ harmonics old `prefix_of` harmonics e
       ∧ (truthy p = true → ∃ x, p = Some x ∧ x ∈ phases e)).
Proof.
  split; [|split; [|split]].
  - intros c d p h fps. unfold add_failing_point.
    rewrite lookup_insert_eq. cbn [from_option id]. rewrite lookup_insert_eq.
    cbn [from_option id phases harmonics].
    rewrite !append_new_idem, !insert_insert_eq. reflexivity.
  - intros c d p h c' d' p' h' fps Hne. unfold add_failing_point.
    destruct (decide (c = c')) as [<-|Hc].
    + assert (Hd : d ≠ d') by congruence.
      rewrite !lookup_insert_eq. cbn [from_option id].
      rewrite !insert_insert_eq.
      rewrite !lookup_insert_ne by congruence.
      f_equal. apply insert_insert_ne. congruence.
    + rewrite !lookup_insert_ne by congruence.
      apply insert_insert_ne. congruence.
  - intros c d h fps. reflexivity.
  - intros c d p h fps e He. rewrite entry_add_eq in He. injection He as <-.
    cbv zeta. cbn [phases harmonics].
    assert (Hpre : ∀ s l, l `prefix_of` append_new s l).
    { intros [x|] l; unfold append_new; [|reflexivity].
      destruct (_ && _); [apply prefix_app_r|]; reflexivity. }
    split; [apply Hpre|]. split; [apply Hpre|].
    intros Ht. destruct p as [x|]; [|discriminate Ht]. exists x. split; [reflexivity|].
    unfold append_new. rewrite Ht. cbn [andb].
    destruct (bool_decide (x ∈ _)) eqn:E; cbn [negb].
    + apply bool_decide_eq_true_1 in E. exact E.
    + apply elem_of_app. right. left.
Qed.

(* ===================================================================== *)
(** * 30. Recommendations and the numbers of the report *)
(* ===================================================================== *)

Lemma generate_recommendations_eq vc cc stats :
  generate_recommendations vc cc stats =
  let advices :=
    (if String.eqb vc "Fail" then [voltage_advice] else [])
    ++ (if String.eqb cc "Fail" then [current_advice] else [])
    ++ (if lt (default 1.0%float (stats !! "power_factor_avg")) 0.95
        then [power_factor_advice] else []) in
  match advices with
  | [] => [healthy_message]
  | _ :: _ => advices
  end.
Proof.
  unfold generate_recommendations.
  destruct (String.eqb vc "Fail"), (String.eqb cc "Fail"), (lt _ _); reflexivity.
Qed.

Lemma advices_apart :
  voltage_advice ≠ current_advice ∧ voltage_advice ≠ power_factor_advice
  ∧ voltage_advice ≠ healthy_message ∧ current_advice ≠ power_factor_advice
  ∧ current_advice ≠ healthy_message ∧ power_factor_advice ≠ healthy_message.
Proof.
  repeat split; apply (bool_decide_unpack _); vm_compute; reflexivity.
Qed.

(** X9. The recommendations: each of the three advices is given exactly
    under its condition (a verdict of "Fail", an average power factor that
    compares below 0.95, an absent one counting as 1.0); the all-clear
    message is given exactly when none of them is, and then alone; the
    list is never empty, has no repetition and at most three entries. *)
Theorem recommendations_shape (vc cc : string) (stats : gmap string float) :
  let recs := generate_recommendations vc cc stats in
  let pf_low := lt (default 1.0%float (stats !! "power_factor_avg")) 0.95 in
  recs ≠ [] ∧ (length recs ≤ 3)%nat ∧ NoDup recs
  ∧ (voltage_advice ∈ recs ↔ vc = "Fail")
  ∧ (current_advice ∈ recs ↔ cc = "Fail")
  ∧ (power_factor_advice ∈ recs ↔ pf_low = true)
  ∧ (healthy_message ∈ recs ↔ vc ≠ "Fail" ∧ cc ≠ "Fail" ∧ pf_low = false)
  ∧ (healthy_message ∈ recs → recs = [healthy_message])
  ∧ (∀ x, x ∈ recs →
          x ∈ [voltage_advice; current_advice; power_factor_advice; healthy_message]).
Proof.
  cbv zeta. rewrite generate_recommendations_eq. cbv zeta.
  destruct advices_apart as (H1 & H2 & H3 & H4 & H5 & H6).
  destruct (String.eqb_spec vc "Fail") as [Hv|Hv],
           (String.eqb_spec cc "Fail") as [Hc|Hc],
           (lt (default 1.0%float (stats !! "power_factor_avg")) 0.95) eqn:Hp;
    cbn [app length];
    (split; [discriminate|]); (split; [lia|]);
    (split; [repeat (constructor; [rewrite ?not_elem_of_cons; intuition; set_solver|]);
             constructor|]);
    rewrite ?elem_of_cons, ?elem_of_nil;
    repeat split; intros; rewrite ?elem_of_cons, ?elem_of_nil in *;
    try solve [intuition congruence].
Qed.

(** ** The average power factor *)

Lemma div_by_nan (a : float) : isnan (a / NaN) = true.
Proof.
  apply isnan_fcompare. rewrite FloatAxioms.div_spec.
  change (Prim2SF NaN) with S754_nan. unfold SF64div, SFdiv.
  destruct (Prim2SF a); reflexivity.
Qed.

Lemma Forall_select {A} (P : A → Prop) (mask : list bool) (l : list A) :
  Forall P l → Forall P (select mask l).
Proof.
  revert l. induction mask as [|keep mask IH]; intros l H.
  - destruct l; constructor.
  - destruct H as [|x l Hx H]; [destruct keep; constructor|].
    destruct keep; simpl; [constructor; [exact Hx|]|]; apply IH, H.
Qed.

Lemma to_numeric_safe_no_power cells :
  Forall (λ c, isnan (cell_number c) = true ∨ (cell_number c =? 0)%float = true) cells →
  Forall (λ v, ne v 0 = false) (to_numeric_safe cells).
Proof.
  intros H. unfold to_numeric_safe, fillna, to_numeric.
  rewrite <- list_fmap_compose. apply Forall_fmap.
  eapply Forall_impl; [exact H|]. intros c [Hc|Hc]; simpl.
  - rewrite Hc. reflexivity.
  - destruct (isnan (cell_number c)); [reflexivity|]. unfold ne. rewrite Hc. reflexivity.
Qed.

Lemma quotients_missing (w va : list float) :
  Forall (λ v, ne v 0 = false) va →
  forallb isnan (zip_with (λ a v, (a / (if ne v 0 then v else NaN))%float) w va) = true.
Proof.
  intros H. revert w. induction H as [|v va Hv _ IH]; intros [|a w]; try reflexivity.
  simpl. rewrite Hv, div_by_nan. apply IH.
Qed.

Lemma mean_missing series : forallb isnan series = true → nan_to_zero (mean series) = 0%float.
Proof. intros H. unfold mean. rewrite (dropna_all_missing _ H). reflexivity. Qed.

Lemma power_factor_avg_idle clean_df :
  (∀ va, cf_columns clean_df !! "VA Total" = Some va →
         Forall (λ c, isnan (cell_number c) = true ∨ (cell_number c =? 0)%float = true) va) →
  power_factor_avg clean_df = 0%float.
Proof.
  intros H. unfold power_factor_avg.
  destruct (cf_columns clean_df !! "W Total") as [w|]; [|reflexivity].
  destruct (cf_columns clean_df !! "VA Total") as [va|]; [|reflexivity].
  apply mean_missing, quotients_missing, to_numeric_safe_no_power, H. reflexivity.
Qed.

(** X10. When no row of the trend sheet carries a non-zero apparent power
    (every cell of [VA Total] is zero or no number), the average power
    factor of the report is 0.0, so the power-factor advice is given and
    the all-clear message is not, whatever the verdicts. *)
Theorem no_apparent_power_advises_power_factor (dfs : gmap string frame)
    (nominal_voltage isc il : float) (r : report) (trend : frame) :
  analyze_full_data dfs nominal_voltage isc il = Ok r →
  dfs !! "Trend" = Some trend →
  (∀ va, trend !! "VA Total" = Some va →
         Forall (λ c, isnan (cell_number c) = true
                      ∨ (cell_number c =? 0)%float = true) va) →
  summary_stats r !! "power_factor_avg" = Some 0%float
  ∧ power_factor_advice ∈ recommendations r
  ∧ healthy_message ∉ recommendations r.
Proof.
  intros H Ht Hva. analyze_inversion H.
  assert (df_trend = trend) as -> by congruence.
  cbn [summary_stats recommendations].
  assert (Hpf : build_summary_stats (clean_trend trend)
                  (get0 (calculate_thd_percentiles (clean_trend trend) "U" true true)
                        "U1 THD_95th_10min")
                  (get0 (calculate_thd_percentiles (clean_trend trend) "A" true true)
                        "A1 THD_95th_10min")
                !! "power_factor_avg" = Some 0%float).
  { unfold build_summary_stats. rewrite lookup_insert_eq. f_equal.
    apply power_factor_avg_idle. intros va Hc.
    unfold clean_trend in Hc. cbn [cf_columns] in Hc.
    rewrite lookup_fmap, lookup_delete_ne in Hc by discriminate.
    destruct (trend !! "VA Total") as [column|] eqn:Hcol; [|discriminate Hc].
    injection Hc as <-. apply Forall_select, Hva. reflexivity. }
  split; [exact Hpf|].
  rewrite generate_recommendations_eq, Hpf. cbv zeta. cbn [from_option id].
  change (lt 0 0.95) with true. cbv iota.
  destruct advices_apart as (H1 & H2 & H3 & H4 & H5 & H6).
  destruct (String.eqb _ "Fail"), (String.eqb _ "Fail"); cbn [app];
    rewrite ?elem_of_cons, ?not_elem_of_cons, ?elem_of_nil; intuition congruence.
Qed.

Lemma no_apparent_power_advises_power_factor_witness :
  ∃ r, analyze_full_data idle_workbook 400 1000 50 = Ok r
       ∧ summary_stats r !! "power_factor_avg" = Some 0%float
       ∧ power_factor_advice ∈ recommendations r
       ∧ healthy_message ∉ recommendations r.
Proof.
  destruct (returns_Ok (analyze_full_data idle_workbook 400 1000 50)) as [r E];
    [vm_compute; reflexivity|].
  exists r. split; [exact E|].
  apply (no_apparent_power_advises_power_factor idle_workbook 400 1000 50 r
           (full_trend (constant "0.0" 0) (constant "0.0" 0)) E).
  - reflexivity.
  - intros va Hva. vm_compute in Hva. injection Hva as <-.
    repeat constructor; right; reflexivity.
Defined.

(** ** The numbers of the report *)

Lemma nan_to_zero_not_nan x : isnan (nan_to_zero x) = false.
Proof.
  unfold nan_to_zero. destruct (isnan x) eqn:E; simpl; [reflexivity|exact E].
Qed.

Lemma summary_stats_spec clean_df thdv thdi :
  (∀ key, is_Some (build_summary_stats clean_df thdv thdi !! key) ↔ key ∈ summary_keys)
  ∧ (∀ key x, build_summary_stats clean_df thdv thdi !! key = Some x → isnan x = false)
  ∧ build_summary_stats clean_df thdv thdi !! "thdv_percent_avg" = Some (nan_to_zero thdv)
  ∧ build_summary_stats clean_df thdv thdi !! "thdi_percent_avg" = Some (nan_to_zero thdi).
Proof.
  unfold build_summary_stats.
  match goal with
  | |- context [list_to_map ?l] => set (entries := l)
  end.
  assert (Hkeys : "power_factor_avg" :: entries.*1 = summary_keys) by reflexivity.
  assert (Hnd : NoDup (entries.*1)).
  { apply (bool_decide_unpack _). vm_compute. reflexivity. }
  split; [|split; [|split]].
  - intros key. rewrite <- Hkeys, lookup_insert_is_Some, elem_of_cons.
    split.
    + intros [->|[Hne Hs]]; [left; reflexivity|right].
      destruct Hs as [x Hx]. apply elem_of_list_to_map_2 in Hx.
      apply list_elem_of_fmap. exists (key, x). split; [reflexivity|exact Hx].
    + intros [->|Hin]; [left; reflexivity|].
      destruct (decide ("power_factor_avg" = key)) as [<-|Hne]; [left; reflexivity|].
      right. split; [exact Hne|].
      apply list_elem_of_fmap in Hin as ([k x] & -> & Hin). exists x.
      apply elem_of_list_to_map_1; assumption.
  - intros key x Hx.
    destruct (decide ("power_factor_avg" = key)) as [<-|Hne].
    + rewrite lookup_insert_eq in Hx. injection Hx as <-. apply nan_to_zero_not_nan.
    + rewrite lookup_insert_ne in Hx by assumption.
      apply elem_of_list_to_map_2 in Hx.
      assert (Hall : Forall (λ kv : string * float, isnan kv.2 = false) entries).
      { unfold entries. repeat (constructor; [apply nan_to_zero_not_nan|]). constructor. }
      rewrite Forall_forall in Hall. apply (Hall _ Hx).
  - rewrite lookup_insert_ne by discriminate.
    apply elem_of_list_to_map_1; [exact Hnd|]. unfold entries.
    do 18 right. left.
  - rewrite lookup_insert_ne by discriminate.
    apply elem_of_list_to_map_1; [exact Hnd|]. unfold entries.
    do 19 right. left.
Qed.

(** X11. The numbers of a report. Neither overall figure is a NaN, nor is
    any summary statistic. The summary holds exactly its 21 keys, and its
    voltage distortion figure is the report's. The bar chart has the 49
    harmonic orders 2..50 as labels and one value for each in both data
    lists, none a NaN. *)
Theorem report_numbers_are_numbers (dfs : gmap string frame)
    (nominal_voltage isc il : float) (r : report) :
  analyze_full_data dfs nominal_voltage isc il = Ok r →
  isnan (thdv_percent r) = false
  ∧ isnan (tdd_percent r) = false
  ∧ (∀ key, is_Some (summary_stats r !! key) ↔ key ∈ summary_keys)
  ∧ (∀ key x, summary_stats r !! key = Some x → isnan x = false)
  ∧ summary_stats r !! "thdv_percent_avg" = Some (thdv_percent r)
  ∧ labels (bar_chart_data r) = range 2 51
  ∧ length (vh_data (bar_chart_data r)) = 49%nat
  ∧ length (ah_data (bar_chart_data r)) = 49%nat
  ∧ Forall (λ x, isnan x = false) (vh_data (bar_chart_data r))
  ∧ Forall (λ x, isnan x = false) (ah_data (bar_chart_data r)).
Proof.
  intros H. analyze_inversion H.
  cbn [thdv_percent tdd_percent summary_stats bar_chart_data].
  destruct (summary_stats_spec (clean_trend df_trend)
              (get0 (calculate_thd_percentiles (clean_trend df_trend) "U" true true)
                    "U1 THD_95th_10min")
              (get0 (calculate_thd_percentiles (clean_trend df_trend) "A" true true)
                    "A1 THD_95th_10min")) as (Hk & Hn & Hv & _).
  split; [apply nan_to_zero_not_nan|]. split; [apply nan_to_zero_not_nan|].
  split; [exact Hk|]. split; [exact Hn|]. split; [exact Hv|].
  unfold build_bar_chart. cbn [labels vh_data ah_data].
  split; [reflexivity|]. split; [rewrite length_fmap; reflexivity|].
  split; [rewrite length_fmap; reflexivity|].
  split; apply Forall_fmap, Forall_forall; intros h _; apply nan_to_zero_not_nan.
Qed.

Lemma report_numbers_are_numbers_witness :
  ∃ r, analyze_full_data healthy_workbook 400 1000 50 = Ok r
       ∧ isnan (thdv_percent r) = false
       ∧ length (vh_data (bar_chart_data r)) = 49%nat.
Proof.
  destruct (returns_Ok (analyze_full_data healthy_workbook 400 1000 50)) as [r E];
    [vm_compute; reflexivity|].
  exists r. split; [exact E|].
  destruct (report_numbers_are_numbers healthy_workbook 400 1000 50 r E)
    as (H1 & _ & _ & _ & _ & _ & H2 & _).
  split; [exact H1|exact H2].
Defined.

(* ===================================================================== *)
(** * 31. The limit tables *)
(* ===================================================================== *)

Lemma SFcompare_Eq_trans (x y z : spec_float) :
  SFcompare x y = Some Eq → SFcompare y z = Some Eq → SFcompare x z = Some Eq.
Proof.
  destruct x as [sx|sx| |sx mx ex], y as [sy|sy| |sy my ey],
           z as [sz|sz| |sz mz ez]; simpl;
    try (destruct sx); try (destruct sy); try (destruct sz);
    try discriminate; try reflexivity;
    change (Pcompare mx my Eq) with (mx ?= my)%positive;
    change (Pcompare my mz Eq) with (my ?= mz)%positive;
    change (Pcompare mx mz Eq) with (mx ?= mz)%positive;
    destruct (Z.compare_spec ex ey), (Z.compare_spec ey ez),
             (Z.compare_spec ex ez);
    destruct (Pos.compare_spec mx my), (Pos.compare_spec my mz),
             (Pos.compare_spec mx mz);
    simpl; intros; try discriminate; try reflexivity; lia.
Qed.

Lemma le_trans a b c : le a b = true → le b c = true → le a c = true.
Proof.
  rewrite !le_fcompare. unfold fcompare.
  intros [H|H] [H'|H'];
    eauto using SFcompare_Lt_trans, SFcompare_Lt_Eq, SFcompare_Eq_Lt, SFcompare_Eq_trans.
Qed.

Lemma le_number x y : le x y = true → isnan x = false ∧ isnan y = false.
Proof.
  rewrite le_fcompare. unfold fcompare. intros H.
  split; apply not_true_is_false; intros Hn; apply isnan_fcompare in Hn;
    rewrite Hn in H.
  - destruct H; discriminate.
  - destruct (Prim2SF x) as [| | |[]]; destruct H; discriminate.
Qed.

Lemma lt_number x y : lt x y = true → isnan x = false ∧ isnan y = false.
Proof.
  rewrite lt_fcompare. unfold fcompare. intros H.
  split; apply not_true_is_false; intros Hn; apply isnan_fcompare in Hn;
    rewrite Hn in H.
  - discriminate.
  - destruct (Prim2SF x) as [| | |[]]; discriminate.
Qed.

(** On numbers, one of [x < y] and [y <= x] holds. *)
Lemma not_lt_le x y :
  isnan x = false → isnan y = false → lt x y = false → le y x = true.
Proof.
  intros Hx Hy H. destruct (fcompare_total x y Hx Hy) as [c Hc].
  apply le_fcompare. rewrite fcompare_swap, Hc.
  destruct c; simpl; [right; reflexivity| |left; reflexivity].
  apply lt_fcompare in Hc. congruence.
Qed.

(** The bands of the current-limit table cover the ratios from 0 up to,
    not including, infinity, and nothing else. *)
Lemma find_limit_row_None ratio :
  find_limit_row ratio CURRENT_LIMITS_120V_to_69kV = None ↔
  le 0 ratio && lt ratio inf = false.
Proof.
  unfold CURRENT_LIMITS_120V_to_69kV. cbn [find_limit_row]. split.
  - intros H. destruct (le 0 ratio && lt ratio inf) eqn:E; [exfalso|reflexivity].
    apply andb_prop in E as [L U].
    destruct (le_number _ _ L) as [_ Hr].
    rewrite L in H. cbn [andb] in H.
    destruct (lt ratio 20) eqn:E1; [discriminate H|].
    rewrite (not_lt_le ratio 20 Hr eq_refl E1) in H. cbn [andb] in H.
    destruct (lt ratio 50) eqn:E2; [discriminate H|].
    rewrite (not_lt_le ratio 50 Hr eq_refl E2) in H. cbn [andb] in H.
    destruct (lt ratio 100) eqn:E3; [discriminate H|].
    rewrite (not_lt_le ratio 100 Hr eq_refl E3) in H. cbn [andb] in H.
    destruct (lt ratio 1000) eqn:E4; [discriminate H|].
    rewrite (not_lt_le ratio 1000 Hr eq_refl E4) in H. cbn [andb] in H.
    rewrite U in H. discriminate H.
  - intros H.
    assert (Hlow : ∀ lo, le 0 lo = true → le 0 ratio = false → le lo ratio = false).
    { intros lo H0 Hf. destruct (le lo ratio) eqn:E; [|reflexivity].
      rewrite (le_trans _ _ _ H0 E) in Hf. discriminate. }
    assert (Hup : ∀ hi, le hi inf = true → lt ratio inf = false → lt ratio hi = false).
    { intros hi Hi Hf. destruct (lt ratio hi) eqn:E; [|reflexivity].
      rewrite (lt_le_trans _ _ _ E Hi) in Hf. discriminate. }
    apply andb_false_iff in H as [H|H].
    + rewrite H, (Hlow 20%float eq_refl H), (Hlow 50%float eq_refl H),
        (Hlow 100%float eq_refl H), (Hlow 1000%float eq_refl H). reflexivity.
    + rewrite H, (Hup 20%float eq_refl H), (Hup 50%float eq_refl H),
        (Hup 100%float eq_refl H), (Hup 1000%float eq_refl H), !andb_false_r.
      reflexivity.
Qed.

(** X12. No row of the current-limit table applies exactly when the
    nominal voltage does not compare as at most 69 kV or the ISC/IL ratio
    lies outside the bands (it is negative, infinite or a NaN); the report
    then has the current verdict "Pass" and no failing point of a current
    category, whatever the measured currents. *)
Theorem no_limit_row_no_current_check (dfs : gmap string frame)
    (nominal_voltage isc il : float) (r : report) :
  analyze_full_data dfs nominal_voltage isc il = Ok r →
  let ratio := isc_il_ratio isc il in
  (current_limit_row nominal_voltage isc il = None ↔
   le nominal_voltage 69000 = false ∨ le 0 ratio && lt ratio inf = false)
  ∧ (current_limit_row nominal_voltage isc il = None →
     current_compliance r = "Pass"
     ∧ ∀ category, category ∈ current_categories →
                   failing_points r !! category = None).
Proof.
  intros H ratio. split.
  - unfold current_limit_row. fold ratio.
    destruct (le nominal_voltage 69000).
    + rewrite find_limit_row_None. split; [auto|]. intros [?|?]; [discriminate|assumption].
    + split; auto.
  - intros Hrow. analyze_inversion H.
    cbn [current_compliance failing_points]. rewrite Hrow. cbn [evaluate_current compliance failing].
    split; [reflexivity|].
    intros category Hin.
    pose proof (records_in_evaluate_voltage
                  (voltage_limit_table nominal_voltage)
                  (calculate_thd_percentiles (clean_trend df_trend) "U" true true)
                  df_vh {| compliance := "Pass"; failing := ∅ |}) as Hrec.
    rewrite (recorded_from_other _ _ _ category Hrec); [apply lookup_empty|].
    intros Hv. revert Hin Hv. unfold current_categories, voltage_categories.
    rewrite !elem_of_cons, !elem_of_nil.
    intros [->|[->|[->|[]]]] [?|[?|[]]]; discriminate.
Qed.

Lemma no_limit_row_no_current_check_witness :
  ∃ r, analyze_full_data current_distorted_workbook 400 (-1000) 50 = Ok r
       ∧ current_limit_row 400 (-1000) 50 = None
       ∧ current_compliance r = "Pass".
Proof.
  destruct (returns_Ok (analyze_full_data current_distorted_workbook 400 (-1000) 50))
    as [r E]; [vm_compute; reflexivity|].
  exists r. split; [exact E|]. split; [reflexivity|].
  apply (no_limit_row_no_current_check current_distorted_workbook 400 (-1000) 50 r E).
  reflexivity.
Defined.

(** X13. Within a row of the current-limit table the limit of a harmonic
    order is one of the row's five entries and never grows with the order;
    and of two ISC/IL ratios the larger never gets the smaller limits,
    for any order and for the demand distortion. *)
Theorem current_limits_are_monotone :
  (∀ band row h,
     (band, row) ∈ CURRENT_LIMITS_120V_to_69kV →
     get_current_limit_for_harmonic h (Some row)
     ∈ [h_lt_11 row; h_11_17 row; h_17_23 row; h_23_35 row; h_gt_35 row])
  ∧ (∀ band row h1 h2,
       (band, row) ∈ CURRENT_LIMITS_120V_to_69kV → h1 ≤ h2 →
       le (get_current_limit_for_harmonic h2 (Some row))
          (get_current_limit_for_harmonic h1 (Some row)) = true)
  ∧ (∀ ratio1 ratio2 row1 row2 h,
       find_limit_row ratio1 CURRENT_LIMITS_120V_to_69kV = Some row1 →
       find_limit_row ratio2 CURRENT_LIMITS_120V_to_69kV = Some row2 →
       le ratio1 ratio2 = true →
       le (get_current_limit_for_harmonic h (Some row1))
          (get_current_limit_for_harmonic h (Some row2)) = true
       ∧ le (tdd row1) (tdd row2) = true).
Proof.
  split; [|split].
  - intros band row h _. unfold get_current_limit_for_harmonic.
    destruct (h <? 11) eqn:E1; [left|].
    destruct ((11 <=? h) && (h <? 17)) eqn:E2; [right; left|].
    destruct ((17 <=? h) && (h <? 23)) eqn:E3; [do 2 right; left|].
    destruct ((23 <=? h) && (h <? 35)) eqn:E4; [do 3 right; left|].
    destruct (35 <=? h) eqn:E5; [do 4 right; left|]. lia.
  - intros band row h1 h2 Hin Hle. unfold CURRENT_LIMITS_120V_to_69kV in Hin.
    band_cases Hin; unfold get_current_limit_for_harmonic;
      cbn [h_lt_11 h_11_17 h_17_23 h_23_35 h_gt_35];
      destruct (h1 <? 11) eqn:A1, ((11 <=? h1) && (h1 <? 17)) eqn:A2,
               ((17 <=? h1) && (h1 <? 23)) eqn:A3, ((23 <=? h1) && (h1 <? 35)) eqn:A4,
               (35 <=? h1) eqn:A5;
      destruct (h2 <? 11) eqn:B1, ((11 <=? h2) && (h2 <? 17)) eqn:B2,
               ((17 <=? h2) && (h2 <? 23)) eqn:B3, ((23 <=? h2) && (h2 <? 35)) eqn:B4,
               (35 <=? h2) eqn:B5;
      try reflexivity; exfalso; lia.
  - intros ratio1 ratio2 row1 row2 h H1 H2 Hle.
    apply find_limit_row_Some in H1 as (band1 & Hin1 & Hb1).
    apply find_limit_row_Some in H2 as (band2 & Hin2 & Hb2).
    unfold CURRENT_LIMITS_120V_to_69kV in Hin1, Hin2.
    band_cases Hin1; band_cases Hin2; unfold in_band in Hb1, Hb2;
      cbn [fst snd] in Hb1, Hb2;
      apply andb_prop in Hb1 as [L1 U1]; apply andb_prop in Hb2 as [L2 U2];
      first [ exfalso;
              eapply (bands_apart _ _ ratio2);
              [|exact (le_trans _ _ _ L1 Hle)|exact U2]; reflexivity
            | split; [|reflexivity];
              unfold get_current_limit_for_harmonic;
              cbn [h_lt_11 h_11_17 h_17_23 h_23_35 h_gt_35];
              destruct (h <? 11), ((11 <=? h) && (h <? 17)),
                       ((17 <=? h) && (h <? 23)), ((23 <=? h) && (h <? 35)),
                       (35 <=? h); reflexivity ].
Qed.

(** X14. A voltage limit row is found for every nominal voltage, a NaN
    included, which gets the row above 161 kV; and of two nominal voltages
    the higher never gets the larger limits. *)
Theorem voltage_limits_tighten_with_voltage :
  (∀ v, is_Some (voltage_limit_table v))
  ∧ (∀ v, isnan v = true → voltage_limit_table v = Some (VoltageLimits 1.0 1.5))
  ∧ (∀ v1 v2,
       le v1 v2 = true →
       ∃ l1 l2,
         voltage_limit_table v1 = Some l1 ∧ voltage_limit_table v2 = Some l2
         ∧ le (thd l2) (thd l1) = true ∧ le (individual l2) (individual l1) = true).
Proof.
  split; [|split].
  - intros v. unfold voltage_limit_table.
    destruct (le v 1000), (le v 69000), (le v 161000); eexists; reflexivity.
  - intros v Hv.
    assert (Hno : ∀ bound, le v bound = false).
    { intros bound. destruct (le v bound) eqn:E; [|reflexivity].
      apply le_number in E as [E _]. congruence. }
    unfold voltage_limit_table. rewrite !Hno. reflexivity.
  - intros v1 v2 Hle.
    assert (Hup : ∀ bound, le v2 bound = true → le v1 bound = true).
    { intros bound Hb. exact (le_trans _ _ _ Hle Hb). }
    unfold voltage_limit_table.
    destruct (le v2 1000) eqn:A1; [rewrite (Hup _ A1)|].
    { eexists _, _. repeat split; reflexivity. }
    destruct (le v2 69000) eqn:A2; [rewrite (Hup _ A2)|].
    { destruct (le v1 1000); eexists _, _; repeat split; reflexivity. }
    destruct (le v2 161000) eqn:A3; [rewrite (Hup _ A3)|].
    { destruct (le v1 1000), (le v1 69000); eexists _, _; repeat split; reflexivity. }
    destruct (le v1 1000), (le v1 69000), (le v1 161000);
      eexists _, _; repeat split; reflexivity.
Qed.

Lemma voltage_limits_tighten_with_voltage_witness :
  ∃ l1 l2,
    voltage_limit_table 400 = Some l1 ∧ voltage_limit_table 22000 = Some l2
    ∧ le (thd l2) (thd l1) = true ∧ le (individual l2) (individual l1) = true.
Proof.
  exact (proj2 (proj2 voltage_limits_tighten_with_voltage) 400%float 22000%float eq_refl).
Defined.

(* ===================================================================== *)
(** * 32. The percentile tables *)
(* ===================================================================== *)

Lemma to_numeric_safe_nil cells : to_numeric_safe cells = [] ↔ cells = [].
Proof.
  destruct cells; [split; reflexivity|]. split; discriminate.
Qed.

Lemma thd_keys_apart col :
  col +:+ "_99th_3s" ≠ col +:+ "_95th_10min"
  ∧ col +:+ "_99th_3s" ≠ col +:+ "_99th_10min"
  ∧ col +:+ "_95th_10min" ≠ col +:+ "_99th_10min".
Proof. repeat split; intros H; apply String.app_inj in H; discriminate H. Qed.

(** What one column of the loop of [calculate_thd_percentiles] leaves under
    its own three keys does not depend on what was there under other keys. *)
Lemma thd_column_percentiles_own df results col :
  (∀ key, key ∈ [col +:+ "_99th_3s"; col +:+ "_95th_10min"; col +:+ "_99th_10min"] →
          results !! key = None) →
  ∀ key, key ∈ [col +:+ "_99th_3s"; col +:+ "_95th_10min"; col +:+ "_99th_10min"] →
         thd_column_percentiles df true true results col !! key
         = thd_column_percentiles df true true ∅ col !! key.
Proof.
  intros Hnone key Hkey. pose proof (Hnone key Hkey) as Hk.
  destruct (thd_keys_apart col) as (K1 & K2 & K3).
  unfold thd_column_percentiles.
  destruct (cf_columns df !! col); [|rewrite Hk, lookup_empty; reflexivity].
  repeat case_bool_decide; try (rewrite Hk, lookup_empty; reflexivity);
    repeat (apply elem_of_cons in Hkey as [->|Hkey]);
    try (by apply elem_of_nil in Hkey);
    repeat (rewrite lookup_insert_eq || rewrite lookup_insert_ne by congruence);
    rewrite ?Hk, ?lookup_empty; reflexivity.
Qed.

Lemma thd_column_alone df thd_type p key :
  thd_type = "U" ∨ thd_type = "A" → p ∈ [1; 2; 3] →
  let col := thd_type +:+ str_int p +:+ " THD" in
  key ∈ [col +:+ "_99th_3s"; col +:+ "_95th_10min"; col +:+ "_99th_10min"] →
  calculate_thd_percentiles df thd_type true true !! key
  = thd_column_percentiles df true true ∅ col !! key.
Proof.
  intros Ht Hp col Hkey. unfold calculate_thd_percentiles.
  cbn [fmap list_fmap fold_left].
  assert (Hcases : p = 1 ∨ p = 2 ∨ p = 3).
  { revert Hp. rewrite !elem_of_cons, elem_of_nil. tauto. }
  destruct Ht as [-> | ->]; destruct Hcases as [->|[->| ->]]; subst col;
    change (str_int 1) with "1" in *; change (str_int 2) with "2" in *;
    change (str_int 3) with "3" in *; cbn [String.append] in *.
  all: match goal with
       | |- thd_column_percentiles _ _ _ (thd_column_percentiles _ _ _ (thd_column_percentiles _ _ _ ∅ ?c1) ?c2) ?c3 !! _
            = thd_column_percentiles _ _ _ ∅ ?c !! _ =>
           first
             [ (* the column is the last one *)
               unify c c3;
               apply (thd_column_percentiles_own df _ c3); [|exact Hkey];
               intros k Hk; repeat (apply elem_of_cons in Hk as [->|Hk]);
               try (by apply elem_of_nil in Hk);
               rewrite !thd_column_percentiles_other by discriminate;
               apply lookup_empty
             | (* the column is the middle one *)
               unify c c2;
               rewrite (thd_column_percentiles_other df true true _ c3)
                 by (repeat (apply elem_of_cons in Hkey as [->|Hkey]);
                     try (by apply elem_of_nil in Hkey); discriminate);
               apply (thd_column_percentiles_own df _ c2); [|exact Hkey];
               intros k Hk; repeat (apply elem_of_cons in Hk as [->|Hk]);
               try (by apply elem_of_nil in Hk);
               rewrite !thd_column_percentiles_other by discriminate;
               apply lookup_empty
             | (* the column is the first one *)
               unify c c1;
               repeat (apply elem_of_cons in Hkey as [->|Hkey]);
               try (by apply elem_of_nil in Hkey);
               rewrite !(thd_column_percentiles_other df true true _ c3) by discriminate;
               rewrite !(thd_column_percentiles_other df true true _ c2) by discriminate;
               reflexivity ]
       end.
Qed.

(** X15. The percentile table of the THD columns. For each phase, the
    3-second 99th percentile is present exactly when the column is in the
    table and not empty, and it is the 99th percentile of the column's
    numeric reading; the two 10-minute percentiles are present together,
    and only with the 3-second one; a table with no row left has none. *)
Theorem thd_percentile_keys (df : clean_frame) (thd_type : string) (p : Z) :
  thd_type = "U" ∨ thd_type = "A" → p ∈ [1; 2; 3] →
  let col := thd_type +:+ str_int p +:+ " THD" in
  let res := calculate_thd_percentiles df thd_type true true in
  res !! (col +:+ "_99th_3s")
  = (column ← cf_columns df !! col;
     if bool_decide (column = []) then None
     else Some (get_percentile_safe (to_numeric_safe column) 99))
  ∧ (is_Some (res !! (col +:+ "_95th_10min")) ↔ is_Some (res !! (col +:+ "_99th_10min")))
  ∧ (is_Some (res !! (col +:+ "_95th_10min")) → is_Some (res !! (col +:+ "_99th_3s")))
  ∧ (cf_index df = [] → res !! (col +:+ "_95th_10min") = None).
Proof.
  intros Ht Hp col res. unfold res.
  rewrite (thd_column_alone df thd_type p (col +:+ "_99th_3s") Ht Hp)
    by (left).
  rewrite (thd_column_alone df thd_type p (col +:+ "_95th_10min") Ht Hp)
    by (right; left).
  rewrite (thd_column_alone df thd_type p (col +:+ "_99th_10min") Ht Hp)
    by (right; right; left).
  fold col. destruct (thd_keys_apart col) as (K1 & K2 & K3).
  unfold thd_column_percentiles.
  destruct (cf_columns df !! col) as [column|]; cbn [mbind option_bind].
  2: { rewrite !lookup_empty. repeat split; try tauto; intros [x Hx]; discriminate. }
  destruct (decide (column = [])) as [->|Hne].
  { cbn. rewrite !lookup_empty. repeat split; try tauto; intros [x Hx]; discriminate. }
  rewrite (bool_decide_eq_false_2 (to_numeric_safe column = []))
    by (rewrite to_numeric_safe_nil; exact Hne).
  rewrite (bool_decide_eq_false_2 (column = [])) by exact Hne.
  case_bool_decide as Hres.
  - repeat (rewrite lookup_insert_eq || rewrite lookup_insert_ne by congruence).
    rewrite !lookup_empty.
    repeat split; try tauto; try (intros [x Hx]; discriminate).
  - repeat (rewrite lookup_insert_eq || rewrite lookup_insert_ne by congruence).
    repeat split; try (intros; eexists; reflexivity).
    intros Hi. exfalso. apply Hres. rewrite Hi. reflexivity.
Qed.

Lemma thd_percentile_keys_witness :
  calculate_thd_percentiles
    (clean_trend (full_trend (constant "1000.0" 1000) (constant "1000.0" 1000)))
    "U" true true !! "U2 THD_99th_3s"
  = Some 0%float.
Proof.
  destruct (thd_percentile_keys
              (clean_trend (full_trend (constant "1000.0" 1000) (constant "1000.0" 1000)))
              "U" 2) as [H _].
  - left. reflexivity.
  - right. left.
  - etransitivity; [exact H|]. vm_compute. reflexivity.
Defined.

(** ** The individual harmonics *)

Section FoldInsert.

Context {A : Type} (key : A → string) (val : A → option float).

Let put (m : gmap string float) (a : A) : gmap string float :=
  match val a with
  | Some v => <[key a := v]> m
  | None => m
  end.

Lemma fold_put_other (l : list A) m k :
  (∀ a, a ∈ l → key a ≠ k) → fold_left put l m !! k = m !! k.
Proof.
  revert m. induction l as [|x l IH]; intros m H; [reflexivity|].
  cbn [fold_left]. rewrite IH.
  - unfold put. destruct (val x); [|reflexivity].
    apply lookup_insert_ne, H. left.
  - intros a Ha. apply H. right. exact Ha.
Qed.

Lemma fold_put_lookup (l : list A) m k v :
  (∀ a, a ∈ l → key a = k → val a = v) → (∃ a, a ∈ l ∧ key a = k) →
  fold_left put l m !! k = match v with Some x => Some x | None => m !! k end.
Proof.
  revert m. induction l as [|x l IH]; intros m Hval (a & Ha & Hk).
  { apply elem_of_nil in Ha. contradiction. }
  cbn [fold_left].
  assert (Hx : key x = k → put m x !! k = match v with Some y => Some y | None => m !! k end).
  { intros Hkx. unfold put. rewrite (Hval x (list_elem_of_here _ _) Hkx).
    destruct v; [rewrite <- Hkx; apply lookup_insert_eq|reflexivity]. }
  assert (Hnx : key x ≠ k → put m x !! k = m !! k).
  { intros Hkx. unfold put. destruct (val x); [|reflexivity].
    apply lookup_insert_ne, Hkx. }
  destruct (decide (Exists (λ a', key a' = k) l)) as [Hex|Hno].
  - apply Exists_exists in Hex as (a' & Ha' & Hk').
    rewrite IH.
    + destruct v as [y|]; [reflexivity|].
      destruct (decide (key x = k)) as [Hkx|Hkx]; [apply Hx, Hkx|apply Hnx, Hkx].
    + intros a'' Hin. apply Hval. right. exact Hin.
    + exists a'. split; assumption.
  - rewrite fold_put_other.
    + apply elem_of_cons in Ha as [->|Ha]; [apply Hx, Hk|].
      exfalso. apply Hno, Exists_exists. exists a. split; assumption.
    + intros a' Ha' Hk'. apply Hno, Exists_exists. exists a'. split; assumption.
Qed.

Lemma fold_put_inv (l : list A) m k v :
  fold_left put l m !! k = Some v →
  m !! k = Some v ∨ ∃ a, a ∈ l ∧ key a = k ∧ val a = Some v.
Proof.
  revert m. induction l as [|x l IH]; intros m H; [left; exact H|].
  cbn [fold_left] in H. apply IH in H as [H|(a & Ha & Hk & Hv)].
  - unfold put in H. destruct (val x) as [y|] eqn:E; [|left; exact H].
    destruct (decide (key x = k)) as [Hkx|Hkx].
    + rewrite <- Hkx, lookup_insert_eq in H. injection H as ->.
      right. exists x. split; [left|]. split; assumption.
    + rewrite lookup_insert_ne in H by assumption. left. exact H.
  - right. exists a. split; [right; exact Ha|]. split; assumption.
Qed.

End FoldInsert.

Lemma fold_left_nested {A B C} (f : C → A * B → C) (hs : list A) (ps : list B) c :
  fold_left (λ c h, fold_left (λ c p, f c (h, p)) ps c) hs c
  = fold_left f (hs ≫= λ h, (λ p, (h, p)) <$> ps) c.
Proof.
  assert (Hinner : ∀ h c, fold_left f ((λ p, (h, p)) <$> ps) c
                          = fold_left (λ c p, f c (h, p)) ps c).
  { intros h. induction ps as [|p ps IHp]; intros c'; [reflexivity|].
    cbn [fmap list_fmap fold_left]. apply IHp. }
  revert c. induction hs as [|h hs IH]; intros c; [reflexivity|].
  cbn [fold_left mbind list_bind]. rewrite fold_left_app, Hinner. apply IH.
Qed.

Lemma fold_left_pointwise {A B} (f g : A → B → A) (l : list B) a :
  (∀ a b, f a b = g a b) → fold_left f l a = fold_left g l a.
Proof.
  intros H. revert a. induction l as [|b l IH]; intros a; [reflexivity|].
  cbn [fold_left]. rewrite H. apply IH.
Qed.

Lemma phase_cases (p : Z) : 1 ≤ p ≤ 3 → p ∈ [1; 2; 3].
Proof.
  intros H. assert (p = 1 ∨ p = 2 ∨ p = 3) as [->|[->| ->]] by lia;
    rewrite !elem_of_cons; auto.
Qed.

Lemma harmonic_orders_range (h : Z) : h ∈ harmonic_orders ↔ 2 ≤ h ≤ 50.
Proof.
  unfold harmonic_orders. rewrite list_elem_of_fmap. split.
  - intros (n & -> & Hn). apply elem_of_seq in Hn. lia.
  - intros H. exists (Z.to_nat h). split; [lia|]. apply elem_of_seq. lia.
Qed.

Lemma harmonic_column_inj prefix p h p' h' :
  1 ≤ p ≤ 3 → 1 ≤ p' ≤ 3 →
  prefix +:+ str_int p +:+ "h" +:+ str_int h
  = prefix +:+ str_int p' +:+ "h" +:+ str_int h' →
  p = p' ∧ h = h'.
Proof.
  intros Hp Hp' H. apply String.app_inj in H.
  assert (p = 1 ∨ p = 2 ∨ p = 3) as [->|[->| ->]] by lia;
    assert (p' = 1 ∨ p' = 2 ∨ p' = 3) as [->|[->| ->]] by lia;
    change (str_int 1) with "1" in H; change (str_int 2) with "2" in H;
    change (str_int 3) with "3" in H; cbn [String.append] in H;
    try discriminate H; injection H as H;
    (split; [reflexivity|]); apply (inj pretty), H.
Qed.

(** X16. The percentile table of the individual harmonics holds, under
    the key of the column of order [h] (2..50) and phase [p] (1..3), the
    percentile of that column's numeric reading when the worksheet has the
    column and it is not empty, and nothing otherwise; it holds no other
    key. *)
Theorem harmonic_percentile_lookup (df : frame) (prefix : string) (percentile : Z) :
  let res := calculate_individual_harmonic_percentiles df prefix percentile in
  let col h p := prefix +:+ str_int p +:+ "h" +:+ str_int h in
  let key h p := col h p +:+ "_" +:+ str_int percentile +:+ "th" in
  (∀ h p, 2 ≤ h ≤ 50 → 1 ≤ p ≤ 3 →
     res !! key h p
     = (column ← df !! col h p;
        if bool_decide (column = []) then None
        else Some (get_percentile_safe (to_numeric_safe column) percentile)))
  ∧ (∀ k v, res !! k = Some v → ∃ h p, 2 ≤ h ≤ 50 ∧ 1 ≤ p ≤ 3 ∧ k = key h p).
Proof.
  intros res col key.
  set (val := λ hp : Z * Z,
         column ← df !! col hp.1 hp.2;
         if bool_decide (column = []) then None
         else Some (get_percentile_safe (to_numeric_safe column) percentile)).
  assert (Hres : res = fold_left (λ m hp, match val hp with
                                          | Some v => <[key hp.1 hp.2 := v]> m
                                          | None => m
                                          end)
                         (harmonic_orders ≫= λ h, (λ p, (h, p)) <$> [1; 2; 3]) ∅).
  { unfold res, calculate_individual_harmonic_percentiles.
    rewrite <- (fold_left_nested
                  (λ m hp, match val hp with
                           | Some v => <[key hp.1 hp.2 := v]> m
                           | None => m
                           end)).
    apply fold_left_pointwise. intros m h. apply fold_left_pointwise. intros m' p.
    unfold val, key, col. cbn [fst snd].
    destruct (df !! _) as [column|]; [|reflexivity]. cbn [mbind option_bind].
    destruct column; reflexivity. }
  assert (Hin : ∀ h p, (h, p) ∈ (harmonic_orders ≫= λ h, (λ p, (h, p)) <$> [1; 2; 3])
                       ↔ 2 ≤ h ≤ 50 ∧ 1 ≤ p ≤ 3).
  { intros h p. rewrite list_elem_of_bind. split.
    - intros (h' & Hp & Hh). apply list_elem_of_fmap in Hp as (p' & [= -> ->] & Hp).
      apply harmonic_orders_range in Hh. split; [exact Hh|].
      revert Hp. rewrite !elem_of_cons, elem_of_nil. lia.
    - intros [Hh Hp]. exists h. split; [|apply harmonic_orders_range, Hh].
      apply list_elem_of_fmap. exists p. split; [reflexivity|apply phase_cases, Hp]. }
  assert (Hinj : ∀ h p h' p', 1 ≤ p ≤ 3 → 1 ≤ p' ≤ 3 →
                              key h' p' = key h p → h' = h ∧ p' = p).
  { intros h p h' p' Hp Hp' Hk. unfold key in Hk. apply string_app_inv_tail in Hk.
    destruct (harmonic_column_inj _ _ _ _ _ Hp' Hp Hk). split; assumption. }
  split.
  - intros h p Hh Hp. rewrite Hres.
    rewrite (fold_put_lookup (λ hp, key hp.1 hp.2) val _ ∅ (key h p) (val (h, p))).
    + destruct (val (h, p)) eqn:E; [|rewrite lookup_empty]; exact E || (symmetry; exact E).
    + intros [h' p'] Hin' Hk. cbn [fst snd] in Hk.
      apply Hin in Hin' as [_ Hp'].
      destruct (Hinj h p h' p' Hp Hp' Hk) as [-> ->]. reflexivity.
    + exists (h, p). split; [apply Hin; split; assumption|reflexivity].
  - intros k v Hk. rewrite Hres in Hk.
    apply (fold_put_inv (λ hp, key hp.1 hp.2) val) in Hk as [Hk|([h p] & Hin' & Hkey & _)].
    + rewrite lookup_empty in Hk. discriminate.
    + apply Hin in Hin' as [Hh Hp]. exists h, p. repeat split; try lia. symmetry. exact Hkey.
Qed.

(* ===================================================================== *)
(** * 33. From the worksheet's date and time to the time axis *)
(* ===================================================================== *)

(** The year of the era is recovered from the day of the era. *)
Lemma yoe_back yoe doy :
  0 ≤ yoe ≤ 399 → 0 ≤ doy ≤ 365 →
  (doy = 365 → (yoe + 1) mod 4 = 0 ∧ ((yoe + 1) mod 100 ≠ 0 ∨ yoe = 399)) →
  let doe := yoe * 365 + yoe / 4 - yoe / 100 + doy in
  (doe - doe / 1460 + doe / 36524 - doe / 146096) / 365 = yoe.
Proof.
  intros Hy Hd Hleap doe. subst doe.
  Z.div_mod_to_equations; lia.
Qed.

(** The day of the year counted from the first of March, and back. *)
Lemma civil_of_march_year era yoe doy :
  0 ≤ yoe ≤ 399 → 0 ≤ doy ≤ 365 →
  (doy = 365 → (yoe + 1) mod 4 = 0 ∧ ((yoe + 1) mod 100 ≠ 0 ∨ yoe = 399)) →
  civil_from_days (era * 146097 + (yoe * 365 + yoe / 4 - yoe / 100 + doy) - 719468)
  = let mp := (5 * doy + 2) / 153 in
    let m := if mp <? 10 then mp + 3 else mp - 9 in
    (if m <=? 2 then yoe + era * 400 + 1 else yoe + era * 400,
     m, doy - (153 * mp + 2) / 5 + 1).
Proof.
  intros Hy Hd Hleap. unfold civil_from_days.
  set (doe := yoe * 365 + yoe / 4 - yoe / 100 + doy).
  assert (Hdoe : 0 ≤ doe < 146097).
  { unfold doe. Z.div_mod_to_equations. lia. }
  replace (era * 146097 + doe - 719468 + 719468) with (doe + era * 146097) by lia.
  cbv zeta.
  assert (E1 : (doe + era * 146097) / 146097 = era).
  { symmetry. apply (Z.div_unique _ _ _ doe); lia. }
  rewrite E1.
  replace (doe + era * 146097 - era * 146097) with doe by lia.
  pose proof (yoe_back yoe doy Hy Hd Hleap) as Hb. cbv zeta in Hb. fold doe in Hb.
  rewrite Hb.
  replace (doe - (365 * yoe + yoe / 4 - yoe / 100)) with doy by (unfold doe; lia).
  reflexivity.
Qed.

Lemma civil_round_trip y m d :
  1 ≤ m ≤ 12 → 1 ≤ d ≤ days_in_month y m →
  civil_from_days (days_from_civil y m d) = (y, m, d).
Proof.
  intros Hm Hd. unfold days_from_civil. cbv zeta.
  remember (if m <=? 2 then y - 1 else y) as y' eqn:Ey'.
  remember (y' / 400) as era eqn:Eera.
  remember (y' - era * 400) as yoe eqn:Eyoe.
  assert (Hyoe : 0 ≤ yoe ≤ 399).
  { subst yoe era. Z.div_mod_to_equations. lia. }
  assert (Hcases : m = 1 ∨ m = 2 ∨ m = 3 ∨ m = 4 ∨ m = 5 ∨ m = 6 ∨ m = 7
                   ∨ m = 8 ∨ m = 9 ∨ m = 10 ∨ m = 11 ∨ m = 12) by lia.
  unfold days_in_month, is_leap in Hd.
  destruct ((y mod 4 =? 0) && negb (y mod 100 =? 0) || (y mod 400 =? 0)) eqn:Hleap.
  - apply orb_true_iff in Hleap.
    assert (Hl : y mod 4 = 0 ∧ (y mod 100 ≠ 0 ∨ y mod 400 = 0)).
    { destruct Hleap as [Hleap|Hleap].
      - apply andb_true_iff in Hleap as [H4 H100].
        apply Z.eqb_eq in H4. apply negb_true_iff, Z.eqb_neq in H100. tauto.
      - apply Z.eqb_eq in Hleap. split; [|tauto]. Z.div_mod_to_equations. lia. }
    clear Hleap.
    repeat (destruct Hcases as [->|Hcases]); [..|subst m];
      cbn [Z.eqb Z.leb Z.compare Pos.compare Pos.compare_cont orb Pos.eqb] in Hd, Ey';
      match goal with
      | |- context [(153 * ((?k + 9) mod 12) + 2) / 5] =>
          let c := eval vm_compute in ((153 * ((k + 9) mod 12) + 2) / 5) in
          change ((153 * ((k + 9) mod 12) + 2) / 5) with c
      end;
      (rewrite civil_of_march_year;
       [|exact Hyoe|lia|intros; subst; Z.div_mod_to_equations; lia]);
      cbv zeta;
      match goal with
      | |- context [(5 * (?c + d - 1) + 2) / 153] =>
          let q0 := eval vm_compute in ((5 * c + 2) / 153) in
          assert (E : (5 * (c + d - 1) + 2) / 153 = q0)
            by (Z.div_mod_to_equations; lia);
          rewrite E;
          let b := eval vm_compute in (q0 <? 10) in
          change (q0 <? 10) with b; cbv iota;
          let q5 := eval vm_compute in ((153 * q0 + 2) / 5) in
          change ((153 * q0 + 2) / 5) with q5
      end;
      match goal with
      | |- context [?a <=? 2] =>
          let b := eval vm_compute in (a <=? 2) in
          change (a <=? 2) with b; cbv iota
      end;
      (f_equal; [f_equal|]); subst; lia.
  - apply orb_false_iff in Hleap as [H4 H400].
    assert (Hl : y mod 4 ≠ 0 ∨ y mod 100 = 0).
    { apply andb_false_iff in H4 as [H4|H4].
      - left. apply Z.eqb_neq, H4.
      - right. apply negb_false_iff, Z.eqb_eq in H4. exact H4. }
    apply Z.eqb_neq in H400. clear H4.
    repeat (destruct Hcases as [->|Hcases]); [..|subst m];
      cbn [Z.eqb Z.leb Z.compare Pos.compare Pos.compare_cont orb Pos.eqb] in Hd, Ey';
      match goal with
      | |- context [(153 * ((?k + 9) mod 12) + 2) / 5] =>
          let c := eval vm_compute in ((153 * ((k + 9) mod 12) + 2) / 5) in
          change ((153 * ((k + 9) mod 12) + 2) / 5) with c
      end;
      (rewrite civil_of_march_year;
       [|exact Hyoe|lia|intros; subst; Z.div_mod_to_equations; lia]);
      cbv zeta;
      match goal with
      | |- context [(5 * (?c + d - 1) + 2) / 153] =>
          let q0 := eval vm_compute in ((5 * c + 2) / 153) in
          assert (E : (5 * (c + d - 1) + 2) / 153 = q0)
            by (Z.div_mod_to_equations; lia);
          rewrite E;
          let b := eval vm_compute in (q0 <? 10) in
          change (q0 <? 10) with b; cbv iota;
          let q5 := eval vm_compute in ((153 * q0 + 2) / 5) in
          change ((153 * q0 + 2) / 5) with q5
      end;
      match goal with
      | |- context [?a <=? 2] =>
          let b := eval vm_compute in (a <=? 2) in
          change (a <=? 2) with b; cbv iota
      end;
      (f_equal; [f_equal|]); subst; lia.
Qed.

Lemma days_from_civil_bounds y m d :
  1678 ≤ y ≤ 2261 → 1 ≤ m ≤ 12 → 1 ≤ d ≤ 31 →
  -106751 ≤ days_from_civil y m d ≤ 106750.
Proof.
  intros Hy Hm Hd. unfold days_from_civil. cbv zeta.
  destruct (Z.leb_spec m 2); Z.div_mod_to_equations; lia.
Qed.

Ltac table lo len :=
  intros n rest Hn;
  match goal with
  | |- ?G =>
      let P := lazymatch (eval pattern rest in G) with ?P _ => P end in
      let P := lazymatch (eval pattern n in P) with ?P _ => P end in
      let l := eval vm_compute in (seqZ lo len) in
      assert (Hall : Forall (λ n, ∀ rest, P n rest) l)
        by (repeat (constructor; [intros r; reflexivity|]); constructor);
      rewrite Forall_forall in Hall; apply (Hall n);
      change l with (seqZ lo len); apply elem_of_seqZ; lia
  end.

Lemma dir_d_reads n rest :
  1 ≤ n ≤ 31 → dir_d (chars (fmt_02d n) ++ rest) = Some (n, rest).
Proof. revert n rest. table 1 31. Qed.

Lemma dir_m_reads n rest :
  1 ≤ n ≤ 12 → dir_m (chars (fmt_02d n) ++ rest) = Some (n, rest).
Proof. revert n rest. table 1 12. Qed.

Lemma str_int_four_digits n :
  1000 ≤ n ≤ 9999 →
  chars (str_int n)
  = [ pretty_N_char (Z.to_N n `div` 1000);
      pretty_N_char ((Z.to_N n `div` 100) `mod` 10);
      pretty_N_char ((Z.to_N n `div` 10) `mod` 10);
      pretty_N_char (Z.to_N n `mod` 10) ].
Proof.
  intros Hn. unfold str_int, pretty, pretty_Z.
  destruct n as [|p|p]; try lia.
  change (pretty p) with (pretty (N.pos p)). unfold pretty, pretty_N.
  destruct (decide (N.pos p = 0%N)) as [|_]; [lia|].
  assert (Hp : (1000 ≤ N.pos p ≤ 9999)%N) by lia.
  change (Z.to_N (Z.pos p)) with (N.pos p).
  clear Hn. revert Hp. generalize (N.pos p). clear p. intros x Hx.
  assert (E2 : ((x `div` 10) `div` 10 = x `div` 100)%N)
    by (rewrite N.Div0.div_div; reflexivity).
  assert (E3 : (((x `div` 10) `div` 10) `div` 10 = x `div` 1000)%N)
    by (rewrite !N.Div0.div_div; reflexivity).
  assert (E4 : ((((x `div` 10) `div` 10) `div` 10) `div` 10 = 0)%N)
    by (rewrite !N.Div0.div_div; apply N.div_small; lia).
  assert (P1 : (0 < x `div` 10)%N) by (apply N.div_str_pos; lia).
  assert (P2 : (0 < x `div` 100)%N) by (apply N.div_str_pos; lia).
  assert (P3 : (0 < x `div` 1000)%N) by (apply N.div_str_pos; lia).
  rewrite (pretty_N_go_step x) by lia.
  rewrite (pretty_N_go_step (x `div` 10)%N) by exact P1.
  rewrite E2. rewrite (pretty_N_go_step (x `div` 100)%N) by exact P2.
  rewrite <- E2 at 1. rewrite E3.
  rewrite (pretty_N_go_step (x `div` 1000)%N) by exact P3.
  rewrite <- E3 at 1. rewrite E4, pretty_N_go_0.
  rewrite (N.mod_small (x `div` 1000) 10)
    by (apply N.Div0.div_lt_upper_bound; lia).
  reflexivity.
Qed.

Lemma dir_Y_reads n rest :
  1000 ≤ n ≤ 9999 → dir_Y (chars (str_int n) ++ rest) = Some (n, rest).
Proof.
  intros Hn. rewrite (str_int_four_digits n Hn). cbn [app dir_Y].
  set (x := Z.to_N n).
  assert (Hx : (1000 ≤ x ≤ 9999)%N) by (unfold x; lia).
  destruct (pretty_N_char_digit (x `div` 1000)%N) as [D1 V1];
    [apply N.Div0.div_lt_upper_bound; lia|].
  destruct (pretty_N_char_digit ((x `div` 100) `mod` 10)%N) as [D2 V2];
    [apply N.mod_lt; lia|].
  destruct (pretty_N_char_digit ((x `div` 10) `mod` 10)%N) as [D3 V3];
    [apply N.mod_lt; lia|].
  destruct (pretty_N_char_digit (x `mod` 10)%N) as [D4 V4];
    [apply N.mod_lt; lia|].
  rewrite D1, D2, D3, D4, V1, V2, V3, V4. cbn [andb]. f_equal. f_equal.
  assert (Z.of_N x = n) by (unfold x; lia).
  rewrite !N2Z.inj_mod, !N2Z.inj_div. change (Z.of_N 10) with 10.
  change (Z.of_N 100) with 100. change (Z.of_N 1000) with 1000.
  Z.div_mod_to_equations. lia.
Qed.

Lemma dir_H_reads n rest :
  0 ≤ n ≤ 23 → dir_H (lstrip (chars (pad0 2 n) ++ rest)) = Some (n, rest).
Proof. revert n rest. table 0 24. Qed.

Lemma dir_M_reads n rest :
  0 ≤ n ≤ 59 → dir_M (chars (pad0 2 n) ++ rest) = Some (n, rest).
Proof. revert n rest. table 0 60. Qed.

Lemma dir_S_reads n rest :
  0 ≤ n ≤ 59 → dir_S (chars (pad0 2 n) ++ rest) = Some (n, rest).
Proof. revert n rest. table 0 60. Qed.

Lemma days_in_month_bound y m : 28 ≤ days_in_month y m ≤ 31.
Proof.
  unfold days_in_month. destruct (m =? 2); [destruct (is_leap y); lia|].
  destruct (_ || _); lia.
Qed.

Lemma strptime_reads d m y H M S :
  1 ≤ d ≤ 31 → 1 ≤ m ≤ 12 → 1000 ≤ y ≤ 9999 →
  0 ≤ H ≤ 23 → 0 ≤ M ≤ 59 → 0 ≤ S ≤ 59 →
  strptime (recombined d m y +:+ " " +:+
            pad0 2 H +:+ ":" +:+ pad0 2 M +:+ ":" +:+ pad0 2 S)
  = Some (Fields d m y H M S).
Proof.
  intros Hd Hm Hy HH HM HS. unfold strptime, recombined.
  rewrite !chars_app, <- !app_assoc.
  change (chars "/") with ["/"%char]. change (chars " ") with [" "%char].
  change (chars ":") with [":"%char]. cbn [app].
  assert (Hlit : ∀ c rest, literal c (c :: rest) = Some rest).
  { intros c rest. unfold literal, is_char. rewrite Ascii.eqb_refl. reflexivity. }
  rewrite dir_d_reads by assumption. cbn [mbind option_bind]. rewrite Hlit.
  cbn [mbind option_bind].
  rewrite dir_m_reads by assumption. cbn [mbind option_bind]. rewrite Hlit.
  cbn [mbind option_bind].
  rewrite dir_Y_reads by assumption. cbn [mbind option_bind].
  change (blanks (" "%char :: ?r)) with (Some (lstrip r)). cbn [mbind option_bind].
  rewrite dir_H_reads by assumption. cbn [mbind option_bind]. rewrite Hlit.
  cbn [mbind option_bind].
  rewrite dir_M_reads by assumption. cbn [mbind option_bind]. rewrite Hlit.
  cbn [mbind option_bind].
  rewrite <- (app_nil_r (chars (pad0 2 S))), dir_S_reads by assumption.
  reflexivity.
Qed.

(** X17. A row dated day/month/year in the Buddhist era (its date text
    read by [int] field by field) with the time hh:mm:ss is parsed to an
    instant, and that instant is written on the time axis as the date of
    the common era, year - 543, with the same day, month and time. This
    holds for every calendar day of the years 1678 to 2261 of the common
    era, the whole years that the instants can hold. *)
Theorem buddhist_date_reaches_time_axis (date_str : string) (d m y H M S : Z) :
  date_fields date_str = Some (d, m, y) →
  1678 ≤ y - 543 ≤ 2261 → 1 ≤ m ≤ 12 → 1 ≤ d ≤ days_in_month (y - 543) m →
  0 ≤ H ≤ 23 → 0 ≤ M ≤ 59 → 0 ≤ S ≤ 59 →
  let time_str := pad0 2 H +:+ ":" +:+ pad0 2 M +:+ ":" +:+ pad0 2 S in
  ∃ t, to_datetime (thai_to_gregorian_year date_str +:+ " " +:+ time_str) = Some t
       ∧ strftime t
         = pad0 4 (y - 543) +:+ "-" +:+ pad0 2 m +:+ "-" +:+ pad0 2 d
           +:+ " " +:+ time_str.
Proof.
  intros Hf Hy Hm Hd HH HM HS time_str.
  pose proof (days_in_month_bound (y - 543) m) as Hdim.
  pose proof (civil_round_trip (y - 543) m d Hm Hd) as Hrt.
  pose proof (days_from_civil_bounds (y - 543) m d Hy Hm ltac:(lia)) as Hz.
  assert (Hthai : thai_to_gregorian_year date_str = recombined d m (y - 543)).
  { unfold thai_to_gregorian_year. rewrite Hf. reflexivity. }
  set (z := days_from_civil (y - 543) m d) in *.
  exists (z * 86400 + H * 3600 + M * 60 + S). split.
  - rewrite Hthai. unfold to_datetime, time_str.
    rewrite strptime_reads by (assumption || lia).
    cbn [mbind option_bind f_year f_month f_day f_hour f_minute f_second].
    fold z.
    assert ((1 <=? y - 543) && (d <=? days_in_month (y - 543) m) = true) as ->.
    { apply andb_true_intro. split; apply Z.leb_le; lia. }
    assert ((- max_seconds <=? z * 86400 + H * 3600 + M * 60 + S)
            && (z * 86400 + H * 3600 + M * 60 + S <=? max_seconds) = true) as ->.
    { unfold max_seconds. apply andb_true_intro. split; apply Z.leb_le; lia. }
    reflexivity.
  - unfold strftime, time_str.
    assert ((z * 86400 + H * 3600 + M * 60 + S) / 86400 = z) as ->.
    { symmetry. apply (Z.div_unique _ _ _ (H * 3600 + M * 60 + S)); lia. }
    assert ((z * 86400 + H * 3600 + M * 60 + S) mod 86400 = H * 3600 + M * 60 + S) as ->.
    { symmetry. apply (Z.mod_unique _ _ z); lia. }
    assert ((H * 3600 + M * 60 + S) / 3600 = H) as ->.
    { symmetry. apply (Z.div_unique _ _ _ (M * 60 + S)); lia. }
    assert ((H * 3600 + M * 60 + S) mod 3600 / 60 = M) as ->.
    { assert ((H * 3600 + M * 60 + S) mod 3600 = M * 60 + S) as ->.
      { symmetry. apply (Z.mod_unique _ _ H); lia. }
      symmetry. apply (Z.div_unique _ _ _ S); lia. }
    assert ((H * 3600 + M * 60 + S) mod 60 = S) as ->.
    { symmetry. apply (Z.mod_unique _ _ (H * 60 + M)); lia. }
    rewrite Hrt. reflexivity.
Qed.

Lemma buddhist_date_reaches_time_axis_witness :
  ∃ t, to_datetime (thai_to_gregorian_year "5/3/2566" +:+ " " +:+ "10:05:00") = Some t
       ∧ strftime t = "2023-03-05 10:05:00".
Proof.
  exact (buddhist_date_reaches_time_axis "5/3/2566" 5 3 2566 10 5 0 eq_refl
           ltac:(lia) ltac:(lia) ltac:(vm_compute; split; discriminate)
           ltac:(lia) ltac:(lia) ltac:(lia)).
Defined.

(** ** Dates that are already of the common era *)

Lemma digit_value_range c : is_digit c = true → 0 ≤ digit_value c ≤ 9.
Proof.
  unfold is_digit, digit_value. intros [H1 H2]%andb_prop.
  apply Z.leb_le in H1, H2. lia.
Qed.

Lemma two_value ok s v rest :
  two ok s = Some (v, rest) →
  ∃ a b, ok a b = true ∧ v = 10 * digit_value a + digit_value b.
Proof.
  unfold two. destruct s as [|a [|b s]]; try discriminate.
  destruct (ok a b) eqn:E; [|discriminate]. intros [= <- _]. eauto.
Qed.

Lemma one_value ok s v rest :
  one ok s = Some (v, rest) → ∃ a, ok a = true ∧ v = digit_value a.
Proof.
  unfold one. destruct s as [|a s]; try discriminate.
  destruct (ok a) eqn:E; [|discriminate]. intros [= <- _]. eauto.
Qed.

(** The number that a one- or two-digit directive yields. *)
Ltac directive_value H :=
  repeat (apply orelse_cases in H as [H|H]);
  first [ apply two_value in H as (a & b & H & ->);
          assert (is_digit a = true ∧ is_digit b = true) as [Ha Hb]
            by (repeat (apply orb_prop in H as [H|H]);
                apply andb_prop in H as [H1 H2];
                split;
                first [ assumption
                      | eapply between_digit; [| |eassumption]; reflexivity
                      | apply Ascii.eqb_eq in H1; subst; reflexivity
                      | apply Ascii.eqb_eq in H2; subst; reflexivity ]);
          apply digit_value_range in Ha, Hb; lia
        | apply one_value in H as (a & H & ->);
          assert (is_digit a = true) as Ha
            by first [ assumption
                     | eapply between_digit; [| |eassumption]; reflexivity ];
          apply digit_value_range in Ha; lia ].

Lemma dir_H_value s v rest : dir_H s = Some (v, rest) → 0 ≤ v ≤ 99.
Proof. unfold dir_H. intros H. directive_value H. Qed.

Lemma dir_M_value s v rest : dir_M s = Some (v, rest) → 0 ≤ v ≤ 99.
Proof. unfold dir_M. intros H. directive_value H. Qed.

Lemma dir_S_value s v rest : dir_S s = Some (v, rest) → 0 ≤ v ≤ 99.
Proof. unfold dir_S. intros H. directive_value H. Qed.

Lemma days_from_civil_early y m d :
  1000 ≤ y ≤ 1676 → 1 ≤ m ≤ 12 → 1 ≤ d ≤ 31 →
  days_from_civil y m d ≤ -106757.
Proof.
  intros Hy Hm Hd. unfold days_from_civil. cbv zeta.
  destruct (Z.leb_spec m 2); Z.div_mod_to_equations; lia.
Qed.

Lemma early_date_is_out_of_range d m y t :
  1 ≤ d ≤ 31 → 1 ≤ m ≤ 12 → 1000 ≤ y ≤ 1676 →
  to_datetime (recombined d m y +:+ " " +:+ t) = None.
Proof.
  intros Hd Hm Hy. unfold to_datetime.
  destruct (strptime (recombined d m y +:+ " " +:+ t)) as [f|] eqn:E; [|reflexivity].
  cbn [mbind option_bind].
  assert (Hlit : ∀ c rest, literal c (c :: rest) = Some rest).
  { intros c rest. unfold literal, is_char. rewrite Ascii.eqb_refl. reflexivity. }
  unfold strptime, recombined in E.
  rewrite !chars_app, <- !app_assoc in E.
  change (chars "/") with ["/"%char] in E. change (chars " ") with [" "%char] in E.
  cbn [app] in E.
  rewrite dir_d_reads in E by assumption. cbn [mbind option_bind] in E.
  rewrite Hlit in E. cbn [mbind option_bind] in E.
  rewrite dir_m_reads in E by assumption. cbn [mbind option_bind] in E.
  rewrite Hlit in E. cbn [mbind option_bind] in E.
  rewrite dir_Y_reads in E by lia. cbn [mbind option_bind] in E.
  change (blanks (" "%char :: chars t)) with (Some (lstrip (chars t))) in E.
  cbn [mbind option_bind] in E.
  destruct (dir_H (lstrip (chars t))) as [[h s1]|] eqn:EH; [|discriminate E].
  cbn [mbind option_bind] in E.
  destruct (literal ":" s1) as [s2|]; [|discriminate E]. cbn [mbind option_bind] in E.
  destruct (dir_M s2) as [[mi s3]|] eqn:EM; [|discriminate E].
  cbn [mbind option_bind] in E.
  destruct (literal ":" s3) as [s4|]; [|discriminate E]. cbn [mbind option_bind] in E.
  destruct (dir_S s4) as [[sec s5]|] eqn:ES; [|discriminate E].
  cbn [mbind option_bind] in E.
  destruct s5; [|discriminate E]. injection E as <-.
  cbn [f_year f_month f_day f_hour f_minute f_second].
  apply dir_H_value in EH. apply dir_M_value in EM. apply dir_S_value in ES.
  pose proof (days_from_civil_early y m d Hy Hm Hd) as Hz.
  destruct (_ && _); [|reflexivity].
  assert ((- max_seconds <=? days_from_civil y m d * 86400 + h * 3600 + mi * 60 + sec)
          = false) as ->.
  { apply Z.leb_gt. unfold max_seconds. lia. }
  reflexivity.
Qed.

Lemma keep_rows_none seen stamps :
  Forall (λ s, s = None) stamps →
  keep_rows seen stamps = replicate (length stamps) false.
Proof.
  induction 1 as [|s stamps -> _ IH]; [reflexivity|]. simpl. rewrite IH. reflexivity.
Qed.

Lemma select_none {A} n (l : list A) : select (replicate n false) l = [].
Proof.
  revert l. induction n as [|n IH]; intros [|x l]; try reflexivity. simpl. apply IH.
Qed.

(** X18. A date that is already of the common era is converted all the
    same: for a day/month/year text of the years 1543 to 2219 the year
    becomes one of 1000 to 1676, before the instants that 64-bit
    nanoseconds can hold, so whatever its time cell holds the row gets no
    timestamp; a trend sheet dated this way throughout is cleaned to a
    table without rows. *)
Theorem common_era_dates_are_dropped :
  (∀ date_str d m y t,
     date_fields date_str = Some (d, m, y) →
     1 ≤ d ≤ 31 → 1 ≤ m ≤ 12 → 1543 ≤ y ≤ 2219 →
     to_datetime (thai_to_gregorian_year date_str +:+ " " +:+ t) = None)
  ∧ (∀ df_trend dates,
       df_trend !! "Date" = Some dates →
       Forall (λ c, ∃ d m y, date_fields (cell_text c) = Some (d, m, y)
                             ∧ 1 ≤ d ≤ 31 ∧ 1 ≤ m ≤ 12 ∧ 1543 ≤ y ≤ 2219) dates →
       cf_index (clean_trend df_trend) = []
       ∧ ∀ col cleaned, cf_columns (clean_trend df_trend) !! col = Some cleaned →
                        cleaned = []).
Proof.
  assert (Hrow : ∀ date_str d m y t,
     date_fields date_str = Some (d, m, y) →
     1 ≤ d ≤ 31 → 1 ≤ m ≤ 12 → 1543 ≤ y ≤ 2219 →
     to_datetime (thai_to_gregorian_year date_str +:+ " " +:+ t) = None).
  { intros date_str d m y t Hf Hd Hm Hy. unfold thai_to_gregorian_year. rewrite Hf.
    apply (early_date_is_out_of_range d m (y - 543) t); lia. }
  split; [exact Hrow|].
  intros df_trend dates HD Hdates.
  assert (Hnone : Forall (λ s, s = None) (timestamps df_trend)).
  { unfold timestamps. rewrite HD.
    destruct (df_trend !! "Time") as [times|]; [|constructor].
    generalize (cell_text <$> times). clear -Hdates Hrow.
    induction Hdates as [|c dates (d & m & y & Hf & Hd & Hm & Hy) _ IH];
      intros [|t times]; try constructor.
    - apply (Hrow _ d m y t Hf Hd Hm Hy).
    - apply IH. }
  unfold clean_trend. cbn [cf_index cf_columns].
  rewrite (keep_rows_none _ _ Hnone). split.
  - rewrite select_none. reflexivity.
  - intros col cleaned Hc. rewrite lookup_fmap in Hc.
    destruct (delete "Timestamp" df_trend !! col) as [column|]; [|discriminate Hc].
    injection Hc as <-. apply select_none.
Qed.

Lemma common_era_dates_are_dropped_witness :
  to_datetime (thai_to_gregorian_year "05/03/2023" +:+ " " +:+ "10:00:00") = None.
Proof.
  apply (proj1 common_era_dates_are_dropped "05/03/2023" 5 3 2023 "10:00:00" eq_refl);
    lia.
Defined.

(* ===================================================================== *)
(** * 34. The failing points of the distortion checks *)
(* ===================================================================== *)

Lemma entry_violation_same category description x st :
  entry (failing (violation category description (Some x) st)) category description
  = with_phase x (entry (failing st) category description).
Proof. unfold violation. cbn [failing]. rewrite entry_add_eq. reflexivity. Qed.

Lemma entry_violation_other category description c d phase st :
  (c, d) ≠ (category, description) →
  entry (failing (violation c d phase st)) category description
  = entry (failing st) category description.
Proof. intros H. unfold violation. cbn [failing]. apply entry_add_ne, H. Qed.

Lemma thd_descriptions_apart :
  "99th Percentile (3s) > 1.5x limit" ≠ "95th Percentile (10min) > limit"
  ∧ "99th Percentile (3s) > 1.5x TDD limit" ≠ "95th Percentile (10min) > TDD limit"
  ∧ "99th Percentile (3s) > 1.5x TDD limit" ≠ "99th Percentile (10min) > 1.5x TDD limit"
  ∧ "95th Percentile (10min) > TDD limit" ≠ "99th Percentile (10min) > 1.5x TDD limit".
Proof. repeat split; apply (bool_decide_unpack _); vm_compute; reflexivity. Qed.

(** One phase of the voltage loop, seen from each of its two entries. *)
Lemma entry_check_voltage_thd limits percentiles st phase :
  entry (failing (check_voltage_thd limits percentiles st phase))
        "Voltage THD" "99th Percentile (3s) > 1.5x limit"
  = (if gt (get0 percentiles ("U" +:+ str_int phase +:+ " THD_99th_3s"))
           (thd limits * 1.5)
     then with_phase ("U" +:+ str_int phase)
     else id) (entry (failing st) "Voltage THD" "99th Percentile (3s) > 1.5x limit")
  ∧ entry (failing (check_voltage_thd limits percentiles st phase))
          "Voltage THD" "95th Percentile (10min) > limit"
    = (if gt (get0 percentiles ("U" +:+ str_int phase +:+ " THD_95th_10min"))
             (thd limits)
       then with_phase ("U" +:+ str_int phase)
       else id) (entry (failing st) "Voltage THD" "95th Percentile (10min) > limit").
Proof.
  destruct thd_descriptions_apart as (D1 & _).
  unfold check_voltage_thd. cbv zeta.
  destruct (gt (get0 percentiles ("U" +:+ str_int phase +:+ " THD_99th_3s")) _),
           (gt (get0 percentiles ("U" +:+ str_int phase +:+ " THD_95th_10min")) _);
    split;
    rewrite ?entry_violation_same, ?(entry_violation_other _ _ _ _ _ _) by congruence;
    rewrite ?entry_violation_same; reflexivity.
Qed.

(** One phase of the current loop, seen from each of its three entries. *)
Lemma entry_check_current_thd row percentiles st phase :
  entry (failing (check_current_thd row percentiles st phase))
        "Current THD" "99th Percentile (3s) > 1.5x TDD limit"
  = (if gt (get0 percentiles ("A" +:+ str_int phase +:+ " THD_99th_3s")) (tdd row * 2)
     then with_phase ("A" +:+ str_int phase)
     else id) (entry (failing st) "Current THD" "99th Percentile (3s) > 1.5x TDD limit")
  ∧ entry (failing (check_current_thd row percentiles st phase))
          "Current THD" "95th Percentile (10min) > TDD limit"
    = (if gt (get0 percentiles ("A" +:+ str_int phase +:+ " THD_95th_10min")) (tdd row)
       then with_phase ("A" +:+ str_int phase)
       else id) (entry (failing st) "Current THD" "95th Percentile (10min) > TDD limit")
  ∧ entry (failing (check_current_thd row percentiles st phase))
          "Current THD" "99th Percentile (10min) > 1.5x TDD limit"
    = (if gt (get0 percentiles ("A" +:+ str_int phase +:+ " THD_99th_10min"))
             (tdd row * 1.5)
       then with_phase ("A" +:+ str_int phase)
       else id) (entry (failing st) "Current THD"
                       "99th Percentile (10min) > 1.5x TDD limit").
Proof.
  destruct thd_descriptions_apart as (_ & D1 & D2 & D3).
  unfold check_current_thd. cbv zeta.
  destruct (gt (get0 percentiles ("A" +:+ str_int phase +:+ " THD_99th_3s")) _),
           (gt (get0 percentiles ("A" +:+ str_int phase +:+ " THD_95th_10min")) _),
           (gt (get0 percentiles ("A" +:+ str_int phase +:+ " THD_99th_10min")) _);
    repeat split;
    repeat (rewrite entry_violation_same
            || rewrite (entry_violation_other _ _ _ _ _ _) by congruence);
    reflexivity.
Qed.

Lemma records_in_harmonic_fold prefix category limit_of percentiles :
  records_in [category]
    (λ st, fold_left (λ st h, check_harmonic prefix category (limit_of h) percentiles st h)
                     harmonic_orders st).
Proof.
  intros st.
  rewrite <- (run_fmap (λ st h, check_harmonic prefix category (limit_of h) percentiles st h)).
  revert st. apply records_in_run, Forall_fmap, Forall_forall. intros h _.
  apply (records_in_check_harmonic [category]). left.
Qed.

Lemma entry_empty category description : entry ∅ category description = None.
Proof. unfold entry. rewrite lookup_empty. reflexivity. Qed.

Lemma three_phases_listed prefix key_suffix limit percentiles
    (f : Z → option failing_point → option failing_point) :
  prefix = "U" ∨ prefix = "A" →
  (∀ p e, f p e
          = (if gt (get0 percentiles (prefix +:+ str_int p +:+ key_suffix)) limit
             then with_phase (prefix +:+ str_int p) else id) e) →
  f 3 (f 2 (f 1 None)) = listed (exceeding prefix key_suffix limit percentiles).
Proof.
  intros Hp Hf. rewrite !Hf. unfold exceeding. cbn [List.filter].
  destruct Hp as [-> | ->];
    destruct (gt (get0 percentiles (_ +:+ str_int 1 +:+ key_suffix)) limit),
             (gt (get0 percentiles (_ +:+ str_int 2 +:+ key_suffix)) limit),
             (gt (get0 percentiles (_ +:+ str_int 3 +:+ key_suffix)) limit);
    reflexivity.
Qed.

(** X19. The failing points of the THD checks of a report. Under each
    description the entry lists, in the order of the phases, exactly the
    phases whose percentile exceeds the threshold of the check, and no
    harmonic; there is no entry when no phase exceeds it. The thresholds
    are 1.5 times and once the voltage THD limit and, for the current,
    twice, once and 1.5 times the TDD limit: the 3-second current check,
    whose description says 1.5x, compares with twice the limit. *)
Theorem thd_failing_points (dfs : gmap string frame)
    (nominal_voltage isc il : float) (r : report) :
  analyze_full_data dfs nominal_voltage isc il = Ok r →
  ∃ trend,
    dfs !! "Trend" = Some trend
    ∧ let u := calculate_thd_percentiles (clean_trend trend) "U" true true in
      let a := calculate_thd_percentiles (clean_trend trend) "A" true true in
      (∀ limits,
         voltage_limit_table nominal_voltage = Some limits →
         entry (failing_points r) "Voltage THD" "99th Percentile (3s) > 1.5x limit"
         = listed (exceeding "U" " THD_99th_3s" (thd limits * 1.5) u)
         ∧ entry (failing_points r) "Voltage THD" "95th Percentile (10min) > limit"
           = listed (exceeding "U" " THD_95th_10min" (thd limits) u))
      ∧ (∀ row,
           current_limit_row nominal_voltage isc il = Some row →
           entry (failing_points r) "Current THD" "99th Percentile (3s) > 1.5x TDD limit"
           = listed (exceeding "A" " THD_99th_3s" (tdd row * 2) a)
           ∧ entry (failing_points r) "Current THD" "95th Percentile (10min) > TDD limit"
             = listed (exceeding "A" " THD_95th_10min" (tdd row) a)
           ∧ entry (failing_points r) "Current THD"
                   "99th Percentile (10min) > 1.5x TDD limit"
             = listed (exceeding "A" " THD_99th_10min" (tdd row * 1.5) a)).
Proof.
  intros H. analyze_inversion H. exists df_trend. split; [reflexivity|].
  cbn [failing_points]. cbv zeta.
  set (u := calculate_thd_percentiles (clean_trend df_trend) "U" true true).
  set (a := calculate_thd_percentiles (clean_trend df_trend) "A" true true).
  set (vst := evaluate_voltage _ _ _ _).
  set (cst := evaluate_current _ _ _ _ _).
  assert (Hrv : recorded_from voltage_categories ∅ (failing vst)).
  { apply (records_in_evaluate_voltage _ _ _ {| compliance := "Pass"; failing := ∅ |}). }
  assert (Hrc : recorded_from current_categories (failing vst) (failing cst)).
  { apply (records_in_evaluate_current _ _ _ _
             {| compliance := "Pass"; failing := failing vst |}). }
  split.
  - intros limits Hl.
    assert (Hnot : "Voltage THD" ∉ current_categories).
    { unfold current_categories. rewrite !not_elem_of_cons. repeat split; try discriminate.
      apply not_elem_of_nil. }
    rewrite !(entry_recorded_other _ _ _ "Voltage THD" _ Hrc Hnot).
    unfold vst. rewrite Hl. unfold evaluate_voltage.
    assert (Hnot' : "Voltage THD" ∉ ["Individual Voltage Harmonics"]).
    { rewrite not_elem_of_cons. split; [discriminate|apply not_elem_of_nil]. }
    rewrite !(entry_recorded_other _ _ _ "Voltage THD" _
                (records_in_harmonic_fold "V" "Individual Voltage Harmonics"
                   (λ _, individual limits) _ _) Hnot').
    cbn [fold_left]. split.
    + rewrite <- (three_phases_listed "U" " THD_99th_3s" (thd limits * 1.5) u
                   (λ p e, (if gt (get0 u ("U" +:+ str_int p +:+ " THD_99th_3s"))
                                  (thd limits * 1.5)
                            then with_phase ("U" +:+ str_int p) else id) e))
        by (auto || reflexivity).
      rewrite !(proj1 (entry_check_voltage_thd _ _ _ _)).
      cbn [failing]. rewrite entry_empty. reflexivity.
    + rewrite <- (three_phases_listed "U" " THD_95th_10min" (thd limits) u
                   (λ p e, (if gt (get0 u ("U" +:+ str_int p +:+ " THD_95th_10min"))
                                  (thd limits)
                            then with_phase ("U" +:+ str_int p) else id) e))
        by (auto || reflexivity).
      rewrite !(proj2 (entry_check_voltage_thd _ _ _ _)).
      cbn [failing]. rewrite entry_empty. reflexivity.
  - intros row Hrow. unfold cst. rewrite Hrow. unfold evaluate_current.
    assert (Hnot' : "Current THD" ∉ ["Individual Current Harmonics"]).
    { rewrite not_elem_of_cons. split; [discriminate|apply not_elem_of_nil]. }
    rewrite !(entry_recorded_other _ _ _ "Current THD" _
                (records_in_harmonic_fold "A" "Individual Current Harmonics"
                   (λ h, get_current_limit_for_harmonic h (Some row)) _ _) Hnot').
    cbn [fold_left].
    assert (Hstart : ∀ d tdd_value,
      entry (failing (check_tdd row tdd_value
                        {| compliance := "Pass"; failing := failing vst |}))
            "Current THD" d = None).
    { intros d tdd_value. unfold check_tdd.
      destruct (gt tdd_value (tdd row)).
      - rewrite entry_violation_other by discriminate. cbn [failing].
        rewrite (entry_recorded_other _ _ _ "Current THD" _ Hrv); [apply entry_empty|].
        unfold voltage_categories. rewrite !not_elem_of_cons.
        repeat split; try discriminate. apply not_elem_of_nil.
      - cbn [failing].
        rewrite (entry_recorded_other _ _ _ "Current THD" _ Hrv); [apply entry_empty|].
        unfold voltage_categories. rewrite !not_elem_of_cons.
        repeat split; try discriminate. apply not_elem_of_nil. }
    split; [|split].
    + rewrite <- (three_phases_listed "A" " THD_99th_3s" (tdd row * 2) a
                   (λ p e, (if gt (get0 a ("A" +:+ str_int p +:+ " THD_99th_3s"))
                                  (tdd row * 2)
                            then with_phase ("A" +:+ str_int p) else id) e))
        by (auto || reflexivity).
      rewrite !(proj1 (entry_check_current_thd _ _ _ _)), Hstart. reflexivity.
    + rewrite <- (three_phases_listed "A" " THD_95th_10min" (tdd row) a
                   (λ p e, (if gt (get0 a ("A" +:+ str_int p +:+ " THD_95th_10min"))
                                  (tdd row)
                            then with_phase ("A" +:+ str_int p) else id) e))
        by (auto || reflexivity).
      rewrite !(proj1 (proj2 (entry_check_current_thd _ _ _ _))), Hstart. reflexivity.
    + rewrite <- (three_phases_listed "A" " THD_99th_10min" (tdd row * 1.5) a
                   (λ p e, (if gt (get0 a ("A" +:+ str_int p +:+ " THD_99th_10min"))
                                  (tdd row * 1.5)
                            then with_phase ("A" +:+ str_int p) else id) e))
        by (auto || reflexivity).
      rewrite !(proj2 (proj2 (entry_check_current_thd _ _ _ _))), Hstart. reflexivity.
Qed.

Lemma thd_failing_points_witness :
  ∃ r, analyze_full_data thd_distorted_workbook 400 1000 50 = Ok r
       ∧ entry (failing_points r) "Voltage THD" "95th Percentile (10min) > limit"
         = Some (FailingPoint ["U1"] []).
Proof.
  destruct (returns_Ok (analyze_full_data thd_distorted_workbook 400 1000 50)) as [r E];
    [vm_compute; reflexivity|].
  exists r. split; [exact E|].
  destruct (thd_failing_points thd_distorted_workbook 400 1000 50 r E)
    as (trend & Ht & Hv & _).
  destruct (Hv (VoltageLimits 5.0 8.0) eq_refl) as [_ H95].
  etransitivity; [exact H95|].
  assert (trend = <["U1 THD" := constant "9.0" 9]>
                    (full_trend (constant "1000.0" 1000) (constant "1000.0" 1000)))
    as -> by (apply (inj Some); rewrite <- Ht; reflexivity).
  vm_compute. reflexivity.
Defined.

Lemma records_in_thd_fold row percentiles :
  records_in ["Current THD"]
    (λ st, fold_left (check_current_thd row percentiles) [1; 2; 3] st).
Proof.
  intros st.
  rewrite <- (run_fmap (check_current_thd row percentiles)).
  revert st. apply records_in_run, Forall_fmap, Forall_forall. intros p _.
  apply (records_in_check_current_thd ["Current THD"]). left.
Qed.

Lemma gt_nan_to_zero x limit :
  gt 0 limit = false → gt (nan_to_zero x) limit = gt x limit.
Proof.
  intros Hl. unfold nan_to_zero. destruct (isnan x) eqn:E; [|reflexivity].
  cbn [orb]. rewrite Hl. symmetry.
  destruct (gt x limit) eqn:G; [|reflexivity].
  unfold gt in G. apply lt_number in G as [_ G]. congruence.
Qed.

(** X20. The failing point of the demand distortion check. When a row of
    the current-limit table applies, the report has the entry "Overall TDD
    > limit" under "Current TDD" exactly when its [tdd_percent] exceeds the
    row's TDD limit, and the entry lists no phase and no harmonic. *)
Theorem tdd_failing_point (dfs : gmap string frame)
    (nominal_voltage isc il : float) (r : report) (row : current_limits) :
  analyze_full_data dfs nominal_voltage isc il = Ok r →
  current_limit_row nominal_voltage isc il = Some row →
  entry (failing_points r) "Current TDD" "Overall TDD > limit"
  = if gt (tdd_percent r) (tdd row) then Some (FailingPoint [] []) else None.
Proof.
  intros H Hrow. analyze_inversion H. cbn [failing_points tdd_percent].
  set (vst := evaluate_voltage _ _ _ _).
  assert (Hrv : recorded_from voltage_categories ∅ (failing vst)).
  { apply (records_in_evaluate_voltage _ _ _ {| compliance := "Pass"; failing := ∅ |}). }
  assert (Hlimit : gt 0 (tdd row) = false).
  { unfold current_limit_row in Hrow.
    destruct (le nominal_voltage 69000); [|discriminate Hrow].
    apply find_limit_row_Some in Hrow as (band & Hin & _).
    unfold CURRENT_LIMITS_120V_to_69kV in Hin.
    band_cases Hin; reflexivity. }
  rewrite gt_nan_to_zero by exact Hlimit.
  rewrite Hrow. unfold evaluate_current.
  assert (N1 : "Current TDD" ∉ ["Individual Current Harmonics"]).
  { rewrite not_elem_of_cons. split; [discriminate|apply not_elem_of_nil]. }
  assert (N2 : "Current TDD" ∉ ["Current THD"]).
  { rewrite not_elem_of_cons. split; [discriminate|apply not_elem_of_nil]. }
  assert (N3 : "Current TDD" ∉ voltage_categories).
  { unfold voltage_categories. rewrite !not_elem_of_cons.
    repeat split; try discriminate. apply not_elem_of_nil. }
  rewrite (entry_recorded_other _ _ _ "Current TDD" _
             (records_in_harmonic_fold "A" "Individual Current Harmonics"
                (λ h, get_current_limit_for_harmonic h (Some row)) _ _) N1).
  rewrite (entry_recorded_other _ _ _ "Current TDD" _
             (records_in_thd_fold row _ _) N2).
  unfold check_tdd.
  match goal with
  | |- context [if ?c then Some _ else None] => destruct c
  end.
  - unfold violation. cbn [failing]. rewrite entry_add_eq.
    rewrite (entry_recorded_other _ _ _ "Current TDD" _ Hrv N3), entry_empty.
    reflexivity.
  - cbn [failing].
    rewrite (entry_recorded_other _ _ _ "Current TDD" _ Hrv N3). apply entry_empty.
Qed.

Lemma tdd_failing_point_witness :
  ∃ r, analyze_full_data healthy_workbook 400 1000 50 = Ok r
       ∧ entry (failing_points r) "Current TDD" "Overall TDD > limit"
         = if gt (tdd_percent r) 8 then Some (FailingPoint [] []) else None.
Proof.
  destruct (returns_Ok (analyze_full_data healthy_workbook 400 1000 50)) as [r E];
    [vm_compute; reflexivity|].
  exists r. split; [exact E|].
  exact (tdd_failing_point healthy_workbook 400 1000 50 r
           (CurrentLimits 7.0 3.5 2.5 1.0 0.5 8.0) E eq_refl).
Defined.

(* ===================================================================== *)
(** * 35. What the engine raises and what each part of the report reads *)
(* ===================================================================== *)

(** X21. What [analyze_full_data] does with a workbook, whatever the three
    numbers: it raises [ValueError("Missing required worksheets.")]
    exactly when one of the three worksheets is missing; otherwise it
    raises [AttributeError] exactly when the trend sheet lacks a column
    that [trend_data] charts; otherwise it returns a report. It raises
    nothing else. *)
Theorem analysis_outcomes (dfs : gmap string frame) (nominal_voltage isc il : float) :
  let outcome := analyze_full_data dfs nominal_voltage isc il in
  let complete :=
    is_Some (dfs !! "Trend") ∧ is_Some (dfs !! "Vh Harmonic %")
    ∧ is_Some (dfs !! "Ah Harmonic %") in
  (outcome = Raise (ValueError "Missing required worksheets.") ↔ ¬ complete)
  ∧ (outcome = Raise AttributeError ↔
     complete ∧ ∃ trend channel, dfs !! "Trend" = Some trend
                                 ∧ channel ∈ charted_channels ∧ trend !! channel = None)
  ∧ ((∃ r, outcome = Ok r) ↔
     complete ∧ ∀ trend channel, dfs !! "Trend" = Some trend →
                                 channel ∈ charted_channels → is_Some (trend !! channel))
  ∧ (∀ e, outcome = Raise e →
          e = ValueError "Missing required worksheets." ∨ e = AttributeError).
Proof.
  intros outcome complete.
  pose proof (analyze_full_data_outcome dfs nominal_voltage isc il) as Ho.
  fold outcome in Ho. unfold complete.
  destruct outcome as [r|[message|]].
  - destruct Ho as (trend & Ht & Hv & Ha & Hall).
    split; [|split; [|split]].
    + split; [discriminate|]. intros Hn. exfalso. apply Hn.
      rewrite Ht. split; [eexists; reflexivity|]. split; assumption.
    + split; [discriminate|]. intros (_ & trend' & channel & Ht' & Hin & Hnone).
      assert (trend' = trend) as -> by congruence.
      destruct (Hall channel Hin) as [x Hx]. congruence.
    + split; [|eauto]. intros _. rewrite Ht.
      split; [split; [eexists; reflexivity|split; assumption]|].
      intros trend' channel [= <-]. apply Hall.
    + discriminate.
  - destruct Ho as (-> & Hmiss).
    assert (Hn : ¬ (is_Some (dfs !! "Trend") ∧ is_Some (dfs !! "Vh Harmonic %")
                    ∧ is_Some (dfs !! "Ah Harmonic %"))).
    { intros ([? H1] & [? H2] & [? H3]). destruct Hmiss as [H|[H|H]]; congruence. }
    split; [|split; [|split]].
    + split; [intros _; exact Hn|reflexivity].
    + split; [discriminate|]. intros [Hc _]. contradiction.
    + split; [intros [r Hr]; discriminate Hr|]. intros [Hc _]. contradiction.
    + intros e [= <-]. left. reflexivity.
  - destruct Ho as (trend & channel & Ht & Hv & Ha & Hin & Hnone).
    assert (Hc : is_Some (dfs !! "Trend") ∧ is_Some (dfs !! "Vh Harmonic %")
                 ∧ is_Some (dfs !! "Ah Harmonic %")).
    { rewrite Ht. split; [eexists; reflexivity|]. split; assumption. }
    split; [|split; [|split]].
    + split; [discriminate|]. intros Hn. contradiction.
    + split; [|reflexivity]. intros _. split; [exact Hc|]. eauto.
    + split; [intros [r Hr]; discriminate Hr|].
      intros (_ & Hall). destruct (Hall trend channel Ht Hin) as [x Hx]. congruence.
    + intros e [= <-]. right. reflexivity.
Qed.

(** ** Frames *)

(** Reading a successful run on a named workbook back. *)
Ltac analyze_inversion_of dfs H :=
  unfold analyze_full_data in H;
  destruct (dfs !! "Trend") as [df_trend|] eqn:Htrend; [|discriminate H];
  destruct (dfs !! "Vh Harmonic %") as [df_vh|] eqn:Hvh; [|discriminate H];
  destruct (dfs !! "Ah Harmonic %") as [df_ah|] eqn:Hah; [|discriminate H];
  destruct (build_trend_data (clean_trend df_trend)) as [chart|] eqn:Hchart;
  [|discriminate H];
  simpl in H; injection H as <-.

Lemma add_failing_point_by_category c d p h m1 m2 cat :
  m1 !! cat = m2 !! cat →
  add_failing_point c d p h m1 !! cat = add_failing_point c d p h m2 !! cat.
Proof.
  intros H. destruct (decide (c = cat)) as [<-|Hne].
  - unfold add_failing_point. rewrite !lookup_insert_eq, H. reflexivity.
  - rewrite !lookup_add_ne by assumption. exact H.
Qed.

Lemma by_category_id : by_category (λ st, st).
Proof. intros st1 st2 cat H. exact H. Qed.

Lemma by_category_violation category description phase :
  by_category (violation category description phase).
Proof.
  intros st1 st2 cat H. unfold violation. cbn [failing].
  apply add_failing_point_by_category, H.
Qed.

Lemma by_category_compose f g :
  by_category f → by_category g → by_category (λ st, g (f st)).
Proof. intros Hf Hg st1 st2 cat H. apply Hg, Hf, H. Qed.

Lemma by_category_if (b : bool) f g :
  by_category f → by_category g → by_category (λ st, if b then f st else g st).
Proof. intros Hf Hg st1 st2 cat H. destruct b; [apply Hf|apply Hg]; exact H. Qed.

Lemma by_category_check_tdd row tdd_value : by_category (check_tdd row tdd_value).
Proof.
  unfold check_tdd.
  apply (by_category_if _ (violation _ _ _) (λ st, st));
    auto using by_category_id, by_category_violation.
Qed.

Lemma by_category_check_current_thd row percentiles phase :
  by_category (λ st, check_current_thd row percentiles st phase).
Proof.
  unfold check_current_thd.
  apply (by_category_compose
           (λ st, (λ st, if gt _ _ then violation _ _ _ st else st)
                    ((λ st, if gt _ _ then violation _ _ _ st else st) st))
           (λ st, if gt _ _ then violation _ _ _ st else st)).
  - apply (by_category_compose
             (λ st, if gt _ _ then violation _ _ _ st else st)
             (λ st, if gt _ _ then violation _ _ _ st else st));
      apply by_category_if; auto using by_category_id, by_category_violation.
  - apply by_category_if; auto using by_category_id, by_category_violation.
Qed.

Lemma by_category_check_harmonic prefix category limit percentiles h :
  by_category (λ st, check_harmonic prefix category limit percentiles st h).
Proof.
  intros st1 st2 cat H. rewrite !check_harmonic_spec. cbv zeta.
  destruct (failed_phases prefix limit percentiles h); [exact H|].
  cbn [failing]. apply add_failing_point_by_category, H.
Qed.

Lemma by_category_run checks : Forall by_category checks → by_category (run checks).
Proof.
  unfold run. induction 1 as [|check checks Hc _ IH]; intros st1 st2 cat H; simpl.
  - exact H.
  - apply IH, Hc, H.
Qed.

Lemma by_category_evaluate_current row tdd_value percentiles df :
  by_category (evaluate_current row tdd_value percentiles df).
Proof.
  intros st1 st2 cat H. rewrite !evaluate_current_run. revert st1 st2 cat H.
  apply by_category_run. unfold current_checks.
  destruct row as [row|]; [|constructor].
  apply Forall_app. split; [|apply Forall_app; split].
  - constructor; [|constructor]. apply by_category_check_tdd.
  - apply Forall_fmap, Forall_forall; intros x _. apply by_category_check_current_thd.
  - apply Forall_fmap, Forall_forall; intros x _.
    apply (by_category_check_harmonic "A").
Qed.

Lemma rule_step_verdict check st1 st2 :
  rule_step check → compliance st1 = compliance st2 →
  compliance (check st1) = compliance (check st2).
Proof.
  intros (violated & record & Hc) H. rewrite !Hc. cbn [compliance].
  destruct violated; [reflexivity|exact H].
Qed.

(** X22. What each part of a report reads. Two runs on the same trend
    sheet give the same voltage distortion figure, summary statistics and
    trend data, and with the same load current the same demand distortion;
    with the same voltage harmonics sheet and the same voltage limit row
    they give the same voltage verdict, voltage bars and voltage failing
    points, whatever the short-circuit and load currents and the current
    harmonics sheet; with the same current harmonics sheet, load current
    and current limit row they give the same current verdict, current
    bars and current failing points, whatever the voltage harmonics. *)
Theorem report_parts_read_their_inputs (dfs1 dfs2 : gmap string frame)
    (nv1 nv2 isc1 isc2 il1 il2 : float) (r1 r2 : report) (trend : frame) :
  analyze_full_data dfs1 nv1 isc1 il1 = Ok r1 →
  analyze_full_data dfs2 nv2 isc2 il2 = Ok r2 →
  dfs1 !! "Trend" = Some trend → dfs2 !! "Trend" = Some trend →
  thdv_percent r1 = thdv_percent r2
  ∧ summary_stats r1 = summary_stats r2
  ∧ trend_data r1 = trend_data r2
  ∧ (il1 = il2 → tdd_percent r1 = tdd_percent r2)
  ∧ (dfs1 !! "Vh Harmonic %" = dfs2 !! "Vh Harmonic %" →
     voltage_limit_table nv1 = voltage_limit_table nv2 →
     voltage_compliance r1 = voltage_compliance r2
     ∧ vh_data (bar_chart_data r1) = vh_data (bar_chart_data r2)
     ∧ ∀ cat, cat ∈ voltage_categories →
              failing_points r1 !! cat = failing_points r2 !! cat)
  ∧ (dfs1 !! "Ah Harmonic %" = dfs2 !! "Ah Harmonic %" → il1 = il2 →
     current_limit_row nv1 isc1 il1 = current_limit_row nv2 isc2 il2 →
     current_compliance r1 = current_compliance r2
     ∧ ah_data (bar_chart_data r1) = ah_data (bar_chart_data r2)
     ∧ ∀ cat, cat ∈ current_categories →
              failing_points r1 !! cat = failing_points r2 !! cat).
Proof.
  intros H1 H2 T1 T2.
  analyze_inversion_of dfs1 H1. assert (df_trend = trend) as -> by congruence.
  clear Htrend T1.
  rename df_vh into vh1, df_ah into ah1, chart into chart1,
         Hvh into Hvh1, Hah into Hah1, Hchart into Hchart1.
  analyze_inversion_of dfs2 H2. assert (df_trend = trend) as -> by congruence.
  assert (chart = chart1) as -> by congruence.
  cbn [thdv_percent summary_stats trend_data tdd_percent voltage_compliance
       current_compliance failing_points bar_chart_data].
  set (u := calculate_thd_percentiles (clean_trend trend) "U" true true).
  set (a := calculate_thd_percentiles (clean_trend trend) "A" true true).
  set (stats := build_summary_stats (clean_trend trend) _ _).
  assert (Hcur_not_v : ∀ cat, cat ∈ current_categories → cat ∉ voltage_categories).
  { intros cat Hin Hv. revert Hin Hv. unfold current_categories, voltage_categories.
    rewrite !elem_of_cons, !elem_of_nil.
    intros [->|[->|[->|[]]]] [?|[?|[]]]; discriminate. }
  assert (Hv_not_cur : ∀ cat, cat ∈ voltage_categories → cat ∉ current_categories).
  { intros cat Hin Hc. exact (Hcur_not_v cat Hc Hin). }
  assert (Hafter : ∀ table vh row tdd_value ah cat,
    cat ∈ voltage_categories →
    failing (evaluate_current row tdd_value a ah
               {| compliance := "Pass";
                  failing := failing (evaluate_voltage table u vh
                                        {| compliance := "Pass"; failing := ∅ |}) |})
      !! cat
    = failing (evaluate_voltage table u vh {| compliance := "Pass"; failing := ∅ |})
        !! cat).
  { intros table vh row tdd_value ah cat Hin.
    apply (recorded_from_other current_categories); [|apply Hv_not_cur, Hin].
    apply (records_in_evaluate_current _ _ _ _
             {| compliance := "Pass"; failing := _ |}). }
  split; [reflexivity|]. split; [reflexivity|]. split; [reflexivity|].
  split; [intros ->; reflexivity|]. split.
  - intros Evh Htable.
    assert (df_vh = vh1) as -> by congruence.
    rewrite Htable. split; [reflexivity|]. split; [reflexivity|].
    intros cat Hin. rewrite !Hafter by exact Hin. reflexivity.
  - intros Eah -> Hrow.
    assert (df_ah = ah1) as -> by congruence.
    rewrite Hrow. split; [|split; [reflexivity|]].
    + rewrite !evaluate_current_run.
      apply rule_step_verdict; [|reflexivity].
      apply rule_step_run, current_checks_rule_steps.
    + intros cat Hin. apply by_category_evaluate_current. cbn [failing].
      assert (Hnone : ∀ table vh,
        failing (evaluate_voltage table u vh {| compliance := "Pass"; failing := ∅ |})
          !! cat = None).
      { intros table vh.
        rewrite (recorded_from_other voltage_categories ∅ _ cat).
        - apply lookup_empty.
        - apply (records_in_evaluate_voltage _ _ _
                   {| compliance := "Pass"; failing := ∅ |}).
        - apply Hcur_not_v, Hin. }
      rewrite !Hnone. reflexivity.
Qed.

Lemma report_parts_read_their_inputs_witness :
  ∃ r1 r2,
    analyze_full_data healthy_workbook 400 1000 50 = Ok r1
    ∧ analyze_full_data distorted_workbook 400 50 50 = Ok r2
    ∧ summary_stats r1 = summary_stats r2
    ∧ trend_data r1 = trend_data r2.
Proof.
  destruct (returns_Ok (analyze_full_data healthy_workbook 400 1000 50)) as [r1 E1];
    [vm_compute; reflexivity|].
  destruct (returns_Ok (analyze_full_data distorted_workbook 400 50 50)) as [r2 E2];
    [vm_compute; reflexivity|].
  exists r1, r2. split; [exact E1|]. split; [exact E2|].
  destruct (report_parts_read_their_inputs healthy_workbook distorted_workbook
              400 400 1000 50 50 50 r1 r2
              (full_trend (constant "1000.0" 1000) (constant "1000.0" 1000))
              E1 E2 eq_refl eq_refl) as (_ & Hs & Ht & _).
  split; [exact Hs|exact Ht].
Defined.
